(** * TerritoryCycle: the ride-recording-to-territory pipeline

    A shallow embedding of the client-side pipeline of [src/App.jsx]
    (sample filter, recording state machine, route signature, unlock
    evaluator, levels, XP award and progress, streak, durations on
    display) and of [checkRouteProgress] in [src/supabase.js].

    The recording page is the [RecordingPage] of [src/App.jsx]; an earlier
    variant of the page in the repository keeps the same books, and the
    oldest one derives the cells from the accepted points when it stops.

    Conventions.
    - [Date.now()] values and ISO timestamps are integers, in milliseconds.
    - The binary64 numbers that carry distances, speeds, coordinates and
      durations are idealised as real numbers; [getXpProgress], whose
      behaviour depends on [NaN] and [Infinity], has a model of its own
      with those values written out; its finite values are exact
      rationals, and what is stated of them is kept to what rounding
      preserves.  The real numbers part from the code between two points
      nearly opposite on the globe: there the rounding of binary64 can
      push the [a] of [haversine] above 1, and the distance is [NaN].
      Module [B64] has the position callback in binary64 for that case;
      the bounds on distances and speeds along a run are stated for runs
      whose positions are less than a quarter of a great circle apart.
    - A JavaScript [Set] of strings is a duplicate-free list in insertion
      order, which is the order [Array.from] reads it in. *)

From Stdlib Require Import ZArith NArith List String Ascii Bool Lia.
From Stdlib Require Import QArith Qround Sorted.
From Stdlib Require DecimalString DecimalN.
From Stdlib Require Floats Uint63.
From Stdlib Require Import Reals Lra.
Import ListNotations.

Local Open Scope Z_scope.

(** ** CONFIG *)

Inductive activity : Type := cycling | running | hiking.

Module CONFIG.
Definition H3_RESOLUTION : Z := 10.
Definition MIN_RIDE_POINTS : nat := 10.
Definition MIN_ACCURACY_METERS : R := 50%R.
Definition MAX_SPEED_MS (a : activity) : R :=
  match a with
  | cycling => 18%R
  | running => 8%R
  | hiking => 4%R
  end.
Definition UNLOCK_THRESHOLD : nat := 3.
Definition UNLOCK_WINDOW_DAYS : Z := 7.
End CONFIG.

(** ** The persisted ride record *)

Record Ride : Type := mkRide {
  user_id : string;
  activity_type : activity;
  started_at : Z;
  ended_at : Z;
  duration_sec : Z;
  distance_m : Z;
  route_signature : string;
  tiles_touched : nat
}.

(** ** Unlock evaluator *)

(** [SummaryPage]: [recentCount] and [unlocked].  [rides] is the owner's
    ride list held by the application (the saved ride has been put in front
    of it by [end]), [lastRide] the ride just saved, if any. *)
Definition recentCount (rides : list Ride) (lastRide : option Ride) (now : Z) : nat :=
  match lastRide with
  | None => 0%nat
  | Some lr =>
      let wk := now - 7 * 86400000 in
      List.length (filter (fun r =>
                String.eqb (route_signature r) (route_signature lr)
                && (wk <=? started_at r)) rides)
  end.

Definition unlocked (rides : list Ride) (lastRide : option Ride) (now : Z) : bool :=
  (3 <=? recentCount rides lastRide now)%nat.

(** [checkRouteProgress] of supabase.js: the same count, taken by the
    backend over the whole [rides] table. *)
Definition checkRouteProgress (table : list Ride) (userId routeSignature : string)
    (now : Z) : nat :=
  let weekAgo := now - 7 * 24 * 60 * 60 * 1000 in
  List.length (filter (fun r =>
            String.eqb (user_id r) userId
            && String.eqb (route_signature r) routeSignature
            && (weekAgo <=? started_at r)) table).

(** The unlock rule in the words of the specification: a ride counts when
    it has the fingerprint asked for and is at most [UNLOCK_WINDOW_DAYS]
    old at [now], its age being measured from its start. *)
Definition day_ms : Z := 86400000.

Definition age_ms (now : Z) (r : Ride) : Z := now - started_at r.

Definition counts_toward (fp : string) (now : Z) (r : Ride) : Prop :=
  route_signature r = fp /\ age_ms now r <= CONFIG.UNLOCK_WINDOW_DAYS * day_ms.

Definition counts_toward_dec (fp : string) (now : Z) (r : Ride) :
  {counts_toward fp now r} + {~ counts_toward fp now r}.
Proof.
  unfold counts_toward.
  destruct (string_dec (route_signature r) fp);
    destruct (Z_le_dec (age_ms now r) (CONFIG.UNLOCK_WINDOW_DAYS * day_ms));
    (left; tauto) || (right; tauto).
Defined.

Fixpoint window_count (fp : string) (now : Z) (rides : list Ride) : nat :=
  match rides with
  | [] => 0%nat
  | r :: rest =>
      if counts_toward_dec fp now r
      then S (window_count fp now rest)
      else window_count fp now rest
  end.

(** The rides of the specification's example: one owner, one fingerprint,
    started on the given day. *)
Definition ride_on_day (d : Z) : Ride :=
  mkRide "owner" cycling (d * day_ms) (d * day_ms + 1800000) 1800 9000 "fp" 12.

(** ** The digest: [crypto.subtle.digest('SHA-256', ...)]

    SHA-256 as FIPS 180-4 defines it, on 32-bit words held in [N] with the
    wrap-around written out. *)

Module SHA256.
Local Open Scope N_scope.

Definition w32 (x : N) : N := N.land x 0xFFFFFFFF.
Definition add32 (a b : N) : N := w32 (a + b).
Definition not32 (x : N) : N := N.lxor x 0xFFFFFFFF.
Definition rotr (n x : N) : N := N.lor (N.shiftr x n) (w32 (N.shiftl x (32 - n))).
Definition shr (n x : N) : N := N.shiftr x n.

Definition Ch (x y z : N) : N := N.lxor (N.land x y) (N.land (not32 x) z).
Definition Maj (x y z : N) : N :=
  N.lxor (N.lxor (N.land x y) (N.land x z)) (N.land y z).
Definition bsig0 (x : N) : N := N.lxor (N.lxor (rotr 2 x) (rotr 13 x)) (rotr 22 x).
Definition bsig1 (x : N) : N := N.lxor (N.lxor (rotr 6 x) (rotr 11 x)) (rotr 25 x).
Definition ssig0 (x : N) : N := N.lxor (N.lxor (rotr 7 x) (rotr 18 x)) (shr 3 x).
Definition ssig1 (x : N) : N := N.lxor (N.lxor (rotr 17 x) (rotr 19 x)) (shr 10 x).

(** The first 64 primes.  The round constants are the first 32 bits of
    the fractional parts of their cube roots, the initial hash value those
    of the square roots of the first eight. *)
Definition primes : list N :=
  [2; 3; 5; 7; 11; 13; 17; 19; 23; 29; 31; 37; 41; 43; 47; 53;
   59; 61; 67; 71; 73; 79; 83; 89; 97; 101; 103; 107; 109; 113; 127; 131;
   137; 139; 149; 151; 157; 163; 167; 173; 179; 181; 191; 193; 197; 199; 211; 223;
   227; 229; 233; 239; 241; 251; 257; 263; 269; 271; 277; 281; 283; 293; 307; 311].

(** The integer cube root, one bit at a time from bit [b - 1] down. *)
Fixpoint cbrt_bits (b : nat) (n r : N) : N :=
  match b with
  | O => r
  | S b' =>
      let r' := N.setbit r (N.of_nat b') in
      cbrt_bits b' n (if r' * r' * r' <=? n then r' else r)
  end.

Definition frac_cbrt (p : N) : N := w32 (cbrt_bits 36 (N.shiftl p 96) 0).
Definition frac_sqrt (p : N) : N := w32 (N.sqrt (N.shiftl p 64)).

Definition K : list N := Eval vm_compute in map frac_cbrt primes.
Definition H0 : list N := Eval vm_compute in map frac_sqrt (firstn 8 primes).

(** Padding: a one bit, zero bits up to 56 modulo 64 bytes, and the
    message length in bits as a 64-bit big-endian integer. *)
Fixpoint be_bytes (n : nat) (x : N) : list N :=
  match n with
  | O => []
  | S n' => be_bytes n' (N.shiftr x 8) ++ [N.land x 0xFF]
  end.

Definition pad (msg : list N) : list N :=
  let len := N.of_nat (List.length msg) in
  let zeros := (55 + 64 - len mod 64) mod 64 in
  msg ++ [0x80] ++ repeat 0 (N.to_nat zeros) ++ be_bytes 8 (8 * len).

Fixpoint be_words (fuel : nat) (bs : list N) : list N :=
  match fuel, bs with
  | S f, b0 :: b1 :: b2 :: b3 :: rest =>
      (N.shiftl b0 24 + N.shiftl b1 16 + N.shiftl b2 8 + b3) :: be_words f rest
  | _, _ => []
  end.

(** The message schedule, built newest word first: [rev_w] holds
    W(t-1), W(t-2), ... *)
Fixpoint extend (n : nat) (rev_w : list N) : list N :=
  match n with
  | O => rev_w
  | S n' =>
      let w := add32 (add32 (ssig1 (nth 1 rev_w 0)) (nth 6 rev_w 0))
                     (add32 (ssig0 (nth 14 rev_w 0)) (nth 15 rev_w 0)) in
      extend n' (w :: rev_w)
  end.

Definition schedule (block : list N) : list N := rev (extend 48 (rev block)).

Record regs : Type := mkRegs { ra : N; rb : N; rc : N; rd : N;
                               re : N; rf : N; rg : N; rh : N }.

Definition round (r : regs) (kw : N * N) : regs :=
  let t1 := add32 (add32 (add32 (rh r) (bsig1 (re r)))
                         (add32 (Ch (re r) (rf r) (rg r)) (fst kw))) (snd kw) in
  let t2 := add32 (bsig0 (ra r)) (Maj (ra r) (rb r) (rc r)) in
  mkRegs (add32 t1 t2) (ra r) (rb r) (rc r) (add32 (rd r) t1) (re r) (rf r) (rg r).

Definition regs_of (h : list N) : regs :=
  mkRegs (nth 0 h 0) (nth 1 h 0) (nth 2 h 0) (nth 3 h 0)
         (nth 4 h 0) (nth 5 h 0) (nth 6 h 0) (nth 7 h 0).

Definition compress (h : list N) (block : list N) : list N :=
  let r := fold_left round (combine K (schedule block)) (regs_of h) in
  map (fun p => add32 (fst p) (snd p))
      (combine h [ra r; rb r; rc r; rd r; re r; rf r; rg r; rh r]).

Fixpoint blocks (fuel : nat) (ws : list N) : list (list N) :=
  match fuel, ws with
  | _, [] => []
  | O, _ => []
  | S f, _ => firstn 16 ws :: blocks f (skipn 16 ws)
  end.

Definition digest (msg : list N) : list N :=
  let bytes := pad msg in
  let ws := be_words (List.length bytes) bytes in
  let h := fold_left compress (blocks (List.length ws) ws) H0 in
  flat_map (be_bytes 4) h.
End SHA256.

(** [new TextEncoder().encode(msg)]: the bytes of the string (cell ids and
    the separator are ASCII). *)
Definition encode (msg : string) : list N := map N_of_ascii (list_ascii_of_string msg).

(** [b.toString(16).padStart(2,'0')] *)
Definition hex_digit (d : N) : ascii :=
  nth (N.to_nat d) (list_ascii_of_string "0123456789abcdef") "0"%char.

Definition hex_byte (b : N) : string :=
  String (hex_digit (b / 16)%N) (String (hex_digit (b mod 16)%N) EmptyString).

Definition sha256 (msg : string) : string :=
  String.concat "" (map hex_byte (SHA256.digest (encode msg))).

(** ** Levels and XP progress

    [getXpProgress] divides by a difference of thresholds that can be zero,
    so its numbers are modelled with the values a JavaScript division can
    produce besides a finite number. *)

Module JS.
Local Open Scope Q_scope.

Inductive num : Type :=
| Fin (q : Q)
| PosInf
| NegInf
| NaN.

(** An array element read by index: [None] is [undefined]. *)
Definition elem : Type := option Z.

(** [a || b] on array elements: [undefined] and [0] are falsy. *)
Definition or (a b : elem) : elem :=
  match a with
  | Some v => if (v =? 0)%Z then b else a
  | None => b
  end.

Definition of_elem (a : elem) : num :=
  match a with
  | Some v => Fin (inject_Z v)
  | None => NaN
  end.

Definition sub (x y : num) : num :=
  match x, y with
  | NaN, _ | _, NaN => NaN
  | Fin a, Fin b => Fin (a - b)
  | Fin _, PosInf => NegInf
  | Fin _, NegInf => PosInf
  | PosInf, PosInf => NaN
  | PosInf, _ => PosInf
  | NegInf, NegInf => NaN
  | NegInf, _ => NegInf
  end.

Definition sign (x : num) : comparison :=
  match x with
  | Fin a => 0 ?= a
  | PosInf => Lt
  | NegInf => Gt
  | NaN => Eq
  end.

Definition signed_inf (s t : comparison) : num :=
  match s, t with
  | Lt, Lt | Gt, Gt => PosInf
  | Lt, Gt | Gt, Lt => NegInf
  | _, _ => NaN
  end.

(** [x / y]; a zero divisor is the [+0] that a difference of two equal
    thresholds gives. *)
Definition div (x y : num) : num :=
  match x, y with
  | NaN, _ | _, NaN => NaN
  | Fin a, Fin b =>
      if Qeq_bool b 0 then signed_inf (0 ?= a) Lt else Fin (a / b)
  | Fin _, _ => Fin 0
  | _, Fin b => if Qeq_bool b 0 then x else signed_inf (sign x) (0 ?= b)
  | _, _ => NaN
  end.

Definition mul (x y : num) : num :=
  match x, y with
  | NaN, _ | _, NaN => NaN
  | Fin a, Fin b => Fin (a * b)
  | _, _ => signed_inf (sign x) (sign y)
  end.

(** [Math.min(x, y)] *)
Definition min (x y : num) : num :=
  match x, y with
  | NaN, _ | _, NaN => NaN
  | NegInf, _ | _, NegInf => NegInf
  | PosInf, _ => y
  | _, PosInf => x
  | Fin a, Fin b => if Qle_bool a b then x else y
  end.
End JS.

Definition LEVEL_XP : list Z :=
  [0; 100; 250; 500; 1000; 1750; 2750; 4000; 5500; 7500; 10000].

(** [for (let i = LEVEL_XP.length-1; i >= 0; i--) if (xp >= LEVEL_XP[i])
    return i+1; return 1], the loop entered at index [i]. *)
Fixpoint getLevel_from (i : nat) (xp : Q) : nat :=
  if Qle_bool (inject_Z (nth i LEVEL_XP 0)) xp then S i
  else match i with
       | O => 1%nat
       | S i' => getLevel_from i' xp
       end.

Definition getLevel (xp : Q) : nat := getLevel_from (List.length LEVEL_XP - 1) xp.

Definition getXpProgress (xp : Q) : JS.num :=
  let lvl := getLevel xp in
  let curr := JS.or (nth_error LEVEL_XP (lvl - 1)) (Some 0) in
  let next := JS.or (nth_error LEVEL_XP lvl)
                    (nth_error LEVEL_XP (List.length LEVEL_XP - 1)) in
  JS.min (JS.mul (JS.div (JS.sub (JS.Fin xp) (JS.of_elem curr))
                         (JS.sub (JS.of_elem next) (JS.of_elem curr)))
                 (JS.Fin 100))
         (JS.Fin 100).

(** A number between 0 and 100 inclusive. *)
Definition percentage (x : JS.num) : Prop :=
  match x with
  | JS.Fin q => (0 <= q /\ q <= 100)%Q
  | _ => False
  end.

(** ** Geodesy *)

Module Geo.
Local Open Scope R_scope.

(** [Math.atan2(y, x)] *)
Definition atan2 (y x : R) : R :=
  if Rlt_dec 0 x then atan (y / x)
  else if Rlt_dec x 0 then
    (if Rle_dec 0 y then atan (y / x) + PI else atan (y / x) - PI)
  else if Rlt_dec 0 y then PI / 2
  else if Rlt_dec y 0 then - (PI / 2)
  else 0.

Definition toRad (x : R) : R := x * PI / 180.

Definition haversine (lat1 lon1 lat2 lon2 : R) : R :=
  let R0 := 6371000 in
  let dLat := toRad (lat2 - lat1) in
  let dLon := toRad (lon2 - lon1) in
  let a := sin (dLat / 2) ^ 2
           + cos (toRad lat1) * cos (toRad lat2) * sin (dLon / 2) ^ 2 in
  R0 * 2 * atan2 (sqrt a) (sqrt (1 - a)).
End Geo.

(** ** The recording page *)

(** [pos.coords] of a geolocation callback. *)
Record Position : Type := mkPosition {
  latitude : R;
  longitude : R;
  accuracy : R
}.

Record Point : Type := mkPoint { lat : R; lng : R; ts : Z; acc : R }.

Record Stats : Type := mkStats {
  distance : R;
  duration : R;
  tiles : nat;
  speed : R
}.

Inductive rec_state : Type := idle | recording | paused.
Inductive gps_status : Type := waiting | good | okay | poor.
Inductive page : Type := home | record | rideSummary.

(** What [end] does to the rest of the application. *)
Inductive effect : Type :=
| Toast (msg : string)
| SetCurrentPage (p : page)
| Insert (ride : Ride).

(** The state and refs of [RecordingPage].  [startRef] and [pauseRef] hold
    0 for the [null] they start with (which is what [null] is worth in the
    subtraction, in [new Date] and in the truth test that read them);
    [watching] says whether the geolocation watch of [watchRef] is
    registered; [timerRef] is the instant the running interval was set at,
    [None] once it is cleared. *)
Record Session : Type := mkSession {
  state : rec_state;
  stats : Stats;
  gps : gps_status;
  cells : list string;
  showEnd : bool;
  startRef : Z;
  pauseRef : Z;
  pausedRef : Z;
  watching : bool;
  timerRef : option Z;
  pointsRef : list Point
}.

Definition initial : Session :=
  mkSession idle (mkStats 0 0 0 0) waiting [] false 0 0 0 false None [].

(** [new Set(prev)] then [n.add(cell)] *)
Definition set_has (c : string) (s : list string) : bool := existsb (String.eqb c) s.

Definition set_add (c : string) (s : list string) : list string :=
  if set_has c s then s else s ++ [c].

Definition with_stats (s : Session) (st : Stats) : Session :=
  mkSession (state s) st (gps s) (cells s) (showEnd s) (startRef s) (pauseRef s)
            (pausedRef s) (watching s) (timerRef s) (pointsRef s).

Definition with_gps (s : Session) (g : gps_status) : Session :=
  mkSession (state s) (stats s) g (cells s) (showEnd s) (startRef s) (pauseRef s)
            (pausedRef s) (watching s) (timerRef s) (pointsRef s).

Definition with_cells (s : Session) (n : list string) : Session :=
  mkSession (state s) (stats s) (gps s) n (showEnd s) (startRef s) (pauseRef s)
            (pausedRef s) (watching s) (timerRef s) (pointsRef s).

Definition with_points (s : Session) (ps : list Point) : Session :=
  mkSession (state s) (stats s) (gps s) (cells s) (showEnd s) (startRef s) (pauseRef s)
            (pausedRef s) (watching s) (timerRef s) ps.

(** [prev.length >= 1] and then [prev[prev.length - 1]] *)
Definition last_point (prev : list Point) : option Point :=
  nth_error prev (List.length prev - 1).

Section Recording.
(** [latLngToCell] of h3-js, and what the page reads from the
    application context. *)
Variable latLngToCell : R -> R -> Z -> string.
Variable selectedActivity : activity.
Variable user : string.

(** The [watchPosition] callback, the same text in [start] and in
    [resume]; [now] is the [Date.now()] it reads. *)
Definition onPosition (s : Session) (pos : Position) (now : Z) : Session :=
  let pt := mkPoint (latitude pos) (longitude pos) now (accuracy pos) in
  let s := with_gps s (if Rle_dec (acc pt) 20 then good
                       else if Rle_dec (acc pt) 50 then okay else poor) in
  if Rgt_dec (acc pt) CONFIG.MIN_ACCURACY_METERS then s else
  let cell := latLngToCell (lat pt) (lng pt) CONFIG.H3_RESOLUTION in
  let n := set_add cell (cells s) in
  let s := with_stats (with_cells s n)
             (mkStats (distance (stats s)) (duration (stats s)) (List.length n)
                      (speed (stats s))) in
  let prev := pointsRef s in
  match last_point prev with
  | Some last =>
      let dist := Geo.haversine (lat last) (lng last) (lat pt) (lng pt) in
      let dt := (IZR (ts pt - ts last) / 1000)%R in
      let spd := if Rgt_dec dt 0 then (dist / dt)%R else 0%R in
      if Rgt_dec spd (CONFIG.MAX_SPEED_MS selectedActivity) then s else
      let s := with_stats s
                 (mkStats (distance (stats s) + dist)%R (duration (stats s))
                          (tiles (stats s)) (spd * 3.6)%R) in
      with_points s (prev ++ [pt])
  | None => with_points s (prev ++ [pt])
  end.

(** The [setInterval] callback. *)
Definition onTick (s : Session) (now : Z) : Session :=
  with_stats s
    (mkStats (distance (stats s))
             (IZR (now - startRef s - pausedRef s) / 1000)%R
             (tiles (stats s)) (speed (stats s))).

Definition start (s : Session) (now : Z) : Session :=
  mkSession recording (mkStats 0 0 0 0) (gps s) [] (showEnd s) now (pauseRef s)
            0 true (Some now) [].

Definition pause (s : Session) (now : Z) : Session :=
  mkSession paused (stats s) (gps s) (cells s) (showEnd s) (startRef s) now
            (pausedRef s) false None (pointsRef s).

Definition resume (s : Session) (now : Z) : Session :=
  let pausedRef' :=
    if pauseRef s =? 0 then pausedRef s else pausedRef s + (now - pauseRef s) in
  mkSession recording (stats s) (gps s) (cells s) (showEnd s) (startRef s)
            (pauseRef s) pausedRef' true (Some now) (pointsRef s).

(** [end(save)] up to the request it hands to the backend. *)
Definition end_ (s : Session) (save : bool) (now : Z) : Session * list effect :=
  let s := mkSession (state s) (stats s) (gps s) (cells s) false (startRef s)
                     (pauseRef s) (pausedRef s) false None (pointsRef s) in
  if negb save then (s, [Toast "Discarded"; SetCurrentPage home])
  else if (List.length (pointsRef s) <? CONFIG.MIN_RIDE_POINTS)%nat
  then (s, [Toast "Too short"; SetCurrentPage home])
  else
    let cellArr := cells s in
    let sig := sha256 (String.concat "," cellArr) in
    let ride := mkRide user selectedActivity (startRef s) now
                       (Zfloor (duration (stats s)))
                       (Zfloor (distance (stats s)))
                       sig (List.length cellArr) in
    (s, [Insert ride]).

(** The rest of [end]: what follows the backend's answer, [Some data]
    for the stored row and [None] for an error (the XP, the streak and the
    confetti, which read nothing of the session, are left out). *)
Definition after_insert (answer : option Ride) (rides : list Ride)
    (lastRide : option Ride) : list Ride * option Ride * list effect :=
  match answer with
  | Some data =>
      (data :: rides, Some data, [Toast "Saved!"; SetCurrentPage rideSummary])
  | None => (rides, lastRide, [Toast "Failed to save"; SetCurrentPage home])
  end.
End Recording.

(** The speed the callback derives for the sample [pos] read at [now],
    [last] being the sample accepted before it, and the cell it computes. *)
Definition implied_speed (last : Point) (pos : Position) (now : Z) : R :=
  let dist := Geo.haversine (lat last) (lng last) (latitude pos) (longitude pos) in
  let dt := (IZR (now - ts last) / 1000)%R in
  if Rgt_dec dt 0 then (dist / dt)%R else 0%R.

Definition cell_of (latLngToCell : R -> R -> Z -> string) (pos : Position) : string :=
  latLngToCell (latitude pos) (longitude pos) CONFIG.H3_RESOLUTION.

(** ** A session as a sequence of dated events

    The page is mounted idle; the user starts, then the page reacts to the
    geolocation watch, to the pause and resume buttons and to the interval
    timer, until the user ends.  An action carries the [Date.now()] of its
    callback; the timer is the ideal one, calling back every 1000 ms after
    it is set. *)

Inductive action : Type :=
| Sample (pos : Position)
| PressPause
| PressResume.

(** The instants in [(lo, hi]] at which an interval set at [t0] calls
    back. *)
Definition due_ticks (t0 lo hi : Z) : list Z :=
  let k0 := Z.max 1 ((lo - t0) / 1000 + 1) in
  let k1 := (hi - t0) / 1000 in
  map (fun i => t0 + 1000 * (k0 + Z.of_nat i)) (seq 0 (Z.to_nat (k1 - k0 + 1))).

(** The timer calls between two callbacks dated [lo] and [hi]. *)
Definition advance (s : Session) (lo hi : Z) : Session :=
  match timerRef s with
  | Some t0 => fold_left onTick (due_ticks t0 lo hi) s
  | None => s
  end.

Section Run.
Variable latLngToCell : R -> R -> Z -> string.
Variable selectedActivity : activity.
Variable user : string.

(** One action on the page as it stands at instant [fst cs]: the timer
    calls that are due come first; a button acts in the state that shows
    it ([pause] when recording, [resume] when paused); a position is
    delivered while the watch is registered. *)
Definition react (cs : Z * Session) (ta : Z * action) : Z * Session :=
  let s := advance (snd cs) (fst cs) (fst ta) in
  (fst ta,
   match snd ta with
   | Sample pos =>
       if watching s then onPosition latLngToCell selectedActivity s pos (fst ta)
       else s
   | PressPause => match state s with recording => pause s (fst ta) | _ => s end
   | PressResume => match state s with paused => resume s (fst ta) | _ => s end
   end).

(** The page after [start] at [t0] and the actions [acts]. *)
Definition recorded (t0 : Z) (acts : list (Z * action)) : Z * Session :=
  fold_left react acts (t0, start initial t0).

(** The whole session: [start] at [t0], the actions, [end(save)] at [te]. *)
Definition finish (t0 : Z) (acts : list (Z * action)) (te : Z) (save : bool)
    : Session * list effect :=
  let cs := recorded t0 acts in
  end_ selectedActivity user (advance (snd cs) (fst cs) te) save te.

(** The positions fed to the callback one after the other. *)
Definition feed (s : Session) (tps : list (Z * Position)) : Session :=
  fold_left (fun s tp => onPosition latLngToCell selectedActivity s (snd tp) (fst tp))
            tps s.
End Run.

(** The ride handed to the backend, if any. *)
Fixpoint inserted (effs : list effect) : option Ride :=
  match effs with
  | [] => None
  | Insert r :: _ => Some r
  | _ :: rest => inserted rest
  end.

(** *** The session as the specification describes it *)

(** The time spent paused between the start and the end at [te]; [since]
    is the instant of the pause in course, if any. *)
Fixpoint paused_time (since : option Z) (acts : list (Z * action)) (te : Z) : Z :=
  match acts with
  | [] =>
      match since with
      | Some p => te - p
      | None => 0
      end
  | (t, PressPause) :: rest =>
      match since with
      | None => paused_time (Some t) rest te
      | Some _ => paused_time since rest te
      end
  | (t, PressResume) :: rest =>
      match since with
      | Some p => (t - p) + paused_time None rest te
      | None => paused_time None rest te
      end
  | (_, Sample _) :: rest => paused_time since rest te
  end.

(** Wall-clock time from the start at [t0] to the end at [te], minus the
    time spent paused, in milliseconds. *)
Definition unpaused_ms (t0 : Z) (acts : list (Z * action)) (te : Z) : Z :=
  (te - t0) - paused_time None acts te.

(** The length of the last stretch of recording before the end; [cur] is
    [inl a] while recording since [a], [inr l] while paused after a stretch
    of length [l]. *)
Fixpoint last_stretch (cur : Z + Z) (acts : list (Z * action)) (te : Z) : Z :=
  match acts with
  | [] =>
      match cur with
      | inl a => te - a
      | inr l => l
      end
  | (t, PressPause) :: rest =>
      match cur with
      | inl a => last_stretch (inr (t - a)) rest te
      | inr _ => last_stretch cur rest te
      end
  | (t, PressResume) :: rest =>
      match cur with
      | inr _ => last_stretch (inl t) rest te
      | inl _ => last_stretch cur rest te
      end
  | (_, Sample _) :: rest => last_stretch cur rest te
  end.

(** Actions dated in order, from [c] to the end at [te]. *)
Fixpoint in_order (c : Z) (acts : list (Z * action)) (te : Z) : Prop :=
  match acts with
  | [] => c <= te
  | (t, _) :: rest => c <= t /\ in_order t rest te
  end.

(** The positions the watch delivers, with their instants: those that
    come while recording. *)
Fixpoint delivered (rec : bool) (acts : list (Z * action)) : list (Z * Position) :=
  match acts with
  | [] => []
  | (t, Sample pos) :: rest =>
      if rec then (t, pos) :: delivered rec rest else delivered rec rest
  | (_, PressPause) :: rest => delivered false rest
  | (_, PressResume) :: rest => delivered true rest
  end.

(** The length of the path through the points, summed from the first
    hop on, starting from [d]. *)
Fixpoint path_from (d : R) (last : Point) (ps : list Point) : R :=
  match ps with
  | [] => d
  | p :: rest =>
      path_from (d + Geo.haversine (lat last) (lng last) (lat p) (lng p))%R p rest
  end.

Definition path_length (ps : list Point) : R :=
  match ps with
  | [] => 0%R
  | p :: rest => path_from 0 p rest
  end.

(** The distinct elements in the order they first come in. *)
Definition distinct (l : list string) : list string :=
  fold_left (fun acc c => set_add c acc) l [].

(** What the position callback reads and writes of the session. *)
Definition track (s : Session) : list Point * list string * R :=
  (pointsRef s, cells s, distance (stats s)).

(** The sample the callback builds from a position read at [t]. *)
Definition point_of (tp : Z * Position) : Point :=
  mkPoint (latitude (snd tp)) (longitude (snd tp)) (fst tp) (accuracy (snd tp)).

(** A position that passes the accuracy gate. *)
Definition accurate (pos : Position) : bool :=
  if Rgt_dec (accuracy pos) CONFIG.MIN_ACCURACY_METERS then false else true.

(** Positions that all pass both gates: each is accurate, and each implies
    a speed within the ceiling of the activity with respect to the one
    before ([last], for the first). *)
Fixpoint all_pass (kind : activity) (last : option Point) (tps : list (Z * Position))
    : Prop :=
  match tps with
  | [] => True
  | tp :: rest =>
      (accuracy (snd tp) <= CONFIG.MIN_ACCURACY_METERS)%R
      /\ match last with
         | Some l => (implied_speed l (snd tp) (fst tp) <= CONFIG.MAX_SPEED_MS kind)%R
         | None => True
         end
      /\ all_pass kind (Some (point_of tp)) rest
  end.

(** What the callback leaves in the cell set after a run of positions:
    the cells of the positions that pass the accuracy gate, each once, in
    the order they first come in.  The callback adds the cell before it
    checks the speed, so the positions that the speed gate drops are
    counted here as the page counts them. *)
Definition visited (latLngToCell : R -> R -> Z -> string) (tps : list (Z * Position))
    : list string :=
  distinct (map (cell_of latLngToCell) (filter accurate (map snd tps))).

(** The page is recording with the watch registered, or paused without. *)
Definition buttons (rec : bool) (s : Session) : Prop :=
  if rec then state s = recording /\ watching s = true
  else state s = paused /\ watching s = false.

(** Positions each between [lo] and [hi] metres from the one before
    ([last], for the first). *)
Fixpoint hops_within (lo hi : R) (last : Position) (ps : list Position) : Prop :=
  match ps with
  | [] => True
  | p :: rest =>
      (lo <= Geo.haversine (latitude last) (longitude last) (latitude p) (longitude p)
       <= hi)%R
      /\ hops_within lo hi p rest
  end.

(** Samples of the positions [ps], the first at [t] and the next ones
    every [dt] milliseconds. *)
Fixpoint spaced (t dt : Z) (ps : list Position) : list (Z * action) :=
  match ps with
  | [] => []
  | p :: rest => (t, Sample p) :: spaced (t + dt) dt rest
  end.

(** The distance on display is the length of the path through the
    accepted samples. *)
Definition measured (s : Session) : Prop :=
  distance (stats s) = path_length (pointsRef s).

(** *** The stopwatch of the page, in integers

    What [start], [pause], [resume] and the timer read and write, with the
    duration on display in milliseconds.  [stopwatch_of] ties it to the
    session; the timer calls between two callbacks are summed up in the
    last one, which is the one whose value stays on display. *)

Record Watch : Type := mkWatch {
  w_state : rec_state;
  w_start : Z;
  w_pause : Z;
  w_paused : Z;
  w_timer : option Z;
  w_shown : Z
}.

Definition stopwatch_of (w : Watch) (s : Session) : Prop :=
  state s = w_state w /\ startRef s = w_start w /\ pauseRef s = w_pause w
  /\ pausedRef s = w_paused w /\ timerRef s = w_timer w
  /\ duration (stats s) = (IZR (w_shown w) / 1000)%R.

Definition w_advance (w : Watch) (lo hi : Z) : Watch :=
  match w_timer w with
  | Some t0 =>
      let k := (hi - t0) / 1000 in
      if (1 <=? k) && (lo <? t0 + 1000 * k)
      then mkWatch (w_state w) (w_start w) (w_pause w) (w_paused w) (w_timer w)
                   (t0 + 1000 * k - w_start w - w_paused w)
      else w
  | None => w
  end.

Definition w_react (cw : Z * Watch) (ta : Z * action) : Z * Watch :=
  let w := w_advance (snd cw) (fst cw) (fst ta) in
  (fst ta,
   match snd ta with
   | Sample _ => w
   | PressPause =>
       match w_state w with
       | recording =>
           mkWatch paused (w_start w) (fst ta) (w_paused w) None (w_shown w)
       | _ => w
       end
   | PressResume =>
       match w_state w with
       | paused =>
           mkWatch recording (w_start w) (w_pause w)
                   (if w_pause w =? 0 then w_paused w
                    else w_paused w + (fst ta - w_pause w))
                   (Some (fst ta)) (w_shown w)
       | _ => w
       end
   end).

Definition w_recorded (t0 : Z) (acts : list (Z * action)) : Z * Watch :=
  fold_left w_react acts (t0, mkWatch recording t0 0 0 (Some t0) 0).

(** The duration on display when the session ends at [te], in
    milliseconds. *)
Definition shown_at_end (t0 : Z) (acts : list (Z * action)) (te : Z) : Z :=
  let cw := w_recorded t0 acts in
  w_shown (w_advance (snd cw) (fst cw) te).

(** The positions [ps] with their instants, the first at [t] and the
    next ones every [dt] milliseconds. *)
Fixpoint timed (t dt : Z) (ps : list Position) : list (Z * Position) :=
  match ps with
  | [] => []
  | p :: rest => (t, p) :: timed (t + dt) dt rest
  end.

(** What the stopwatch keeps true at instant [c]: recording since [tr]
    ([since] is [None], [cur] is [inl tr]), the display is the time
    recorded at the last timer call, or older if the timer has not called
    in this stretch; paused since [p] after a stretch of length [l], the
    display is at most the time recorded, and less than a second short of
    it if that stretch was a second long. *)
Definition watch_inv (c : Z) (w : Watch) (since : option Z) (cur : Z + Z) : Prop :=
  match since, cur with
  | None, inl tr =>
      w_state w = recording /\ w_timer w = Some tr /\ 0 < tr <= c
      /\ w_shown w <= c - w_start w - w_paused w - (c - tr) mod 1000
      /\ (1000 <= c - tr ->
          w_shown w = c - w_start w - w_paused w - (c - tr) mod 1000)
  | Some p, inr l =>
      w_state w = paused /\ w_timer w = None /\ w_pause w = p /\ 0 < p <= c
      /\ w_shown w <= p - w_start w - w_paused w
      /\ (1000 <= l -> p - w_start w - w_paused w - w_shown w < 1000)
  | _, _ => False
  end.

(** The ride of a saved session, from its actions: duration from the
    stopwatch, distance from the path through the accepted samples,
    signature and tiles from the visited cells. *)
Definition ride_of (latLngToCell : R -> R -> Z -> string) (selectedActivity : activity)
    (user : string) (t0 : Z) (acts : list (Z * action)) (te : Z) : Ride :=
  let s := snd (recorded latLngToCell selectedActivity t0 acts) in
  mkRide user selectedActivity t0 te
         (shown_at_end t0 acts te / 1000)
         (Zfloor (path_length (pointsRef s)))
         (sha256 (String.concat "," (cells s)))
         (List.length (cells s)).

(** *** Concrete runs

    h3-js is not part of the repository.  The concrete runs below use an
    indexer with two cells, one for the points of longitude 0 and one for
    the others; all they rely on is that two points a kilometre apart lie
    in different cells of resolution 10. *)
Definition two_cells (la lo : R) (res : Z) : string :=
  if Req_dec_T lo 0 then "8a754e64992ffff"%string else "8a754e64d6effff"%string.

Definition here : Position := mkPosition 0 0 15.
Definition there : Position := mkPosition 0 (1 / 100) 15.

(** Ten metres along the equator, in degrees of longitude, and [n]
    positions of accuracy 15 m ten metres apart, eastwards from
    longitude [x]. *)
Definition ten_metres : R := (1800 / (6371000 * PI))%R.

Fixpoint eastward (n : nat) (x : R) : list Position :=
  match n with
  | O => []
  | S n' => mkPosition 0 x 15 :: eastward n' (x + ten_metres)
  end.

(** Sessions of the concrete runs, all started at instant 1000:
    ten samples [here], every two seconds; [here] and then nine samples
    [there], two minutes later, and the same the other way round; ten
    samples and a pause of half a second after a second and a half; ten
    samples and three stretches of recording of 900 ms each, ended while
    paused. *)
Definition standing : list (Z * action) := spaced 2000 2000 (repeat here 10).

Definition out_trip : list (Z * action) :=
  (2000, Sample here) :: spaced 122000 2000 (repeat there 9).


Definition one_pause : list (Z * action) :=
  spaced 1100 100 (repeat here 10) ++ [(2500, PressPause); (3000, PressResume)].

Definition short_stretches : list (Z * action) :=
  spaced 1050 50 (repeat here 10)
  ++ [(1900, PressPause); (2000, PressResume); (2900, PressPause);
      (3000, PressResume); (3900, PressPause)].

(** *** What a run keeps true of the track *)

(** Two accepted samples in a row: when the second is dated after the
    first, the hop between them is within the ceiling of the activity. *)
Definition hop_ok (kind : activity) (a b : Point) : Prop :=
  ts a < ts b ->
  (Geo.haversine (lat a) (lng a) (lat b) (lng b)
   <= CONFIG.MAX_SPEED_MS kind * (IZR (ts b - ts a) / 1000))%R.

(** A relation that holds between any two points next to each other. *)
Definition adjacent (rel : Point -> Point -> Prop) (ps : list Point) : Prop :=
  forall l1 a b l2, ps = l1 ++ a :: b :: l2 -> rel a b.

(** Actions dated one after the other, each later than the one before;
    [c] is the instant of the start. *)
Fixpoint apart (c : Z) (acts : list (Z * action)) : Prop :=
  match acts with
  | [] => True
  | (t, _) :: rest => c < t /\ apart t rest
  end.

(** What the stopwatch keeps true at instant [c], from below: the display
    is not negative, the running timer was set after the start and the
    pauses booked so far, and so was the pause in course. *)
Definition watch_low (c : Z) (w : Watch) : Prop :=
  0 <= w_shown w
  /\ match w_timer w, w_state w with
     | Some tr, recording => 0 < tr <= c /\ w_start w + w_paused w <= tr
     | None, paused => 0 < w_pause w <= c /\ w_start w + w_paused w <= w_pause w
     | _, _ => False
     end.

(** The stopwatch is recording, or paused since [p]. *)
Definition pause_in_course (w : Watch) (since : option Z) : Prop :=
  match since with
  | None => w_state w = recording
  | Some p => w_state w = paused /\ w_pause w = p /\ 0 < p
  end.

(** The cell of an accepted sample. *)
Definition point_cell (latLngToCell : R -> R -> Z -> string) (p : Point) : string :=
  latLngToCell (lat p) (lng p) CONFIG.H3_RESOLUTION.

(** ** The oldest variant of the page: cells from the accepted points

    [stopRecording] builds the cells when the session stops, from the
    accepted points: [for (const point of finalPoints)] with the array
    [h3Cells] and the set [cellSet]. *)
Definition stop_cell_step (latLngToCell : R -> R -> Z -> string)
    (st : list string * list string) (point : Point) : list string * list string :=
  let cell := latLngToCell (lat point) (lng point) CONFIG.H3_RESOLUTION in
  if negb (set_has cell (snd st))
  then (fst st ++ [cell], set_add cell (snd st))
  else st.

Definition h3Cells (latLngToCell : R -> R -> Z -> string) (finalPoints : list Point)
    : list string :=
  fst (fold_left (stop_cell_step latLngToCell) finalPoints ([], [])).

(** ** XP

    The XP of a ride is computed twice: by [end], from the statistics of
    the session, to be awarded by [addXp]; and by [SummaryPage], from the
    stored ride, to be shown.  The multipliers 1.0, 1.2 and 1.5 are taken
    as the fractions they stand for. *)

(** [ACTIVITIES[id].xpMultiplier] *)
Definition xpMultiplier (a : activity) : Q :=
  match a with
  | cycling => 1
  | running => 12 # 10
  | hiking => 15 # 10
  end.

(** [activity?.xpMultiplier || 1], [activity] being
    [ACTIVITIES[selectedActivity]]; no activity is selected before the
    onboarding. *)
Definition mult_of (selectedActivity : option activity) : Q :=
  match selectedActivity with
  | Some a => xpMultiplier a
  | None => 1
  end.

(** What [addXp] reads of the profile: [profile.xp], [null] in a fresh
    row. *)
Record Profile : Type := mkProfile { xp : JS.elem }.

(** What [addXp] writes and announces once the backend has answered:
    the XP gained (first toast), the new total (the update) and the new
    level when it is above the old one (confetti and second toast). *)
Record XpGain : Type := mkXpGain {
  gained : Z;
  newXp : Z;
  levelUp : option nat
}.

(** [profile.xp || 0] *)
Definition xp_or_0 (p : Profile) : Z :=
  match JS.or (xp p) (Some 0) with
  | Some v => v
  | None => 0
  end.

Definition addXp (selectedActivity : option activity) (user : option string)
    (profile : option Profile) (amount : Z) : option XpGain :=
  match user, profile with
  | Some _, Some p =>
      let mult := mult_of selectedActivity in
      let gained := Qfloor (inject_Z amount * mult) in
      let oldLvl := getLevel (inject_Z (xp_or_0 p)) in
      let newXp := xp_or_0 p + gained in
      let newLvl := getLevel (inject_Z newXp) in
      Some (mkXpGain gained newXp (if (oldLvl <? newLvl)%nat then Some newLvl else None))
  | _, _ => None
  end.

(** [end]: the amount handed to [addXp] after a successful insert. *)
Definition end_xp (s : Session) : Z :=
  Zfloor (distance (stats s) / 100) + Zfloor (duration (stats s) / 60)
  + Z.of_nat (List.length (cells s)) * 2.

(** [SummaryPage]: [xp], and the amount on display,
    [Math.floor(xp * (activity?.xpMultiplier || 1))]. *)
Definition summary_xp (lastRide : option Ride) : Z :=
  match lastRide with
  | Some r => distance_m r / 100 + duration_sec r / 60 + Z.of_nat (tiles_touched r) * 2
  | None => 0
  end.

Definition summary_xp_shown (lastRide : option Ride) (selectedActivity : option activity)
    : Z :=
  Qfloor (inject_Z (summary_xp lastRide) * mult_of selectedActivity).

(** ** The streak

    [calcStreak] reads the start instants of the user's latest rides (at
    most 60, the latest first; [None] when the query fails) and counts the
    days in a row on which the user rode, back from today. *)

(** [new Set(...)] on numbers, and [.sort((a,b)=>b-a)]. *)
Definition day_add (d : Z) (s : list Z) : list Z :=
  if existsb (Z.eqb d) s then s else s ++ [d].

Fixpoint insert_desc (x : Z) (l : list Z) : list Z :=
  match l with
  | [] => [x]
  | y :: rest => if y <=? x then x :: l else y :: insert_desc x rest
  end.

Definition sort_desc (l : list Z) : list Z := fold_right insert_desc [] l.

(** [for (const rd of dates) { if (d.getTime()-rd <= 86400000) { s++;
    d = new Date(rd) } else break }] *)
Fixpoint streak_loop (s : nat) (d : Z) (dates : list Z) : nat :=
  match dates with
  | [] => s
  | rd :: rest => if d - rd <=? 86400000 then streak_loop (S s) rd rest else s
  end.

Section Streak.
(** [x.setHours(0,0,0,0); x.getTime()]: the last local midnight at an
    instant, in the time zone of the browser. *)
Variable startOfDay : Z -> Z.

Definition streak_dates (data : list Z) : list Z :=
  sort_desc (fold_left (fun acc d => day_add d acc) (map startOfDay data) []).

(** The value that [calcStreak] hands to [setStreak]. *)
Definition calcStreak (data : option (list Z)) (now : Z) : nat :=
  match data with
  | None | Some [] => 0%nat
  | Some rows => streak_loop 0 (startOfDay now) (streak_dates rows)
  end.
End Streak.

(** Midnight in a time zone without daylight saving, [offset] milliseconds
    east of Greenwich: every day lasts 24 hours. *)
Definition midnight (offset : Z) (t : Z) : Z := t - (t + offset) mod 86400000.

(** Rides at 00:30 today, twice the day before, once two days before and
    once four days before; now is 01:00 on day 10. *)
Definition five_rides : list Z :=
  [10 * 86400000 + 1800000; 9 * 86400000 + 70000000; 9 * 86400000 + 30000000;
   8 * 86400000 + 40000000; 6 * 86400000 + 50000000].

(** ** Durations on display

    [formatDuration] shows the duration of the stored ride on the summary
    page, [formatTrackTime] and [formatTime] the time of a track; the
    seconds are whole and not negative. *)

(** A whole number in a template literal, and [.toString()] of it. *)
Definition dec (n : N) : string :=
  DecimalString.NilEmpty.string_of_uint (N.to_uint n).

(** [.padStart(2,'0')] *)
Definition padStart2 (s : string) : string :=
  match String.length s with
  | 0%nat => "00"%string
  | 1%nat => String "0" s
  | _ => s
  end.

Definition formatDuration (sec : N) : string :=
  let h := (sec / 3600)%N in
  let m := ((sec mod 3600) / 60)%N in
  let s := (sec mod 60)%N in
  if (0 <? h)%N
  then (dec h ++ ":" ++ padStart2 (dec m) ++ ":" ++ padStart2 (dec s))%string
  else (dec m ++ ":" ++ padStart2 (dec s))%string.

Definition formatTrackTime (seconds : N) : string :=
  let mins := (seconds / 60)%N in
  let secs := (seconds mod 60)%N in
  (dec mins ++ ":" ++ padStart2 (dec secs))%string.

Definition formatTime (seconds : N) : string :=
  let mins := (seconds / 60)%N in
  let secs := (seconds mod 60)%N in
  (dec mins ++ ":" ++ padStart2 (dec secs))%string.

(** The fields under 60, and what holds of each pair of them: two
    characters, no colon, and different fields for different numbers. *)
Definition fields : list N := map N.of_nat (seq 0 60).

Definition no_colon (s : string) : bool :=
  negb (existsb (Ascii.eqb ":") (list_ascii_of_string s)).

Definition fields_ok : bool :=
  forallb (fun x =>
             (String.length (padStart2 (dec x)) =? 2)%nat
             && no_colon (padStart2 (dec x))
             && forallb (fun y =>
                           implb (String.eqb (padStart2 (dec x)) (padStart2 (dec y)))
                                 (x =? y)%N) fields) fields.

(** *** Positions away from the antipodes *)

(** The [a] of [haversine]: the square of half the chord between the two
    points, on the unit sphere. *)
Definition hav_a (lat1 lon1 lat2 lon2 : R) : R :=
  (sin (Geo.toRad (lat2 - lat1) / 2) ^ 2
   + cos (Geo.toRad lat1) * cos (Geo.toRad lat2)
     * sin (Geo.toRad (lon2 - lon1) / 2) ^ 2)%R.

(** Two positions less than a quarter of a great circle apart.  There
    [1 - a] is at least a half, out of the reach of rounding. *)
Definition nearby (p q : Position) : Prop :=
  (hav_a (latitude p) (longitude p) (latitude q) (longitude q) <= 1 / 2)%R.

(** A run whose sampled positions are all nearby one another. *)
Definition local_run (acts : list (Z * action)) : Prop :=
  forall t1 p1 t2 p2,
    In (t1, Sample p1) acts -> In (t2, Sample p2) acts -> nearby p1 p2.

(** *** Cell ids *)



(** Of the positions delivered, those that pass the accuracy gate all pass
    the speed gate: no sample is dropped for its speed. *)
Definition none_speeding (kind : activity) (tps : list (Z * Position)) : Prop :=
  all_pass kind None (filter (fun tp => accurate (snd tp)) tps).

(** A session with a detour that the speed gate drops: a sample [here], a
    sample [there] a second later, and nine more samples [here]. *)
Definition detour : list (Z * action) :=
  (2000, Sample here) :: (3000, Sample there) :: spaced 4000 2000 (repeat here 9).

(** ** The position callback in binary64

    The numbers of the callback as the runtime has them, IEEE 754 binary64
    with its [NaN].  [Math.sin], [Math.cos] and [Math.atan2] belong to the
    runtime and are parameters, like the indexer of h3-js; the arithmetic,
    the square root and the comparisons are the primitive ones, and
    [x**2] is [x * x].  The record [Session] holds what the callback reads
    and writes of the page. *)
Module B64.
Import PrimFloat.
Local Open Scope float_scope.

(** A difference of two [Date.now()] as a number. *)
Definition of_Z (z : Z) : float :=
  if (z <? 0)%Z then - of_uint63 (Uint63.of_Z (- z)) else of_uint63 (Uint63.of_Z z).

(** [Math.PI] *)
Definition PI : float := 0x1.921fb54442d18p+1.

Record Position : Type := mkPosition {
  latitude : float;
  longitude : float;
  accuracy : float
}.

Record Point : Type := mkPoint { lat : float; lng : float; ts : Z; acc : float }.

Record Stats : Type := mkStats {
  distance : float;
  duration : float;
  tiles : nat;
  speed : float
}.

Record Session : Type := mkSession {
  stats : Stats;
  gps : gps_status;
  cells : list string;
  pointsRef : list Point
}.

(** [CONFIG.MAX_SPEED_MS] *)
Definition MAX_SPEED_MS (a : activity) : float :=
  match a with
  | cycling => 18
  | running => 8
  | hiking => 4
  end.

Section Runtime.
Variables sin cos : float -> float.
Variable atan2 : float -> float -> float.
Variable latLngToCell : float -> float -> Z -> string.
Variable selectedActivity : activity.

Definition toRad (x : float) : float := x * PI / 180.

Definition hav_a (lat1 lon1 lat2 lon2 : float) : float :=
  let dLat := toRad (lat2 - lat1) in
  let dLon := toRad (lon2 - lon1) in
  sin (dLat / 2) * sin (dLat / 2)
  + cos (toRad lat1) * cos (toRad lat2) * (sin (dLon / 2) * sin (dLon / 2)).

Definition haversine (lat1 lon1 lat2 lon2 : float) : float :=
  let a := hav_a lat1 lon1 lat2 lon2 in
  6371000 * 2 * atan2 (sqrt a) (sqrt (1 - a)).

(** The [watchPosition] callback; 3.6 is the binary64 number nearest to
    it. *)
Definition onPosition (s : Session) (pos : Position) (now : Z) : Session :=
  let pt := mkPoint (latitude pos) (longitude pos) now (accuracy pos) in
  let g := if acc pt <=? 20 then good else if acc pt <=? 50 then okay else poor in
  if 50 <? acc pt then mkSession (stats s) g (cells s) (pointsRef s) else
  let cell := latLngToCell (lat pt) (lng pt) CONFIG.H3_RESOLUTION in
  let n := set_add cell (cells s) in
  let st := mkStats (distance (stats s)) (duration (stats s)) (List.length n)
                    (speed (stats s)) in
  let prev := pointsRef s in
  match nth_error prev (List.length prev - 1) with
  | Some last =>
      let dist := haversine (lat last) (lng last) (lat pt) (lng pt) in
      let dt := of_Z (ts pt - ts last) / 1000 in
      let spd := if 0 <? dt then dist / dt else 0 in
      if MAX_SPEED_MS selectedActivity <? spd then mkSession st g n prev else
      mkSession (mkStats (distance st + dist) (duration st) (tiles st)
                         (spd * 0x1.ccccccccccccdp+1))
                g n (prev ++ [pt])
  | None => mkSession st g n (prev ++ [pt])
  end.
End Runtime.

(** The page as [start] leaves it. *)
Definition started : Session := mkSession (mkStats 0 0 0 0) waiting [] [].

(** The two samples of the run below, 0.01215 degrees north and south of
    the equator on opposite meridians, with an accuracy of 15 m. *)
Definition north : Position := mkPosition 0x1.8e219652bd3c3p-7 0 15.
Definition south : Position := mkPosition (-0x1.8e219652bd3c3p-7) 180 15.

(** The values that [Math.sin], [Math.cos] and [Math.atan2] take at the
    arguments of that run, correctly rounded: the sine of a quarter turn
    is 1, the other sine is that of half the difference of latitude, the
    cosines are those of the two latitudes, and the arc tangent of a
    [NaN] is [NaN]. *)
Definition sin_at_run (x : float) : float :=
  if x =? 0x1.921fb54442d18p+0 then 1 else -0x1.bcb781392c696p-13.

Definition cos_at_run (x : float) : float := 0x1.ffffff3edcbcfp-1.

Definition atan2_at_run (y x : float) : float :=
  if x =? x then (if y =? y then 0 else nan) else nan.
End B64.

(** * Theorems *)

Example sha256_abc :
  sha256 "abc" = "ba7816bf8f01cfea414140de5dae2223b00361a396177a9cb410ff61f20015ad"%string.
Proof. vm_compute. reflexivity. Qed.

Example sha256_empty :
  sha256 "" = "e3b0c44298fc1c149afbf4c8996fb92427ae41e4649b934ca495991b7852b855"%string.
Proof. vm_compute. reflexivity. Qed.

Example sha256_two_blocks :
  sha256 "abcdbcdecdefdefgefghfghighijhijkijkljklmklmnlmnomnopnopq"
  = "248d6a61d20638b8e5c026930c3e6039a33ce45964ff2167f6ecedd419db06c1"%string.
Proof. vm_compute. reflexivity. Qed.

Lemma recentCount_window (rides : list Ride) (lr : Ride) (now : Z) :
  recentCount rides (Some lr) now = window_count (route_signature lr) now rides.
Proof.
  unfold recentCount.
  induction rides as [|r rest IH]; [reflexivity|].
  cbn [filter window_count].
  destruct (counts_toward_dec (route_signature lr) now r) as [[Hfp Hage]|Hn].
  - apply String.eqb_eq in Hfp. rewrite Hfp.
    unfold age_ms, CONFIG.UNLOCK_WINDOW_DAYS, day_ms in Hage.
    replace (now - 7 * 86400000 <=? started_at r) with true
      by (symmetry; apply Z.leb_le; lia).
    cbn [andb List.length]. now rewrite IH.
  - destruct (String.eqb (route_signature r) (route_signature lr)) eqn:E;
      cbn [andb]; [|exact IH].
    apply String.eqb_eq in E.
    destruct (now - 7 * 86400000 <=? started_at r) eqn:L; [|exact IH].
    exfalso. apply Hn. split; [exact E|].
    apply Z.leb_le in L.
    unfold age_ms, CONFIG.UNLOCK_WINDOW_DAYS, day_ms. lia.
Qed.

Lemma checkRouteProgress_window (table : list Ride) (userId fp : string) (now : Z) :
  checkRouteProgress table userId fp now
  = window_count fp now (filter (fun r => String.eqb (user_id r) userId) table).
Proof.
  unfold checkRouteProgress.
  induction table as [|r rest IH]; [reflexivity|].
  cbn [filter]. destruct (String.eqb (user_id r) userId); cbn [andb]; [|exact IH].
  cbn [window_count].
  destruct (counts_toward_dec fp now r) as [[Hfp Hage]|Hn].
  - apply String.eqb_eq in Hfp. rewrite Hfp.
    unfold age_ms, CONFIG.UNLOCK_WINDOW_DAYS, day_ms in Hage.
    replace (now - 7 * 24 * 60 * 60 * 1000 <=? started_at r) with true
      by (symmetry; apply Z.leb_le; lia).
    cbn [andb List.length]. now rewrite IH.
  - destruct (String.eqb (route_signature r) fp) eqn:E; cbn [andb]; [|exact IH].
    apply String.eqb_eq in E.
    destruct (now - 7 * 24 * 60 * 60 * 1000 <=? started_at r) eqn:L; [|exact IH].
    exfalso. apply Hn. split; [exact E|].
    apply Z.leb_le in L.
    unfold age_ms, CONFIG.UNLOCK_WINDOW_DAYS, day_ms. lia.
Qed.

(** C1. For every ride history [hist] of the owner and newly saved ride
    [r], the summary page reports unlocked exactly when at least
    [UNLOCK_THRESHOLD] (3) of the owner's rides, the new one included, have
    [r]'s fingerprint and started at most 7 days before [now]; the
    backend query [checkRouteProgress] takes the same count over the
    owner's rows.  Rides of days 0, 3 and 6 with one fingerprint give count
    3 and unlocked at day 6, and count 2 and locked at day 8. *)
Theorem unlock_evaluator_spec :
  (forall (hist : list Ride) (r : Ride) (now : Z),
      unlocked (r :: hist) (Some r) now = true
      <-> (CONFIG.UNLOCK_THRESHOLD
           <= window_count (route_signature r) now (r :: hist))%nat)
  /\ (forall (table : list Ride) (userId fp : string) (now : Z),
      checkRouteProgress table userId fp now
      = window_count fp now (filter (fun r => String.eqb (user_id r) userId) table))
  /\ (let rs := [ride_on_day 6; ride_on_day 3; ride_on_day 0] in
      recentCount rs (Some (ride_on_day 6)) (6 * day_ms) = 3%nat
      /\ unlocked rs (Some (ride_on_day 6)) (6 * day_ms) = true
      /\ recentCount rs (Some (ride_on_day 6)) (8 * day_ms) = 2%nat
      /\ unlocked rs (Some (ride_on_day 6)) (8 * day_ms) = false).
Proof.
  split; [|split].
  - intros hist r now. unfold unlocked.
    rewrite recentCount_window. unfold CONFIG.UNLOCK_THRESHOLD.
    apply Nat.leb_le.
  - exact checkRouteProgress_window.
  - repeat split; vm_compute; reflexivity.
Qed.

(** ** XP progress *)

Example getXpProgress_175 : getXpProgress 175 = JS.Fin (75 / 150 * 100).
Proof. reflexivity. Qed.

Example getXpProgress_12000 : getXpProgress 12000 = JS.Fin 100.
Proof. reflexivity. Qed.

(** C10, on the code: at the top threshold the level is 11, [curr] and
    [next] are both 10000, and the progress is [0 / 0 * 100], which
    [Math.min] leaves as it is: not a number, where a value between 0 and
    100 is expected.  [getXpProgress_percentage] below covers every other
    non-negative [xp]. *)
Theorem getXpProgress_at_top_threshold : getXpProgress 10000 = JS.NaN.
Proof. reflexivity. Qed.

Lemma progress_nonneg (c n xp : Q) :
  (c <= xp -> c < n -> 0 <= (xp - c) / (n - c) * 100)%Q.
Proof.
  intros Hc Hn.
  apply Qmult_le_0_compat; [|discriminate].
  apply Qle_shift_div_l.
  - apply Qlt_minus_iff in Hn. exact Hn.
  - rewrite Qmult_0_l. apply Qle_minus_iff in Hc. exact Hc.
Qed.

Lemma min_100_percentage (v : Q) :
  (0 <= v)%Q -> percentage (JS.min (JS.Fin v) (JS.Fin 100)).
Proof.
  intros Hv. unfold JS.min.
  destruct (Qle_bool v 100) eqn:E; simpl.
  - apply Qle_bool_iff in E. split; assumption.
  - split; discriminate.
Qed.

(** Below and above the top threshold the result is a percentage. *)
Lemma getXpProgress_percentage (xp : Q) :
  (0 <= xp)%Q -> ~ (xp == 10000)%Q -> percentage (getXpProgress xp).
Proof.
  intros H0 Hne.
  unfold getXpProgress, getLevel. cbn [List.length LEVEL_XP Nat.sub getLevel_from nth].
  repeat match goal with
  | |- context [Qle_bool (inject_Z ?c) xp] =>
      let E := fresh "E" in
      destruct (Qle_bool (inject_Z c) xp) eqn:E;
      [ apply Qle_bool_iff in E | ]
  end.
  all: try (cbn [nth_error Nat.sub LEVEL_XP JS.or Z.eqb JS.of_elem JS.sub JS.div];
            match goal with
            | |- context [Qeq_bool ?d 0] =>
                replace (Qeq_bool d 0) with false by reflexivity
            end;
            cbn [JS.mul]; apply min_100_percentage;
            apply progress_nonneg; [assumption | reflexivity]).
  - cbn [nth_error Nat.sub LEVEL_XP JS.or Z.eqb JS.of_elem JS.sub JS.div List.length].
    replace (Qeq_bool (inject_Z 10000 - inject_Z 10000) 0) with true by reflexivity.
    assert (Hlt : (0 < xp - inject_Z 10000)%Q).
    { apply Qle_lteq in E. destruct E as [E|E]; [|exfalso; apply Hne; symmetry; exact E].
      unfold Qminus. rewrite <- (Qplus_opp_r (inject_Z 10000)).
      apply Qplus_lt_l. exact E. }
    assert (Hc : (0 ?= xp - inject_Z 10000)%Q = Lt) by (apply Qlt_alt; exact Hlt).
    rewrite Hc. simpl. split; discriminate.
Qed.

(** ** Geodesy *)

Section GeoFacts.
Local Open Scope R_scope.

Lemma atan_nonneg (x : R) : 0 <= x -> 0 <= atan x.
Proof.
  intros [Hx|Hx].
  - left. rewrite <- atan_0. now apply atan_increasing.
  - subst x. rewrite atan_0. apply Rle_refl.
Qed.

Lemma atan2_nonneg (y x : R) : 0 <= y -> 0 <= x -> 0 <= Geo.atan2 y x.
Proof.
  intros Hy Hx. unfold Geo.atan2. pose proof PI_RGT_0 as Hpi.
  destruct (Rlt_dec 0 x) as [Hpos|Hnpos].
  - apply atan_nonneg. apply Rle_mult_inv_pos; assumption.
  - destruct (Rlt_dec x 0) as [Hneg|_]; [lra|].
    destruct (Rlt_dec 0 y); [lra|].
    destruct (Rlt_dec y 0); lra.
Qed.

(** The angle of a point of the unit circle in the first quadrant. *)
Lemma atan2_sin_cos (x : R) : 0 <= x <= PI / 2 -> Geo.atan2 (sin x) (cos x) = x.
Proof.
  intros [H0 H1]. unfold Geo.atan2. pose proof PI_RGT_0 as Hpi.
  destruct H1 as [H1|H1].
  - assert (Hc : 0 < cos x) by (apply cos_gt_0; lra).
    destruct (Rlt_dec 0 (cos x)) as [_|Hn]; [|contradiction].
    change (sin x / cos x) with (tan x). apply atan_tan. lra.
  - subst x. rewrite cos_PI2, sin_PI2.
    destruct (Rlt_dec 0 0); [lra|].
    destruct (Rlt_dec 0 1); lra.
Qed.

Lemma haversine_nonneg (lat1 lon1 lat2 lon2 : R) :
  0 <= Geo.haversine lat1 lon1 lat2 lon2.
Proof.
  unfold Geo.haversine. cbv zeta.
  apply Rmult_le_pos; [lra|].
  apply atan2_nonneg; apply sqrt_pos.
Qed.

(** Along the equator, eastwards, the distance is the arc. *)
Lemma haversine_equator (lon1 lon2 : R) :
  0 <= lon2 - lon1 <= 180 ->
  Geo.haversine 0 lon1 0 lon2 = 6371000 * ((lon2 - lon1) * PI / 180).
Proof.
  intros Hd. unfold Geo.haversine, Geo.toRad. cbv zeta.
  pose proof PI_RGT_0 as Hpi.
  set (x := (lon2 - lon1) * PI / 180 / 2).
  assert (Hx : 0 <= x <= PI / 2).
  { unfold x. split.
    - apply Rmult_le_pos; [|lra]. apply Rmult_le_pos; [|lra].
      apply Rmult_le_pos; lra.
    - assert ((lon2 - lon1) * PI <= 180 * PI) by (apply Rmult_le_compat_r; lra).
      lra. }
  replace ((0 - 0) * PI / 180 / 2) with 0 by lra.
  replace (0 * PI / 180) with 0 by lra.
  rewrite sin_0, cos_0.
  replace (0 ^ 2 + 1 * 1 * sin x ^ 2) with (sin x ^ 2) by ring.
  replace (1 - sin x ^ 2) with (cos x ^ 2)
    by (pose proof (sin2_cos2 x) as E; unfold Rsqr in E; lra).
  rewrite sqrt_pow2 by (apply sin_ge_0; lra).
  rewrite sqrt_pow2 by (apply cos_ge_0; lra).
  rewrite atan2_sin_cos by exact Hx.
  unfold x. lra.
Qed.

Lemma haversine_same (la lo : R) : Geo.haversine la lo la lo = 0.
Proof.
  unfold Geo.haversine, Geo.toRad. cbv zeta.
  replace ((la - la) * PI / 180 / 2) with 0 by lra.
  replace ((lo - lo) * PI / 180 / 2) with 0 by lra.
  rewrite sin_0.
  replace (0 ^ 2 + cos (la * PI / 180) * cos (la * PI / 180) * 0 ^ 2) with 0 by ring.
  rewrite Rminus_0_r, sqrt_0, sqrt_1.
  unfold Geo.atan2.
  destruct (Rlt_dec 0 1); [|lra].
  replace (0 / 1) with 0 by lra. rewrite atan_0. ring.
Qed.
End GeoFacts.

(** ** The position callback *)

Section PositionFacts.
Variable indexer : R -> R -> Z -> string.
Variable kind : activity.

Lemma last_point_app (ps : list Point) (p : Point) : last_point (ps ++ [p]) = Some p.
Proof.
  unfold last_point. rewrite length_app, Nat.add_comm. cbn [List.length Nat.add Nat.sub].
  rewrite Nat.sub_0_r, nth_error_app2, Nat.sub_diag by apply Nat.le_refl. reflexivity.
Qed.

Lemma last_point_nil_iff (ps : list Point) : last_point ps = None <-> ps = [].
Proof.
  split; [|intros ->; reflexivity].
  destruct ps as [|p ps] using rev_ind; [reflexivity|].
  rewrite last_point_app. discriminate.
Qed.

Lemma onPosition_low_accuracy (s : Session) (pos : Position) (now : Z) :
  (accuracy pos > CONFIG.MIN_ACCURACY_METERS)%R ->
  onPosition indexer kind s pos now = with_gps s poor.
Proof.
  unfold CONFIG.MIN_ACCURACY_METERS. intros Hacc.
  unfold onPosition. cbn [acc].
  destruct (Rle_dec (accuracy pos) 20); [lra|].
  destruct (Rle_dec (accuracy pos) 50); [lra|].
  destruct (Rgt_dec (accuracy pos) CONFIG.MIN_ACCURACY_METERS) as [_|Hn];
    [reflexivity | unfold CONFIG.MIN_ACCURACY_METERS in Hn; lra].
Qed.

(** The three ways out of the callback once the accuracy gate is passed. *)
Lemma onPosition_cases (s : Session) (pos : Position) (now : Z) :
  (accuracy pos <= CONFIG.MIN_ACCURACY_METERS)%R ->
  let pt := mkPoint (latitude pos) (longitude pos) now (accuracy pos) in
  let n := set_add (cell_of indexer pos) (cells s) in
  let s' := onPosition indexer kind s pos now in
  cells s' = n
  /\ tiles (stats s') = List.length n
  /\ duration (stats s') = duration (stats s)
  /\ state s' = state s /\ startRef s' = startRef s /\ pauseRef s' = pauseRef s
  /\ pausedRef s' = pausedRef s /\ watching s' = watching s
  /\ timerRef s' = timerRef s
  /\ match last_point (pointsRef s) with
     | None =>
         pointsRef s' = pointsRef s ++ [pt]
         /\ distance (stats s') = distance (stats s)
         /\ speed (stats s') = speed (stats s)
     | Some last =>
         if Rgt_dec (implied_speed last pos now) (CONFIG.MAX_SPEED_MS kind)
         then pointsRef s' = pointsRef s
              /\ distance (stats s') = distance (stats s)
              /\ speed (stats s') = speed (stats s)
         else pointsRef s' = pointsRef s ++ [pt]
              /\ distance (stats s')
                 = (distance (stats s)
                    + Geo.haversine (lat last) (lng last) (latitude pos) (longitude pos))%R
              /\ speed (stats s') = (implied_speed last pos now * 3.6)%R
     end.
Proof.
  intros Hacc. cbv zeta. unfold onPosition, implied_speed, cell_of. cbn [acc lat lng ts].
  destruct (Rgt_dec (accuracy pos) CONFIG.MIN_ACCURACY_METERS) as [Hgt|_]; [lra|].
  cbn [with_gps with_cells with_stats with_points pointsRef cells stats distance
       duration tiles speed].
  destruct (last_point (pointsRef s)) as [last|].
  - destruct (Rgt_dec _ (CONFIG.MAX_SPEED_MS kind)); cbn; repeat split; reflexivity.
  - cbn; repeat split; reflexivity.
Qed.
End PositionFacts.

Lemma set_add_extends (c : string) (s : list string) :
  exists added, set_add c s = s ++ added.
Proof.
  unfold set_add. destruct (set_has c s).
  - exists []. now rewrite app_nil_r.
  - now exists [c].
Qed.

(** C4. A sample whose accuracy exceeds [MIN_ACCURACY_METERS] (50 m) is
    dropped: the cumulative distance, the accepted samples and the visited
    cells stay as they were; only the GPS indicator of the page changes. *)
Theorem inaccurate_sample_changes_nothing
    (latLngToCell : R -> R -> Z -> string) (selectedActivity : activity)
    (s : Session) (pos : Position) (now : Z) :
  (accuracy pos > 50)%R ->
  let s' := onPosition latLngToCell selectedActivity s pos now in
  distance (stats s') = distance (stats s)
  /\ pointsRef s' = pointsRef s
  /\ cells s' = cells s
  /\ s' = with_gps s poor.
Proof.
  intros Hacc. cbv zeta.
  rewrite onPosition_low_accuracy by exact Hacc.
  repeat split; reflexivity.
Qed.

Lemma inaccurate_sample_changes_nothing_witness :
  let s := start initial 1000 in
  let s' := onPosition two_cells cycling s (mkPosition 0 0 60) 2000 in
  distance (stats s') = distance (stats s)
  /\ pointsRef s' = pointsRef s
  /\ cells s' = cells s
  /\ s' = with_gps s poor.
Proof.
  apply (inaccurate_sample_changes_nothing
           two_cells cycling (start initial 1000) (mkPosition 0 0 60) 2000).
  simpl. lra.
Defined.

(** What the callback does with a sample that passes the accuracy gate and
    implies a speed above the ceiling of the activity: the sample and its
    distance are dropped, and its cell has been put in the set. *)
Lemma speeding_sample_effect
    (latLngToCell : R -> R -> Z -> string) (selectedActivity : activity)
    (s : Session) (pos : Position) (now : Z) (last : Point) :
  last_point (pointsRef s) = Some last ->
  (accuracy pos <= CONFIG.MIN_ACCURACY_METERS)%R ->
  (implied_speed last pos now > CONFIG.MAX_SPEED_MS selectedActivity)%R ->
  let s' := onPosition latLngToCell selectedActivity s pos now in
  pointsRef s' = pointsRef s
  /\ distance (stats s') = distance (stats s)
  /\ cells s' = set_add (cell_of latLngToCell pos) (cells s).
Proof.
  intros Hlast Hacc Hspd. cbv zeta.
  destruct (onPosition_cases latLngToCell selectedActivity s pos now Hacc)
    as (Hc & _ & _ & _ & _ & _ & _ & _ & _ & Hp).
  rewrite Hlast in Hp.
  destruct (Rgt_dec (implied_speed last pos now) (CONFIG.MAX_SPEED_MS selectedActivity))
    as [_|Hn]; [|contradiction].
  destruct Hp as (Hps & Hd & _). repeat split; assumption.
Qed.

Lemma cell_of_here : cell_of two_cells here = "8a754e64992ffff"%string.
Proof.
  unfold cell_of, two_cells, here. cbn [longitude].
  destruct (Req_dec_T 0 0) as [_|Hn]; [reflexivity | exfalso; apply Hn; reflexivity].
Qed.

Lemma cell_of_there : cell_of two_cells there = "8a754e64d6effff"%string.
Proof.
  unfold cell_of, two_cells, there. cbn [longitude].
  destruct (Req_dec_T (1 / 100) 0) as [E|_]; [exfalso; lra | reflexivity].
Qed.

Lemma PI_gt_3 : (3 < PI)%R.
Proof. pose proof PI2_3_2. lra. Qed.

(** From [here] to [there] is a little more than a kilometre. *)
Lemma here_to_there :
  Geo.haversine 0 0 0 (1 / 100) = (6371000 * (1 / 100 * PI / 180))%R.
Proof.
  rewrite haversine_equator by lra.
  replace (1 / 100 - 0)%R with (1 / 100)%R by lra. reflexivity.
Qed.

Lemma first_sample_here (t0 t : Z) :
  let s := onPosition two_cells cycling (start initial t0) here t in
  pointsRef s = [mkPoint 0 0 t 15]
  /\ cells s = ["8a754e64992ffff"%string]
  /\ distance (stats s) = 0%R.
Proof.
  cbv zeta.
  assert (Hacc : (accuracy here <= CONFIG.MIN_ACCURACY_METERS)%R)
    by (unfold CONFIG.MIN_ACCURACY_METERS; cbn; lra).
  destruct (onPosition_cases two_cells cycling (start initial t0) here t Hacc)
    as (Hc & _ & _ & _ & _ & _ & _ & _ & _ & Hp).
  cbn in Hp. destruct Hp as (Hps & Hd & _).
  rewrite Hps, Hc, Hd, cell_of_here. repeat split; reflexivity.
Qed.

(** C3, on the code: after a sample accepted [here], a sample [there] one
    second later passes the accuracy gate and implies more than a
    kilometre per second.  The callback drops it, distance and accepted
    samples stay as they were, and the visited cells have grown by the
    cell of the dropped sample. *)
Theorem speeding_sample_still_marks_its_cell :
  let s := onPosition two_cells cycling (start initial 1000) here 2000 in
  let s' := onPosition two_cells cycling s there 3000 in
  last_point (pointsRef s) = Some (mkPoint 0 0 2000 15)
  /\ (accuracy there <= CONFIG.MIN_ACCURACY_METERS)%R
  /\ (implied_speed (mkPoint 0 0 2000 15) there 3000 > CONFIG.MAX_SPEED_MS cycling)%R
  /\ pointsRef s' = pointsRef s
  /\ distance (stats s') = distance (stats s)
  /\ cells s = ["8a754e64992ffff"%string]
  /\ cells s' = ["8a754e64992ffff"%string; "8a754e64d6effff"%string].
Proof.
  cbv zeta.
  destruct (first_sample_here 1000 2000) as (Hps & Hc & _).
  assert (Hlast : last_point
                    (pointsRef (onPosition two_cells cycling (start initial 1000) here 2000))
                  = Some (mkPoint 0 0 2000 15)) by (rewrite Hps; reflexivity).
  assert (Hacc : (accuracy there <= CONFIG.MIN_ACCURACY_METERS)%R)
    by (unfold CONFIG.MIN_ACCURACY_METERS; cbn; lra).
  assert (Hspd : (implied_speed (mkPoint 0 0 2000 15) there 3000
                  > CONFIG.MAX_SPEED_MS cycling)%R).
  { unfold implied_speed. cbn [lat lng ts latitude longitude there CONFIG.MAX_SPEED_MS].
    rewrite here_to_there.
    replace (IZR (3000 - 2000) / 1000)%R with 1%R by (cbn; lra).
    destruct (Rgt_dec 1 0); [|lra].
    pose proof PI_gt_3. lra. }
  destruct (speeding_sample_effect two_cells cycling _ there 3000 _ Hlast Hacc Hspd)
    as (Hps' & Hd' & Hc').
  repeat split; try assumption.
  rewrite Hc', Hc, cell_of_there. reflexivity.
Qed.

(** ** Ending a session *)

Ltac no_insert :=
  repeat match goal with
         | H : exists _, _ |- _ => destruct H
         | H : In _ _ |- _ => cbn in H; decompose [or] H; clear H
         | H : _ /\ _ |- _ => destruct H
         end;
  try discriminate; try contradiction; try lia.

(** C5. [end] hands a ride to the backend exactly when it is asked to
    save and at least [MIN_RIDE_POINTS] (10) samples were accepted; when
    it discards, or has fewer samples, it hands over nothing and only
    tells the user and goes back to the home page. *)
Theorem insert_iff_save_and_enough_points
    (selectedActivity : activity) (user : string)
    (s : Session) (save : bool) (now : Z) :
  let effs := snd (end_ selectedActivity user s save now) in
  ((exists ride, In (Insert ride) effs)
   <-> save = true /\ (10 <= List.length (pointsRef s))%nat)
  /\ (save = false -> effs = [Toast "Discarded"; SetCurrentPage home])
  /\ ((List.length (pointsRef s) < 10)%nat ->
      In (SetCurrentPage home) effs /\ forall ride, ~ In (Insert ride) effs).
Proof.
  cbv zeta. unfold end_. cbn [pointsRef]. unfold CONFIG.MIN_RIDE_POINTS.
  destruct save; cbn [negb];
    [destruct (Nat.ltb_spec (List.length (pointsRef s)) 10) as [Hlt|Hge]|];
    cbn [snd]; (split; [split|split]); intros.
  all: try solve [no_insert | split; [reflexivity | assumption] | reflexivity].
  all: try solve [split; [cbn; tauto | intros ride Hin; no_insert]].
  eexists. left. reflexivity.
Qed.

(** ** The track of a session: accepted samples, cells, distance *)

Section TrackFacts.
Variable indexer : R -> R -> Z -> string.
Variable kind : activity.

Lemma onPosition_track (s1 s2 : Session) (pos : Position) (t : Z) :
  track s1 = track s2 ->
  track (onPosition indexer kind s1 pos t) = track (onPosition indexer kind s2 pos t).
Proof.
  unfold track. intros E. injection E as Ep Ec Ed.
  destruct (Rgt_dec (accuracy pos) CONFIG.MIN_ACCURACY_METERS) as [Hgt|Hle].
  - rewrite !onPosition_low_accuracy by exact Hgt. cbn. congruence.
  - apply Rnot_gt_le in Hle.
    destruct (onPosition_cases indexer kind s1 pos t Hle)
      as (Hc1 & _ & _ & _ & _ & _ & _ & _ & _ & Hp1).
    destruct (onPosition_cases indexer kind s2 pos t Hle)
      as (Hc2 & _ & _ & _ & _ & _ & _ & _ & _ & Hp2).
    rewrite Hc1, Hc2, Ec. rewrite Ep, Ed in Hp1.
    destruct (last_point (pointsRef s2)) as [last|].
    + destruct (Rgt_dec (implied_speed last pos t) (CONFIG.MAX_SPEED_MS kind));
        destruct Hp1 as (-> & -> & _); destruct Hp2 as (-> & -> & _); reflexivity.
    + destruct Hp1 as (-> & -> & _); destruct Hp2 as (-> & -> & _); reflexivity.
Qed.

Lemma feed_track (tps : list (Z * Position)) (s1 s2 : Session) :
  track s1 = track s2 ->
  track (feed indexer kind s1 tps) = track (feed indexer kind s2 tps).
Proof.
  revert s1 s2. induction tps as [|tp tps IH]; intros s1 s2 E; [exact E|].
  cbn [feed fold_left]. apply IH. now apply onPosition_track.
Qed.

Lemma onTick_track (s : Session) (t : Z) : track (onTick s t) = track s.
Proof. reflexivity. Qed.

Lemma advance_track (s : Session) (lo hi : Z) : track (advance s lo hi) = track s.
Proof.
  unfold advance. destruct (timerRef s) as [t0|]; [|reflexivity].
  generalize (due_ticks t0 lo hi) as ts. intros ts. revert s.
  induction ts as [|t ts IH]; intros s; [reflexivity|].
  cbn [fold_left]. rewrite IH. apply onTick_track.
Qed.

Lemma onTick_buttons (s : Session) (t : Z) :
  state (onTick s t) = state s /\ watching (onTick s t) = watching s.
Proof. split; reflexivity. Qed.

Lemma advance_buttons (s : Session) (lo hi : Z) :
  state (advance s lo hi) = state s /\ watching (advance s lo hi) = watching s.
Proof.
  unfold advance. destruct (timerRef s) as [t0|]; [|split; reflexivity].
  generalize (due_ticks t0 lo hi) as ts. intros ts. revert s.
  induction ts as [|t ts IH]; intros s; [split; reflexivity|].
  cbn [fold_left]. destruct (IH (onTick s t)) as [-> ->]. split; reflexivity.
Qed.

Lemma onPosition_buttons (s : Session) (pos : Position) (t : Z) :
  state (onPosition indexer kind s pos t) = state s
  /\ watching (onPosition indexer kind s pos t) = watching s.
Proof.
  destruct (Rgt_dec (accuracy pos) CONFIG.MIN_ACCURACY_METERS) as [Hgt|Hle].
  - rewrite onPosition_low_accuracy by exact Hgt. split; reflexivity.
  - apply Rnot_gt_le in Hle.
    destruct (onPosition_cases indexer kind s pos t Hle)
      as (_ & _ & _ & Hs & _ & _ & _ & Hw & _). split; assumption.
Qed.

(** The track of the page after a run of actions is the track of the
    positions delivered while recording, fed to the callback. *)
Lemma react_track (acts : list (Z * action)) (c : Z) (s s0 : Session) (rec : bool) :
  buttons rec s ->
  track s = track s0 ->
  track (snd (fold_left (react indexer kind) acts (c, s)))
  = track (feed indexer kind s0 (delivered rec acts)).
Proof.
  revert c s s0 rec.
  induction acts as [|[t a] acts IH]; intros c s s0 rec Hb E; [exact E|].
  cbn [fold_left]. unfold react at 2. cbn [fst snd].
  destruct (advance_buttons s c t) as [Hst Hw].
  pose proof (advance_track s c t) as Ht.
  destruct a as [pos| |]; cbn [delivered].
  - rewrite Hw. destruct rec; cbn [buttons] in Hb; destruct Hb as [Hs Hwa]; rewrite Hwa.
    + cbn [feed fold_left]. apply IH.
      * cbn [buttons]. destruct (onPosition_buttons (advance s c t) pos t) as [-> ->].
        rewrite Hst, Hw. split; assumption.
      * apply onPosition_track. now rewrite Ht.
    + apply IH; [cbn [buttons]; rewrite Hst, Hw; split; assumption | now rewrite Ht].
  - rewrite Hst. destruct rec; cbn [buttons] in Hb; destruct Hb as [Hs Hwa]; rewrite Hs.
    + apply IH; [cbn; split; reflexivity | exact (eq_trans Ht E)].
    + apply IH; [cbn [buttons]; rewrite Hst, Hw; split; assumption | now rewrite Ht].
  - rewrite Hst. destruct rec; cbn [buttons] in Hb; destruct Hb as [Hs Hwa]; rewrite Hs.
    + apply IH; [cbn [buttons]; rewrite Hst, Hw; split; assumption | now rewrite Ht].
    + apply IH; [cbn; split; reflexivity | exact (eq_trans Ht E)].
Qed.

Lemma recorded_track (t0 : Z) (acts : list (Z * action)) :
  track (snd (recorded indexer kind t0 acts))
  = track (feed indexer kind (start initial t0) (delivered true acts)).
Proof. unfold recorded. apply react_track; [split; reflexivity | reflexivity]. Qed.
End TrackFacts.

(** ** What a run of positions leaves in the session *)

Lemma fold_set_add_spec (l acc : list string) :
  NoDup acc ->
  NoDup (fold_left (fun a c => set_add c a) l acc)
  /\ forall c, In c (fold_left (fun a c => set_add c a) l acc) <-> In c acc \/ In c l.
Proof.
  revert acc. induction l as [|x l IH]; intros acc Hnd; cbn [fold_left].
  - split; [exact Hnd | intros c; cbn; tauto].
  - assert (Hadd : NoDup (set_add x acc)
                   /\ forall c, In c (set_add x acc) <-> In c acc \/ c = x).
    { unfold set_add, set_has. destruct (existsb (String.eqb x) acc) eqn:E.
      - split; [exact Hnd|]. intros c. split; [tauto|].
        intros [H| ->]; [exact H|].
        apply existsb_exists in E. destruct E as [y [Hy Hxy]].
        apply String.eqb_eq in Hxy. now subst y.
      - split.
        + apply NoDup_app; [exact Hnd | repeat constructor; intros [] |].
          intros c Hc [Hx|[]]. subst c.
          assert (existsb (String.eqb x) acc = true); [|congruence].
          apply existsb_exists. exists x. split; [exact Hc | apply String.eqb_refl].
        + intros c. rewrite in_app_iff. cbn. intuition congruence. }
    destruct Hadd as [Hnd' Hin']. destruct (IH _ Hnd') as [IH1 IH2].
    split; [exact IH1|]. intros c. rewrite IH2, Hin'. cbn. intuition congruence.
Qed.

Lemma distinct_spec (l : list string) :
  NoDup (distinct l) /\ forall c, In c (distinct l) <-> In c l.
Proof.
  destruct (fold_set_add_spec l [] (NoDup_nil _)) as [H1 H2].
  split; [exact H1|]. intros c. unfold distinct. rewrite H2. cbn. tauto.
Qed.

Lemma path_from_app (ps : list Point) (d : R) (l p : Point) :
  path_from d l (ps ++ [p])
  = (path_from d l ps
     + match last_point (l :: ps) with
       | Some q => Geo.haversine (lat q) (lng q) (lat p) (lng p)
       | None => 0
       end)%R.
Proof.
  revert d l. induction ps as [|x ps IH]; intros d l.
  - reflexivity.
  - cbn [app path_from]. rewrite IH.
    change (l :: x :: ps) with ([l] ++ x :: ps).
    replace (last_point ([l] ++ x :: ps)) with (last_point (x :: ps)); [reflexivity|].
    destruct ps as [|y ps] using rev_ind; [reflexivity|].
    rewrite app_comm_cons, app_assoc, !last_point_app. reflexivity.
Qed.

Lemma path_length_app (ps : list Point) (last p : Point) :
  last_point ps = Some last ->
  path_length (ps ++ [p])
  = (path_length ps + Geo.haversine (lat last) (lng last) (lat p) (lng p))%R.
Proof.
  destruct ps as [|x ps]; [discriminate|]. intros Hl.
  cbn [app path_length]. rewrite path_from_app, Hl. reflexivity.
Qed.

Section FeedFacts.
Variable indexer : R -> R -> Z -> string.
Variable kind : activity.

Lemma onPosition_cells (s : Session) (pos : Position) (t : Z) :
  cells (onPosition indexer kind s pos t)
  = if accurate pos then set_add (cell_of indexer pos) (cells s) else cells s.
Proof.
  unfold accurate.
  destruct (Rgt_dec (accuracy pos) CONFIG.MIN_ACCURACY_METERS) as [Hgt|Hle].
  - rewrite onPosition_low_accuracy by exact Hgt. reflexivity.
  - apply Rnot_gt_le in Hle.
    now destruct (onPosition_cases indexer kind s pos t Hle) as (Hc & _).
Qed.

Lemma feed_cells (tps : list (Z * Position)) (s : Session) :
  cells (feed indexer kind s tps)
  = fold_left (fun a c => set_add c a)
              (map (cell_of indexer) (filter accurate (map snd tps))) (cells s).
Proof.
  revert s. induction tps as [|tp tps IH]; intros s; [reflexivity|].
  cbn [feed fold_left map filter]. fold (feed indexer kind).
  change (fold_left _ tps ?x) with (feed indexer kind x tps).
  rewrite IH, onPosition_cells.
  destruct (accurate (snd tp)); reflexivity.
Qed.

Lemma onPosition_measured (s : Session) (pos : Position) (t : Z) :
  measured s -> measured (onPosition indexer kind s pos t).
Proof.
  unfold measured. intros J.
  destruct (Rgt_dec (accuracy pos) CONFIG.MIN_ACCURACY_METERS) as [Hgt|Hle].
  - rewrite onPosition_low_accuracy by exact Hgt. exact J.
  - apply Rnot_gt_le in Hle.
    destruct (onPosition_cases indexer kind s pos t Hle)
      as (_ & _ & _ & _ & _ & _ & _ & _ & _ & Hp).
    destruct (last_point (pointsRef s)) as [last|] eqn:Hl.
    + destruct (Rgt_dec (implied_speed last pos t) (CONFIG.MAX_SPEED_MS kind)).
      * destruct Hp as (-> & -> & _). exact J.
      * destruct Hp as (-> & -> & _).
        rewrite (path_length_app _ last) by exact Hl. rewrite J. reflexivity.
    + destruct Hp as (-> & -> & _). apply last_point_nil_iff in Hl.
      rewrite J, Hl. reflexivity.
Qed.

Lemma feed_measured (tps : list (Z * Position)) (s : Session) :
  measured s -> measured (feed indexer kind s tps).
Proof.
  revert s. induction tps as [|tp tps IH]; intros s J; [exact J|].
  cbn [feed fold_left]. apply IH. now apply onPosition_measured.
Qed.

(** Positions that all pass both gates are all accepted. *)
Lemma feed_all_pass (tps : list (Z * Position)) (s : Session) :
  all_pass kind (last_point (pointsRef s)) tps ->
  pointsRef (feed indexer kind s tps) = pointsRef s ++ map point_of tps.
Proof.
  revert s. induction tps as [|tp tps IH]; intros s Hall.
  - cbn. now rewrite app_nil_r.
  - cbn [all_pass] in Hall. destruct Hall as (Hacc & Hspd & Hrest).
    cbn [feed fold_left map].
    destruct (onPosition_cases indexer kind s (snd tp) (fst tp) Hacc)
      as (_ & _ & _ & _ & _ & _ & _ & _ & _ & Hp).
    assert (Hps : pointsRef (onPosition indexer kind s (snd tp) (fst tp))
                  = pointsRef s ++ [point_of tp]).
    { destruct (last_point (pointsRef s)) as [last|].
      - destruct (Rgt_dec (implied_speed last (snd tp) (fst tp))
                          (CONFIG.MAX_SPEED_MS kind)) as [Hgt|_]; [lra|].
        now destruct Hp as (-> & _).
      - now destruct Hp as (-> & _). }
    change (fold_left _ tps ?x) with (feed indexer kind x tps).
    rewrite IH; rewrite Hps.
    + now rewrite <- app_assoc.
    + rewrite last_point_app. exact Hrest.
Qed.
End FeedFacts.

(** ** The stopwatch *)

Lemma Zfloor_millis (d : Z) : Zfloor (IZR d / 1000) = d / 1000.
Proof.
  apply Zfloor_eq.
  pose proof (Z.div_mod d 1000 ltac:(lia)) as E.
  pose proof (Z.mod_pos_bound d 1000 ltac:(lia)) as B.
  assert (Ed : IZR d = (1000 * IZR (d / 1000) + IZR (d mod 1000))%R).
  { rewrite E at 1. rewrite plus_IZR, mult_IZR. reflexivity. }
  assert (B0 : (0 <= IZR (d mod 1000))%R) by (apply IZR_le; lia).
  assert (B1 : (IZR (d mod 1000) < 1000)%R) by (apply IZR_lt; lia).
  rewrite Ed. split; lra.
Qed.

Lemma fold_onTick (ts : list Z) (s : Session) (t : Z) :
  fold_left onTick (ts ++ [t]) s = onTick s t.
Proof.
  revert s. induction ts as [|x ts IH]; intros s; [reflexivity|].
  cbn [app fold_left]. rewrite IH. reflexivity.
Qed.

(** The timer calls that are due end with the last multiple of a second
    since the timer was set, when there is one past [lo]. *)
Lemma due_ticks_cases (t0 lo hi : Z) :
  let k := (hi - t0) / 1000 in
  if (1 <=? k) && (lo <? t0 + 1000 * k)
  then exists ts, due_ticks t0 lo hi = ts ++ [t0 + 1000 * k]
  else due_ticks t0 lo hi = [].
Proof.
  cbv zeta. unfold due_ticks. cbv zeta.
  set (k1 := (hi - t0) / 1000). set (k0 := Z.max 1 ((lo - t0) / 1000 + 1)).
  destruct ((1 <=? k1) && (lo <? t0 + 1000 * k1)) eqn:C.
  - apply andb_true_iff in C. destruct C as [C1 C2].
    apply Z.leb_le in C1. apply Z.ltb_lt in C2.
    assert (Hk : k0 <= k1).
    { unfold k0. apply Z.max_lub; [exact C1|].
      assert ((lo - t0) / 1000 < k1); [|lia].
      apply Z.div_lt_upper_bound; lia. }
    replace (Z.to_nat (k1 - k0 + 1)) with (S (Z.to_nat (k1 - k0))) by lia.
    rewrite seq_S, map_app. cbn [map Nat.add].
    eexists. f_equal. f_equal. f_equal. lia.
  - replace (Z.to_nat (k1 - k0 + 1)) with 0%nat; [reflexivity|].
    apply andb_false_iff in C. destruct C as [C|C].
    + apply Z.leb_gt in C. unfold k0. lia.
    + apply Z.ltb_ge in C.
      assert (k1 <= (lo - t0) / 1000); [|unfold k0; lia].
      apply Z.div_le_lower_bound; lia.
Qed.

Lemma advance_stopwatch (w : Watch) (s : Session) (lo hi : Z) :
  stopwatch_of w s -> stopwatch_of (w_advance w lo hi) (advance s lo hi).
Proof.
  intros Hall. pose proof Hall as (Hst & Hs & Hp & Hpd & Ht & Hd).
  unfold advance, w_advance. rewrite Ht.
  destruct (w_timer w) as [t0|] eqn:Et; [|exact Hall].
  pose proof (due_ticks_cases t0 lo hi) as Hc. cbv zeta in Hc.
  destruct ((1 <=? (hi - t0) / 1000) && (lo <? t0 + 1000 * ((hi - t0) / 1000))).
  - destruct Hc as [ts ->]. rewrite fold_onTick.
    unfold stopwatch_of. cbn. rewrite Hs, Hpd. repeat split; assumption.
  - rewrite Hc. exact Hall.
Qed.

Section WatchFacts.
Variable indexer : R -> R -> Z -> string.
Variable kind : activity.

Lemma onPosition_stopwatch (w : Watch) (s : Session) (pos : Position) (t : Z) :
  stopwatch_of w s -> stopwatch_of w (onPosition indexer kind s pos t).
Proof.
  intros (Hst & Hs & Hp & Hpd & Ht & Hd).
  destruct (Rgt_dec (accuracy pos) CONFIG.MIN_ACCURACY_METERS) as [Hgt|Hle].
  - rewrite onPosition_low_accuracy by exact Hgt. repeat split; assumption.
  - apply Rnot_gt_le in Hle.
    destruct (onPosition_cases indexer kind s pos t Hle)
      as (_ & _ & Ed & Est & Es & Ep & Epd & _ & Et & _).
    unfold stopwatch_of. rewrite Ed, Est, Es, Ep, Epd, Et. repeat split; assumption.
Qed.

Lemma react_stopwatch (cw : Z * Watch) (cs : Z * Session) (ta : Z * action) :
  fst cw = fst cs -> stopwatch_of (snd cw) (snd cs) ->
  fst (w_react cw ta) = fst (react indexer kind cs ta)
  /\ stopwatch_of (snd (w_react cw ta)) (snd (react indexer kind cs ta)).
Proof.
  intros Hc Hw. unfold w_react, react. cbn [fst snd]. split; [reflexivity|].
  rewrite <- Hc.
  pose proof (advance_stopwatch _ _ (fst cw) (fst ta) Hw) as Ha.
  destruct (snd ta) as [pos| |].
  - destruct (watching _); [now apply onPosition_stopwatch | exact Ha].
  - pose proof Ha as (Hst & Hs & Hp & Hpd & Ht & Hd). rewrite Hst.
    destruct (w_state _) eqn:E; try exact Ha.
    unfold stopwatch_of. cbn. repeat split; assumption.
  - pose proof Ha as (Hst & Hs & Hp & Hpd & Ht & Hd). rewrite Hst.
    destruct (w_state _) eqn:E; try exact Ha.
    unfold stopwatch_of. cbn. rewrite Hp, Hpd. repeat split; assumption.
Qed.

Lemma recorded_stopwatch (t0 : Z) (acts : list (Z * action)) :
  fst (w_recorded t0 acts) = fst (recorded indexer kind t0 acts)
  /\ stopwatch_of (snd (w_recorded t0 acts)) (snd (recorded indexer kind t0 acts)).
Proof.
  unfold w_recorded, recorded.
  assert (H0 : fst (t0, mkWatch recording t0 0 0 (Some t0) 0) = fst (t0, start initial t0)
               /\ stopwatch_of (snd (t0, mkWatch recording t0 0 0 (Some t0) 0))
                               (snd (t0, start initial t0))).
  { split; [reflexivity|]. unfold stopwatch_of. cbn. repeat split. lra. }
  revert H0.
  generalize (t0, mkWatch recording t0 0 0 (Some t0) 0) as cw.
  generalize (t0, start initial t0) as cs.
  induction acts as [|ta acts IH]; intros cs cw [Hc Hw]; [split; assumption|].
  cbn [fold_left]. apply IH. now apply react_stopwatch.
Qed.

Lemma w_advance_start (w : Watch) (lo hi : Z) : w_start (w_advance w lo hi) = w_start w.
Proof.
  unfold w_advance. destruct (w_timer w); [|reflexivity].
  destruct (_ && _); reflexivity.
Qed.

Lemma w_react_start (acts : list (Z * action)) (cw : Z * Watch) :
  w_start (snd (fold_left w_react acts cw)) = w_start (snd cw).
Proof.
  revert cw. induction acts as [|ta acts IH]; intros cw; [reflexivity|].
  cbn [fold_left]. rewrite IH. unfold w_react. cbn [snd].
  destruct (snd ta); [apply w_advance_start | |];
    (destruct (w_state _) eqn:E; cbn [w_start]; apply w_advance_start).
Qed.

Lemma w_recorded_start (t0 : Z) (acts : list (Z * action)) :
  w_start (snd (w_recorded t0 acts)) = t0.
Proof. unfold w_recorded. now rewrite w_react_start. Qed.
End WatchFacts.

(** ** The ride a session hands over *)

Section FinishFacts.
Variable indexer : R -> R -> Z -> string.
Variable kind : activity.
Variable user : string.

Lemma feed_start_cells (t0 : Z) (tps : list (Z * Position)) :
  cells (feed indexer kind (start initial t0) tps) = visited indexer tps.
Proof. rewrite feed_cells. reflexivity. Qed.

Lemma feed_start_distance (t0 : Z) (tps : list (Z * Position)) :
  distance (stats (feed indexer kind (start initial t0) tps))
  = path_length (pointsRef (feed indexer kind (start initial t0) tps)).
Proof. apply feed_measured. reflexivity. Qed.

(** What [end(true)] does at the end of a session, from the actions of
    the session: the accepted samples are those of the positions delivered
    while recording; the duration is the one on display; the cells are the
    cells of the delivered positions that passed the accuracy gate. *)
Lemma finish_save (t0 : Z) (acts : list (Z * action)) (te : Z) :
  let F := feed indexer kind (start initial t0) (delivered true acts) in
  snd (finish indexer kind user t0 acts te true)
  = if (List.length (pointsRef F) <? 10)%nat
    then [Toast "Too short"; SetCurrentPage home]
    else [Insert (mkRide user kind t0 te
                    (shown_at_end t0 acts te / 1000)
                    (Zfloor (path_length (pointsRef F)))
                    (sha256 (String.concat "," (visited indexer (delivered true acts))))
                    (List.length (visited indexer (delivered true acts))))].
Proof.
  cbv zeta. unfold finish.
  pose proof (recorded_track indexer kind t0 acts) as Ht.
  destruct (recorded_stopwatch indexer kind t0 acts) as [Hc Hw].
  set (cs := recorded indexer kind t0 acts) in *.
  pose proof (advance_track (snd cs) (fst cs) te) as Ha.
  rewrite Ht in Ha. unfold track in Ha. injection Ha as Hp Hcl Hd.
  pose proof (advance_stopwatch _ _ (fst cs) te Hw)
    as (_ & Hs & _ & _ & _ & Hdur).
  rewrite w_advance_start, w_recorded_start in Hs.
  unfold end_. cbn [negb pointsRef cells stats startRef].
  unfold CONFIG.MIN_RIDE_POINTS.
  rewrite Hp, Hcl, Hd, Hs, Hdur, Zfloor_millis.
  rewrite feed_start_cells, feed_start_distance.
  unfold shown_at_end. rewrite Hc.
  destruct (_ <? _)%nat; reflexivity.
Qed.

Lemma finish_discard (t0 : Z) (acts : list (Z * action)) (te : Z) :
  snd (finish indexer kind user t0 acts te false)
  = [Toast "Discarded"; SetCurrentPage home].
Proof. reflexivity. Qed.

Lemma recorded_points (t0 : Z) (acts : list (Z * action)) :
  pointsRef (snd (recorded indexer kind t0 acts))
  = pointsRef (feed indexer kind (start initial t0) (delivered true acts)).
Proof.
  pose proof (recorded_track indexer kind t0 acts) as Ht.
  unfold track in Ht. now injection Ht.
Qed.
End FinishFacts.

(** ** Samples at regular intervals *)

Lemma delivered_spaced (t dt : Z) (ps : list Position) :
  delivered true (spaced t dt ps) = timed t dt ps.
Proof.
  revert t. induction ps as [|p ps IH]; intros t; [reflexivity|].
  cbn [spaced delivered timed]. now rewrite IH.
Qed.

Lemma timed_length (t dt : Z) (ps : list Position) :
  List.length (timed t dt ps) = List.length ps.
Proof.
  revert t. induction ps as [|p ps IH]; intros t; [reflexivity|].
  cbn [timed List.length]. now rewrite IH.
Qed.

(** Hops of at most 36 m every two seconds stay within the ceiling of
    cycling. *)
Lemma timed_all_pass (ps : list Position) (p : Position) (t : Z) (lo hi : R) :
  (hi <= 36)%R ->
  Forall (fun q => accuracy q = 15%R) ps ->
  hops_within lo hi p ps ->
  all_pass cycling (Some (point_of (t, p))) (timed (t + 2000) 2000 ps).
Proof.
  intros Hhi. revert p t. induction ps as [|q ps IH]; intros p t Hacc Hh; [exact I|].
  cbn [timed all_pass fst snd]. cbn [hops_within] in Hh. destruct Hh as [[Hlo Hup] Hh].
  inversion Hacc as [|? ? Hq Hrest]; subst.
  split; [unfold CONFIG.MIN_ACCURACY_METERS; rewrite Hq; lra|].
  split; [|apply IH; assumption].
  unfold implied_speed, point_of. cbn [lat lng ts fst snd CONFIG.MAX_SPEED_MS].
  replace (t + 2000 - t) with 2000 by lia.
  replace (IZR 2000 / 1000)%R with 2%R by lra.
  destruct (Rgt_dec 2 0); lra.
Qed.

Lemma hops_path (ps : list Position) (p : Position) (t dt : Z) (lo hi d : R) :
  hops_within lo hi p ps ->
  (d + INR (List.length ps) * lo
   <= path_from d (point_of (t, p)) (map point_of (timed (t + dt) dt ps))
   <= d + INR (List.length ps) * hi)%R.
Proof.
  revert p t d. induction ps as [|q ps IH]; intros p t d Hh.
  - cbn. lra.
  - cbn [hops_within] in Hh. destruct Hh as [[Hlo Hup] Hh].
    cbn [timed map path_from].
    specialize (IH q (t + dt) (d + Geo.haversine (latitude p) (longitude p)
                                     (latitude q) (longitude q))%R Hh).
    change (List.length (q :: ps)) with (S (List.length ps)). rewrite S_INR.
    unfold point_of in *. cbn [lat lng fst snd] in *.
    lra.
Qed.

Lemma visited_spec (indexer : R -> R -> Z -> string) (tps : list (Z * Position)) :
  NoDup (visited indexer tps)
  /\ forall c, In c (visited indexer tps)
               <-> exists tp, In tp tps /\ accurate (snd tp) = true
                              /\ cell_of indexer (snd tp) = c.
Proof.
  unfold visited.
  destruct (distinct_spec (map (cell_of indexer) (filter accurate (map snd tps))))
    as [Hnd Hin].
  split; [exact Hnd|]. intros c. rewrite Hin, in_map_iff. split.
  - intros [pos [Hc Hf]]. apply filter_In in Hf. destruct Hf as [Hm Ha].
    apply in_map_iff in Hm. destruct Hm as [tp [Hs Ht]]. subst pos.
    exists tp. repeat split; assumption.
  - intros [tp [Ht [Ha Hc]]]. exists (snd tp). split; [exact Hc|].
    apply filter_In. split; [|exact Ha]. apply in_map. exact Ht.
Qed.

Lemma recorded_cells (indexer : R -> R -> Z -> string) (kind : activity)
    (t0 : Z) (acts : list (Z * action)) :
  cells (snd (recorded indexer kind t0 acts)) = visited indexer (delivered true acts).
Proof.
  pose proof (recorded_track indexer kind t0 acts) as Ht.
  unfold track in Ht. injection Ht as _ Hc _. rewrite Hc. apply feed_start_cells.
Qed.

Lemma recorded_distance (indexer : R -> R -> Z -> string) (kind : activity)
    (t0 : Z) (acts : list (Z * action)) :
  distance (stats (snd (recorded indexer kind t0 acts)))
  = path_length (pointsRef (snd (recorded indexer kind t0 acts))).
Proof.
  pose proof (recorded_track indexer kind t0 acts) as Ht.
  unfold track in Ht. injection Ht as Hp _ Hd. rewrite Hd, Hp.
  apply feed_start_distance.
Qed.

(** ** The cells of the page against the cells of the accepted samples *)

Lemma accurate_iff (pos : Position) :
  accurate pos = true <-> (accuracy pos <= CONFIG.MIN_ACCURACY_METERS)%R.
Proof.
  unfold accurate.
  destruct (Rgt_dec (accuracy pos) CONFIG.MIN_ACCURACY_METERS) as [Hgt|Hle];
    split; intros H; try reflexivity; try discriminate; lra.
Qed.

Lemma filter_accurate_snd (tps : list (Z * Position)) :
  filter accurate (map snd tps) = map snd (filter (fun tp => accurate (snd tp)) tps).
Proof.
  induction tps as [|tp tps IH]; [reflexivity|].
  cbn [map filter]. destruct (accurate (snd tp)); cbn [map]; now rewrite IH.
Qed.

Lemma all_pass_accurate (kind : activity) (tps : list (Z * Position)) (last : option Point) :
  all_pass kind last tps -> filter (fun tp => accurate (snd tp)) tps = tps.
Proof.
  revert last. induction tps as [|tp tps IH]; intros last H; [reflexivity|].
  cbn [all_pass] in H. destruct H as (Hacc & _ & H).
  cbn [filter]. apply accurate_iff in Hacc. rewrite Hacc. f_equal. apply (IH _ H).
Qed.

(** Positions that all pass both gates: none is dropped for its speed. *)
Lemma all_pass_none_speeding (kind : activity) (tps : list (Z * Position)) :
  all_pass kind None tps -> none_speeding kind tps.
Proof.
  intros H. unfold none_speeding. now rewrite (all_pass_accurate kind tps None H).
Qed.

(** The positions that fail the accuracy gate leave no trace in the
    track. *)
Lemma feed_accurate_only (indexer : R -> R -> Z -> string) (kind : activity)
    (tps : list (Z * Position)) (s : Session) :
  track (feed indexer kind s tps)
  = track (feed indexer kind s (filter (fun tp => accurate (snd tp)) tps)).
Proof.
  revert s. induction tps as [|tp tps IH]; intros s; [reflexivity|].
  cbn [filter]. destruct (accurate (snd tp)) eqn:E.
  - cbn [feed fold_left]. apply IH.
  - change (feed indexer kind s (tp :: tps))
      with (feed indexer kind (onPosition indexer kind s (snd tp) (fst tp)) tps).
    rewrite <- IH. apply feed_track.
    rewrite onPosition_low_accuracy; [reflexivity|].
    unfold accurate in E.
    destruct (Rgt_dec (accuracy (snd tp)) CONFIG.MIN_ACCURACY_METERS);
      [assumption | discriminate].
Qed.

(** When no sample is dropped for its speed, the cells of the page are the
    cells of the accepted samples, in the order they are first touched. *)
Lemma cells_of_accepted_samples (indexer : R -> R -> Z -> string) (kind : activity)
    (t0 : Z) (acts : list (Z * action)) :
  none_speeding kind (delivered true acts) ->
  cells (snd (recorded indexer kind t0 acts))
  = distinct (map (point_cell indexer)
                  (pointsRef (snd (recorded indexer kind t0 acts)))).
Proof.
  unfold none_speeding. intros Hall.
  pose proof (recorded_track indexer kind t0 acts) as Ht.
  rewrite feed_accurate_only in Ht. unfold track in Ht. injection Ht as Hp Hc _.
  rewrite Hp, Hc, feed_cells, feed_all_pass by exact Hall.
  cbn [start pointsRef cells app].
  rewrite filter_accurate_snd, (all_pass_accurate _ _ _ Hall).
  unfold distinct. f_equal. rewrite !map_map. reflexivity.
Qed.

(** X27.  The scenario of the specification, numbers idealised as reals:
    a cycling session is fed 12 positions of accuracy 15 m every 2 s, each
    within [e] of 10 m from the one before (so about 5 m/s), for some [e]
    above 0 and up to 1 m.  All 12 are accepted, the distance on display
    is within [11 e] of 110 m, the cells of the page are the cells of the
    accepted samples, and ending with save=true hands over a ride whose
    [tiles_touched] is their number, at least 1. *)
Theorem twelve_samples_ten_metres_apart
    (latLngToCell : R -> R -> Z -> string) (user : string)
    (t0 t1 te : Z) (p : Position) (ps : list Position) (e : R) :
  List.length (p :: ps) = 12%nat ->
  Forall (fun q => accuracy q = 15%R) (p :: ps) ->
  (0 < e <= 1)%R ->
  hops_within (10 - e) (10 + e) p ps ->
  let acts := spaced t1 2000 (p :: ps) in
  let s := snd (recorded latLngToCell cycling t0 acts) in
  pointsRef s = map point_of (timed t1 2000 (p :: ps))
  /\ List.length (pointsRef s) = 12%nat
  /\ (110 - 11 * e <= distance (stats s) <= 110 + 11 * e)%R
  /\ cells s = distinct (map (point_cell latLngToCell) (pointsRef s))
  /\ exists ride,
       inserted (snd (finish latLngToCell cycling user t0 acts te true)) = Some ride
       /\ tiles_touched ride
          = List.length (distinct (map (point_cell latLngToCell) (pointsRef s)))
       /\ (1 <= tiles_touched ride)%nat.
Proof.
  intros Hlen Hacc He Hh. cbv zeta.
  assert (Hall : all_pass cycling None (timed t1 2000 (p :: ps))).
  { cbn [timed all_pass fst snd].
    inversion Hacc as [|? ? Hp Hrest]; subst.
    split; [unfold CONFIG.MIN_ACCURACY_METERS; rewrite Hp; lra|].
    split; [exact I|].
    apply (timed_all_pass ps p t1 (10 - e) (10 + e)); [lra | assumption | assumption]. }
  assert (Hps : pointsRef (snd (recorded latLngToCell cycling t0 (spaced t1 2000 (p :: ps))))
                = map point_of (timed t1 2000 (p :: ps))).
  { rewrite recorded_points, delivered_spaced, feed_all_pass; [reflexivity|].
    exact Hall. }
  assert (Hl : List.length (pointsRef (snd (recorded latLngToCell cycling t0
                                               (spaced t1 2000 (p :: ps))))) = 12%nat).
  { rewrite Hps, length_map, timed_length. exact Hlen. }
  assert (Hd : (110 - 11 * e
                <= distance (stats (snd (recorded latLngToCell cycling t0
                                           (spaced t1 2000 (p :: ps)))))
                <= 110 + 11 * e)%R).
  { rewrite recorded_distance, Hps. cbn [timed map path_length].
    pose proof (hops_path ps p t1 2000 (10 - e) (10 + e) 0 Hh) as Hb.
    cbn [List.length] in Hlen. injection Hlen as Hlen. rewrite Hlen in Hb.
    change (INR 11) with (INR (S (S (S (S (S (S (S (S (S (S (S O)))))))))))) in Hb.
    rewrite !S_INR in Hb. cbn [INR] in Hb. lra. }
  assert (Hc : cells (snd (recorded latLngToCell cycling t0 (spaced t1 2000 (p :: ps))))
               = distinct (map (point_cell latLngToCell)
                               (pointsRef (snd (recorded latLngToCell cycling t0
                                                  (spaced t1 2000 (p :: ps))))))).
  { apply cells_of_accepted_samples. rewrite delivered_spaced.
    apply all_pass_none_speeding. exact Hall. }
  repeat split; try assumption; try apply Hd.
  pose proof (finish_save latLngToCell cycling user t0 (spaced t1 2000 (p :: ps)) te) as Hf.
  cbv zeta in Hf. rewrite <- recorded_points, Hl in Hf. cbn [Nat.ltb Nat.leb] in Hf.
  eexists. split; [rewrite Hf; cbn [inserted]; reflexivity|].
  cbn [tiles_touched].
  rewrite <- (recorded_cells latLngToCell cycling t0), Hc. split; [reflexivity|].
  rewrite Hps. cbn [timed map]. unfold distinct. cbn [fold_left].
  change (set_add ?c []) with [c].
  match goal with
  | |- (1 <= List.length (fold_left _ ?l ?a))%nat =>
      destruct (fold_set_add_spec l a) as [_ Hin]
  end.
  { repeat constructor. intros []. }
  match goal with
  | |- (1 <= List.length ?l)%nat =>
      assert (Hx : In (point_cell latLngToCell (point_of (t1, p))) l)
        by (apply Hin; left; left; reflexivity);
      destruct l; [destruct Hx | cbn; lia]
  end.
Qed.

Lemma ten_metres_bounds : (0 < ten_metres < 1)%R.
Proof.
  unfold ten_metres. pose proof PI_gt_3 as Hpi.
  assert (Hden : (0 < 6371000 * PI)%R) by lra.
  split.
  - apply Rdiv_lt_0_compat; lra.
  - apply Rmult_lt_reg_r with (6371000 * PI)%R; [exact Hden|].
    unfold Rdiv. rewrite Rmult_assoc, Rinv_l by lra. lra.
Qed.

Lemma equator_ten (x : R) : Geo.haversine 0 x 0 (x + ten_metres) = 10%R.
Proof.
  pose proof ten_metres_bounds as Hb.
  rewrite haversine_equator by lra.
  replace (x + ten_metres - x)%R with ten_metres by lra.
  unfold ten_metres. pose proof PI_gt_3 as Hpi. field. lra.
Qed.

Lemma eastward_hops (n : nat) (x e : R) :
  (0 <= e)%R ->
  hops_within (10 - e) (10 + e) (mkPosition 0 x 15) (eastward n (x + ten_metres)).
Proof.
  intros He. revert x. induction n as [|n IH]; intros x; [exact I|].
  cbn [eastward hops_within latitude longitude].
  split; [rewrite equator_ten; lra | apply IH].
Qed.

Lemma eastward_accuracy (n : nat) (x : R) :
  Forall (fun q => accuracy q = 15%R) (eastward n x).
Proof.
  revert x. induction n as [|n IH]; intros x; constructor; [reflexivity | apply IH].
Qed.

Lemma eastward_length (n : nat) (x : R) : List.length (eastward n x) = n.
Proof.
  revert x. induction n as [|n IH]; intros x; [reflexivity|].
  cbn [eastward List.length]. now rewrite IH.
Qed.

Lemma twelve_samples_ten_metres_apart_witness :
  let acts := spaced 2000 2000 (eastward 12 0) in
  let s := snd (recorded two_cells cycling 1000 acts) in
  List.length (pointsRef s) = 12%nat
  /\ (110 - 11 * (1 / 100) <= distance (stats s) <= 110 + 11 * (1 / 100))%R
  /\ cells s = distinct (map (point_cell two_cells) (pointsRef s))
  /\ exists ride,
       inserted (snd (finish two_cells cycling "rider"%string 1000 acts 30000 true))
       = Some ride
       /\ tiles_touched ride
          = List.length (distinct (map (point_cell two_cells) (pointsRef s)))
       /\ (1 <= tiles_touched ride)%nat.
Proof.
  cbv zeta.
  destruct (twelve_samples_ten_metres_apart
              two_cells "rider"%string 1000 2000 30000
              (mkPosition 0 0 15) (eastward 11 (0 + ten_metres)) (1 / 100))
    as (_ & Hl & Hd & Hc & Hr).
  - cbn [List.length]. now rewrite eastward_length.
  - constructor; [reflexivity | apply eastward_accuracy].
  - lra.
  - apply eastward_hops. lra.
  - repeat split; try assumption; apply Hd.
Defined.


(** ** Duration *)

Lemma w_advance_inv (c t : Z) (w : Watch) (since : option Z) (cur : Z + Z) :
  c <= t -> watch_inv c w since cur -> watch_inv t (w_advance w c t) since cur.
Proof.
  intros Hct Hinv. unfold watch_inv in *.
  destruct since as [p|], cur as [tr|l]; try contradiction.
  - destruct Hinv as (Hs & Ht & Hp & Hpos & Hle & Hlt).
    unfold w_advance. rewrite Ht. repeat split; try assumption; lia.
  - destruct Hinv as (Hs & Ht & Hpos & Hle & Heq).
    unfold w_advance. rewrite Ht.
    destruct ((1 <=? (t - tr) / 1000) && (c <? tr + 1000 * ((t - tr) / 1000))) eqn:C.
    + apply andb_true_iff in C. destruct C as [C1 C2].
      apply Z.leb_le in C1. apply Z.ltb_lt in C2.
      cbn [w_state w_timer w_start w_paused w_shown].
      repeat split; try assumption; try lia;
        [|intros Hbig]; Z.div_mod_to_equations; lia.
    + apply andb_false_iff in C.
      repeat split; try assumption; try lia.
      * destruct C as [C|C]; [apply Z.leb_gt in C | apply Z.ltb_ge in C];
          Z.div_mod_to_equations; lia.
      * intros Hbig.
        destruct C as [C|C]; [apply Z.leb_gt in C | apply Z.ltb_ge in C].
        -- Z.div_mod_to_equations; lia.
        -- assert (Hc : 1000 <= c - tr) by (Z.div_mod_to_equations; lia).
           specialize (Heq Hc). Z.div_mod_to_equations; lia.
Qed.

Lemma w_react_unfold (c t : Z) (w : Watch) (a : action) :
  w_react (c, w) (t, a)
  = (t, match a with
        | Sample _ => w_advance w c t
        | PressPause =>
            match w_state (w_advance w c t) with
            | recording =>
                mkWatch paused (w_start (w_advance w c t)) t
                        (w_paused (w_advance w c t)) None (w_shown (w_advance w c t))
            | _ => w_advance w c t
            end
        | PressResume =>
            match w_state (w_advance w c t) with
            | paused =>
                mkWatch recording (w_start (w_advance w c t)) (w_pause (w_advance w c t))
                        (if w_pause (w_advance w c t) =? 0 then w_paused (w_advance w c t)
                         else w_paused (w_advance w c t) + (t - w_pause (w_advance w c t)))
                        (Some t) (w_shown (w_advance w c t))
            | _ => w_advance w c t
            end
        end).
Proof. reflexivity. Qed.

(** The display at the end against the time recorded, from any instant of
    the session on. *)
Lemma watch_bounds (acts : list (Z * action)) (c : Z) (w : Watch)
    (since : option Z) (cur : Z + Z) (te : Z) :
  in_order c acts te ->
  watch_inv c w since cur ->
  let cw := fold_left w_react acts (c, w) in
  let shown := w_shown (w_advance (snd cw) (fst cw) te) in
  let total := te - w_start w - w_paused w - paused_time since acts te in
  shown <= total /\ (1000 <= last_stretch cur acts te -> total - shown < 1000).
Proof.
  revert c w since cur. induction acts as [|[t a] acts IH]; intros c w since cur Hord Hinv.
  - cbn [in_order] in Hord. cbn [fold_left fst snd paused_time last_stretch].
    pose proof (w_advance_inv c te w since cur Hord Hinv) as H.
    unfold watch_inv in H, Hinv.
    destruct since as [p|], cur as [tr|l]; try contradiction.
    + destruct H as (_ & _ & _ & _ & Hle & Hlt).
      destruct Hinv as (_ & Ht & _).
      unfold w_advance in *. rewrite Ht in *. lia.
    + destruct H as (_ & _ & _ & Hle & Heq).
      assert (Hsp : w_start (w_advance w c te) = w_start w
                    /\ w_paused (w_advance w c te) = w_paused w).
      { unfold w_advance. destruct (w_timer w); [|split; reflexivity].
        destruct (_ && _); split; reflexivity. }
      destruct Hsp as [Es Ep]. rewrite Es, Ep in *.
      split; [Z.div_mod_to_equations; lia|].
      intros Hbig. specialize (Heq Hbig). Z.div_mod_to_equations; lia.
  - cbn [in_order] in Hord. destruct Hord as [Hct Hord].
    cbn [fold_left]. cbv zeta.
    pose proof (w_advance_inv c t w since cur Hct Hinv) as H.
    assert (Hsp : w_start (w_advance w c t) = w_start w
                  /\ w_paused (w_advance w c t) = w_paused w).
    { unfold w_advance. destruct (w_timer w); [|split; reflexivity].
      destruct (_ && _); split; reflexivity. }
    destruct Hsp as [Es Ep].
    rewrite w_react_unfold.
    set (w1 := w_advance w c t) in *.
    destruct a as [pos| |].
    + cbn [paused_time last_stretch].
      specialize (IH t w1 since cur Hord H). cbv zeta in IH.
      rewrite Es, Ep in IH. exact IH.
    + pose proof H as Hkeep. unfold watch_inv in H.
      destruct since as [p|], cur as [tr|l]; try contradiction.
      * destruct H as (Hs & Ht & Hp & Hpos & Hle & Hlt). rewrite Hs.
        cbn [paused_time last_stretch].
        specialize (IH t w1 (Some p) (inr l) Hord Hkeep). cbv zeta in IH.
        rewrite Es, Ep in IH. exact IH.
      * destruct H as (Hs & Ht & Hpos & Hle & Heq). rewrite Hs.
        cbn [paused_time last_stretch].
        set (w2 := mkWatch paused (w_start w1) t (w_paused w1) None (w_shown w1)).
        assert (H' : watch_inv t w2 (Some t) (inr (t - tr))).
        { unfold watch_inv, w2.
          cbn [w_state w_timer w_pause w_start w_paused w_shown].
          repeat split; try lia.
          - Z.div_mod_to_equations; lia.
          - intros Hbig. specialize (Heq Hbig). Z.div_mod_to_equations; lia. }
        specialize (IH t w2 (Some t) (inr (t - tr)) Hord H'). cbv zeta in IH.
        change (w_start w2) with (w_start w1) in IH.
        change (w_paused w2) with (w_paused w1) in IH.
        rewrite Es, Ep in IH. exact IH.
    + pose proof H as Hkeep. unfold watch_inv in H.
      destruct since as [p|], cur as [tr|l]; try contradiction.
      * destruct H as (Hs & Ht & Hp & Hpos & Hle & Hlt). rewrite Hs.
        cbn [paused_time last_stretch].
        set (w2 := mkWatch recording (w_start w1) (w_pause w1)
                     (if w_pause w1 =? 0 then w_paused w1
                      else w_paused w1 + (t - w_pause w1))
                     (Some t) (w_shown w1)).
        assert (Hpd : w_paused w2 = w_paused w1 + (t - p)).
        { unfold w2. cbn [w_paused]. rewrite Hp.
          destruct (Z.eqb_spec p 0); [lia | reflexivity]. }
        assert (H' : watch_inv t w2 None (inl t)).
        { unfold watch_inv. rewrite Hpd. unfold w2.
          cbn [w_state w_timer w_start w_shown].
          rewrite Z.sub_diag, Z.mod_0_l by lia.
          repeat split; try lia. }
        specialize (IH t w2 None (inl t) Hord H'). cbv zeta in IH.
        rewrite Hpd in IH. change (w_start w2) with (w_start w1) in IH.
        rewrite Es, Ep in IH.
        replace (te - w_start w - w_paused w - (t - p + paused_time None acts te))
          with (te - w_start w - (w_paused w + (t - p)) - paused_time None acts te)
          by lia.
        exact IH.
      * destruct H as (Hs & Ht & Hpos & Hle & Heq). rewrite Hs.
        cbn [paused_time last_stretch].
        specialize (IH t w1 None (inl tr) Hord Hkeep). cbv zeta in IH.
        rewrite Es, Ep in IH. exact IH.
Qed.

(** ** Concrete runs *)

Lemma accurate_here : accurate here = true.
Proof.
  unfold accurate, here, CONFIG.MIN_ACCURACY_METERS. cbn [accuracy].
  destruct (Rgt_dec 15 50); [lra | reflexivity].
Qed.

Lemma accurate_there : accurate there = true.
Proof.
  unfold accurate, there, CONFIG.MIN_ACCURACY_METERS. cbn [accuracy].
  destruct (Rgt_dec 15 50); [lra | reflexivity].
Qed.

Lemma haversine_sym (lat1 lon1 lat2 lon2 : R) :
  Geo.haversine lat1 lon1 lat2 lon2 = Geo.haversine lat2 lon2 lat1 lon1.
Proof.
  unfold Geo.haversine, Geo.toRad. cbv zeta.
  replace ((lat2 - lat1) * PI / 180 / 2)%R with (- ((lat1 - lat2) * PI / 180 / 2))%R by lra.
  replace ((lon2 - lon1) * PI / 180 / 2)%R with (- ((lon1 - lon2) * PI / 180 / 2))%R by lra.
  rewrite !sin_neg.
  replace ((- sin ((lat1 - lat2) * PI / 180 / 2)) ^ 2)%R
    with (sin ((lat1 - lat2) * PI / 180 / 2) ^ 2)%R by ring.
  replace ((- sin ((lon1 - lon2) * PI / 180 / 2)) ^ 2)%R
    with (sin ((lon1 - lon2) * PI / 180 / 2) ^ 2)%R by ring.
  rewrite (Rmult_comm (cos (lat1 * PI / 180))). reflexivity.
Qed.

Lemma implied_speed_same (last : Point) (pos : Position) (t : Z) :
  lat last = latitude pos -> lng last = longitude pos ->
  implied_speed last pos t = 0%R.
Proof.
  intros Hla Hlo. unfold implied_speed. rewrite Hla, Hlo, haversine_same.
  destruct (Rgt_dec _ 0); [|reflexivity]. unfold Rdiv. apply Rmult_0_l.
Qed.

Lemma max_speed_pos (kind : activity) : (0 < CONFIG.MAX_SPEED_MS kind)%R.
Proof. destruct kind; cbn; lra. Qed.

(** Samples that stay where the last one was are all accepted and add no
    distance. *)
Lemma stationary_all_pass (kind : activity) (pos : Position) (n : nat) (t dt : Z)
    (last : Point) :
  (accuracy pos <= CONFIG.MIN_ACCURACY_METERS)%R ->
  lat last = latitude pos -> lng last = longitude pos ->
  all_pass kind (Some last) (timed t dt (repeat pos n)).
Proof.
  intros Hacc. revert t last. induction n as [|n IH]; intros t last Hla Hlo; [exact I|].
  cbn [repeat timed all_pass fst snd]. split; [exact Hacc|]. split.
  - rewrite implied_speed_same by assumption. pose proof (max_speed_pos kind). lra.
  - apply IH; reflexivity.
Qed.

Lemma stationary_path (pos : Position) (n : nat) (t dt : Z) (last : Point) (d : R) :
  lat last = latitude pos -> lng last = longitude pos ->
  path_from d last (map point_of (timed t dt (repeat pos n))) = d.
Proof.
  revert t last d. induction n as [|n IH]; intros t last d Hla Hlo; [reflexivity|].
  cbn [repeat timed map path_from]. rewrite IH by reflexivity.
  unfold point_of. cbn [lat lng fst snd]. rewrite Hla, Hlo, haversine_same. lra.
Qed.

Lemma here_passes : (accuracy here <= CONFIG.MIN_ACCURACY_METERS)%R.
Proof. unfold CONFIG.MIN_ACCURACY_METERS, here. cbn. lra. Qed.

Lemma there_passes : (accuracy there <= CONFIG.MIN_ACCURACY_METERS)%R.
Proof. unfold CONFIG.MIN_ACCURACY_METERS, there. cbn. lra. Qed.

(** Ten samples [here] from the start on: all accepted, one cell, no
    distance. *)
Lemma ten_here (t0 t dt : Z) :
  let F := feed two_cells cycling (start initial t0) (timed t dt (repeat here 10)) in
  List.length (pointsRef F) = 10%nat
  /\ path_length (pointsRef F) = 0%R
  /\ visited two_cells (timed t dt (repeat here 10)) = ["8a754e64992ffff"%string].
Proof.
  cbv zeta.
  assert (Hp : pointsRef (feed two_cells cycling (start initial t0)
                               (timed t dt (repeat here 10)))
               = map point_of (timed t dt (repeat here 10))).
  { rewrite feed_all_pass; [reflexivity|].
    cbn [repeat timed all_pass fst snd start pointsRef last_point nth_error
         List.length Nat.sub].
    split; [exact here_passes|]. split; [exact I|].
    apply (stationary_all_pass cycling here 9); [exact here_passes | | ]; reflexivity. }
  rewrite Hp. split; [|split].
  - now rewrite length_map, timed_length, repeat_length.
  - cbn [repeat timed map path_length].
    apply (stationary_path here 9); reflexivity.
  - unfold visited. cbn [repeat timed map snd filter].
    rewrite !accurate_here. cbn [map]. rewrite !cell_of_here. reflexivity.
Qed.

Lemma finish_points (indexer : R -> R -> Z -> string) (kind : activity) (user : string)
    (t0 : Z) (acts : list (Z * action)) (te : Z) (save : bool) :
  pointsRef (fst (finish indexer kind user t0 acts te save))
  = pointsRef (snd (recorded indexer kind t0 acts)).
Proof.
  unfold finish.
  pose proof (advance_track (snd (recorded indexer kind t0 acts))
                            (fst (recorded indexer kind t0 acts)) te) as Ha.
  unfold track in Ha. injection Ha as Hp _ _.
  unfold end_. destruct save; cbn [negb];
    [destruct (_ <? _)%nat|]; cbn [fst pointsRef]; exact Hp.
Qed.

(** The ride of a saved session, from its actions. *)
Lemma inserted_ride (indexer : R -> R -> Z -> string) (kind : activity) (user : string)
    (t0 : Z) (acts : list (Z * action)) (te : Z) (ride : Ride) :
  inserted (snd (finish indexer kind user t0 acts te true)) = Some ride ->
  ride = mkRide user kind t0 te
           (shown_at_end t0 acts te / 1000)
           (Zfloor (path_length (pointsRef (snd (recorded indexer kind t0 acts)))))
           (sha256 (String.concat "," (cells (snd (recorded indexer kind t0 acts)))))
           (List.length (cells (snd (recorded indexer kind t0 acts)))).
Proof.
  rewrite finish_save, recorded_points, recorded_cells.
  destruct (_ <? _)%nat; cbn [inserted]; [discriminate|].
  intros H. now injection H.
Qed.

Lemma standing_ride (te : Z) :
  inserted (snd (finish two_cells cycling "rider"%string 1000 standing te true))
  = Some (mkRide "rider" cycling 1000 te (shown_at_end 1000 standing te / 1000) 0
                 (sha256 "8a754e64992ffff") 1).
Proof.
  assert (Hd : delivered true standing = timed 2000 2000 (repeat here 10))
    by apply delivered_spaced.
  rewrite finish_save, !Hd.
  destruct (ten_here 1000 2000 2000) as (Hl & Hpath & Hv).
  rewrite Hl, Hpath, Hv, ZfloorZ. reflexivity.
Qed.

(** C7, on the code: the same ten samples, and the end pressed half a
    second after the last one or twenty seconds later: the accepted samples
    are the same, the durations saved are 19 s and 39 s. *)
Lemma duration_follows_the_timer :
  exists r1 r2,
    inserted (snd (finish two_cells cycling "rider"%string 1000 standing 20500 true))
    = Some r1
    /\ inserted (snd (finish two_cells cycling "rider"%string 1000 standing 40500 true))
       = Some r2
    /\ pointsRef (fst (finish two_cells cycling "rider"%string 1000 standing 20500 true))
       = pointsRef (fst (finish two_cells cycling "rider"%string 1000 standing 40500 true))
    /\ duration_sec r1 = 19
    /\ duration_sec r2 = 39
    /\ duration_sec r1 <> duration_sec r2.
Proof.
  eexists. eexists.
  split; [apply standing_ride|]. split; [apply standing_ride|].
  split; [now rewrite !finish_points|].
  assert (E1 : shown_at_end 1000 standing 20500 / 1000 = 19) by reflexivity.
  assert (E2 : shown_at_end 1000 standing 40500 / 1000 = 39) by reflexivity.
  cbn [duration_sec]. rewrite E1, E2. repeat split; lia.
Qed.

(** C7, as the code has it: the distance saved is derived from the
    accepted samples alone, two sessions with the same accepted samples
    save the same [distance_m], the floor of the length of the path through
    them; the duration saved is the floor of the duration on display,
    which the timer sets from the clock. *)
Theorem distance_follows_the_accepted_samples
    (idx1 idx2 : R -> R -> Z -> string) (kind1 kind2 : activity) (user1 user2 : string)
    (t1 t2 : Z) (acts1 acts2 : list (Z * action)) (te1 te2 : Z) (r1 r2 : Ride) :
  inserted (snd (finish idx1 kind1 user1 t1 acts1 te1 true)) = Some r1 ->
  inserted (snd (finish idx2 kind2 user2 t2 acts2 te2 true)) = Some r2 ->
  pointsRef (fst (finish idx1 kind1 user1 t1 acts1 te1 true))
  = pointsRef (fst (finish idx2 kind2 user2 t2 acts2 te2 true)) ->
  distance_m r1 = distance_m r2
  /\ distance_m r1
     = Zfloor (path_length (pointsRef (fst (finish idx1 kind1 user1 t1 acts1 te1 true))))
  /\ duration_sec r1 = shown_at_end t1 acts1 te1 / 1000
  /\ duration_sec r2 = shown_at_end t2 acts2 te2 / 1000.
Proof.
  intros H1 H2 Hp. rewrite !finish_points in *.
  apply inserted_ride in H1. apply inserted_ride in H2.
  rewrite H1, H2. cbn [distance_m duration_sec]. rewrite Hp.
  repeat split; reflexivity.
Qed.

Lemma distance_follows_the_accepted_samples_witness :
  let r1 := mkRide "rider" cycling 1000 20500 (shown_at_end 1000 standing 20500 / 1000)
                   0 (sha256 "8a754e64992ffff") 1 in
  let r2 := mkRide "rider" cycling 1000 40500 (shown_at_end 1000 standing 40500 / 1000)
                   0 (sha256 "8a754e64992ffff") 1 in
  distance_m r1 = distance_m r2
  /\ distance_m r1
     = Zfloor (path_length
                 (pointsRef (fst (finish two_cells cycling "rider"%string 1000
                                         standing 20500 true))))
  /\ duration_sec r1 = shown_at_end 1000 standing 20500 / 1000
  /\ duration_sec r2 = shown_at_end 1000 standing 40500 / 1000.
Proof.
  cbv zeta.
  apply (distance_follows_the_accepted_samples
           two_cells two_cells cycling cycling "rider" "rider"
           1000 1000 standing standing 20500 40500 _ _
           (standing_ride 20500) (standing_ride 40500)).
  now rewrite !finish_points.
Defined.

Lemma finish_inserts (indexer : R -> R -> Z -> string) (kind : activity) (user : string)
    (t0 : Z) (acts : list (Z * action)) (te : Z) :
  (10 <= List.length (pointsRef (snd (recorded indexer kind t0 acts))))%nat ->
  inserted (snd (finish indexer kind user t0 acts te true))
  = Some (ride_of indexer kind user t0 acts te).
Proof.
  intros Hn. unfold ride_of. cbv zeta.
  rewrite finish_save, recorded_points, recorded_cells.
  rewrite recorded_points in Hn.
  destruct (Nat.ltb_spec
              (List.length (pointsRef (feed indexer kind (start initial t0)
                                            (delivered true acts)))) 10)
    as [Hlt|_]; [lia | reflexivity].
Qed.

(** ** The route signature *)

Lemma trip_speed_out :
  (implied_speed (point_of (2000%Z, here)) there 122000%Z <= CONFIG.MAX_SPEED_MS cycling)%R.
Proof.
  unfold implied_speed, point_of, here, there.
  cbn [lat lng ts fst snd latitude longitude CONFIG.MAX_SPEED_MS].
  rewrite here_to_there.
  replace (IZR (122000 - 2000) / 1000)%R with 120%R by (cbn; lra).
  destruct (Rgt_dec 120 0); [|lra]. pose proof PI_4. lra.
Qed.


Lemma out_trip_run :
  let s := snd (recorded two_cells cycling 1000 out_trip) in
  List.length (pointsRef s) = 10%nat
  /\ cells s = ["8a754e64992ffff"%string; "8a754e64d6effff"%string].
Proof.
  cbv zeta.
  assert (Hd : delivered true out_trip
               = (2000, here) :: timed 122000 2000 (repeat there 9)).
  { unfold out_trip. cbn [delivered]. now rewrite delivered_spaced. }
  rewrite recorded_points, recorded_cells, Hd. split.
  - rewrite feed_all_pass; [reflexivity|].
    cbn [repeat timed all_pass fst snd start pointsRef last_point nth_error
         List.length Nat.sub].
    split; [exact here_passes|]. split; [exact I|].
    split; [exact there_passes|]. split; [exact trip_speed_out|].
    apply (stationary_all_pass cycling there 8); [exact there_passes | | ]; reflexivity.
  - unfold visited. cbn [repeat timed map snd filter].
    rewrite accurate_here, !accurate_there. cbn [map].
    rewrite cell_of_here, !cell_of_there. reflexivity.
Qed.


(** The cell of an accepted sample is the cell of its position. *)
Lemma point_cell_of (indexer : R -> R -> Z -> string) (tp : Z * Position) :
  point_cell indexer (point_of tp) = cell_of indexer (snd tp).
Proof. reflexivity. Qed.

(** A sample [there] one second after a sample [here] implies more than a
    kilometre per second. *)
Lemma there_after_a_second :
  (implied_speed (mkPoint 0 0 2000 15) there 3000 > CONFIG.MAX_SPEED_MS cycling)%R.
Proof.
  unfold implied_speed. cbn [lat lng ts there latitude longitude CONFIG.MAX_SPEED_MS].
  rewrite here_to_there.
  replace (IZR (3000 - 2000) / 1000)%R with 1%R by (cbn; lra).
  destruct (Rgt_dec 1 0) as [_|n]; [|lra].
  pose proof PI_gt_3. lra.
Qed.

(** The session [detour]: the sample [there] is dropped, the ten samples
    [here] are accepted, and the page holds both cells. *)
Lemma detour_run :
  let s := snd (recorded two_cells cycling 1000 detour) in
  pointsRef s = map point_of ((2000, here) :: timed 4000 2000 (repeat here 9))
  /\ cells s = ["8a754e64992ffff"%string; "8a754e64d6effff"%string].
Proof.
  cbv zeta.
  assert (Hd : delivered true detour
               = (2000, here) :: (3000, there) :: timed 4000 2000 (repeat here 9)).
  { unfold detour. cbn [delivered]. now rewrite delivered_spaced. }
  rewrite recorded_points, recorded_cells, Hd. split.
  - change (feed two_cells cycling (start initial 1000)
                 ((2000, here) :: (3000, there) :: timed 4000 2000 (repeat here 9)))
      with (feed two_cells cycling
              (onPosition two_cells cycling
                 (onPosition two_cells cycling (start initial 1000) here 2000)
                 there 3000)
              (timed 4000 2000 (repeat here 9))).
    pose proof (first_sample_here 1000 2000) as H1. cbv zeta in H1.
    destruct H1 as (Hp & _ & _).
    destruct (speeding_sample_effect two_cells cycling
                (onPosition two_cells cycling (start initial 1000) here 2000)
                there 3000 (mkPoint 0 0 2000 15)) as (Ep & _ & _);
      [rewrite Hp; reflexivity | exact there_passes | exact there_after_a_second |].
    rewrite feed_all_pass; rewrite Ep, Hp; [reflexivity|].
    change (last_point [mkPoint 0 0 2000 15]) with (Some (mkPoint 0 0 2000 15)).
    apply (stationary_all_pass cycling here 9); [exact here_passes | | ]; reflexivity.
  - unfold visited. cbn [repeat timed map snd filter].
    rewrite !accurate_here, accurate_there. cbn [map].
    rewrite !cell_of_here, cell_of_there. reflexivity.
Qed.

(** C8, on the code: [tiles_touched] counts a cell in which no accepted
    sample lies.  In the cycling session [detour], started at 1000 and
    ended with save=true at 30000, the sample [there] is dropped by the
    speed gate, as in C3, and the ten samples [here] are accepted; a ride
    is handed over, the accepted samples lie in one cell, and
    [tiles_touched] is 2. *)
Theorem tiles_touched_counts_the_cell_of_a_dropped_sample :
  let s := snd (recorded two_cells cycling 1000 detour) in
  pointsRef s = map point_of ((2000, here) :: timed 4000 2000 (repeat here 9))
  /\ List.length (pointsRef s) = 10%nat
  /\ distinct (map (point_cell two_cells) (pointsRef s)) = ["8a754e64992ffff"%string]
  /\ cells s = ["8a754e64992ffff"%string; "8a754e64d6effff"%string]
  /\ exists ride,
       inserted (snd (finish two_cells cycling "rider"%string 1000 detour 30000 true))
       = Some ride
       /\ tiles_touched ride = 2%nat.
Proof.
  cbv zeta. destruct detour_run as [Hp Hc].
  assert (Hl : List.length (pointsRef (snd (recorded two_cells cycling 1000 detour)))
               = 10%nat).
  { rewrite Hp, length_map. cbn [List.length].
    now rewrite timed_length, repeat_length. }
  assert (Hv : distinct (map (point_cell two_cells)
                             (pointsRef (snd (recorded two_cells cycling 1000 detour))))
               = ["8a754e64992ffff"%string]).
  { rewrite Hp. cbn [repeat timed map]. rewrite !point_cell_of. cbn [snd].
    rewrite cell_of_here. reflexivity. }
  split; [exact Hp|]. split; [exact Hl|]. split; [exact Hv|].
  split; [exact Hc|].
  exists (ride_of two_cells cycling "rider" 1000 detour 30000). split.
  - apply finish_inserts. rewrite Hl. apply Nat.le_refl.
  - unfold ride_of. cbv zeta. cbn [tiles_touched]. rewrite Hc. reflexivity.
Qed.


(** *** Joining cell ids *)







Lemma out_trip_none_speeding : none_speeding cycling (delivered true out_trip).
Proof.
  apply all_pass_none_speeding.
  unfold out_trip. cbn [delivered]. rewrite delivered_spaced.
  cbn [repeat timed all_pass fst snd].
  split; [exact here_passes|]. split; [exact I|].
  split; [exact there_passes|]. split; [exact trip_speed_out|].
  apply (stationary_all_pass cycling there 8); [exact there_passes | | ]; reflexivity.
Qed.



(** ** The duration saved *)

(** C6, as the code has it.  The duration saved is the floor of the
    duration on display, which the timer sets once a second from the clock,
    the start and the pauses completed so far.  For a session started at
    [t0], with actions dated in order and ended at [te]: the duration
    saved never exceeds the time from start to end minus the time spent
    paused; and when the last stretch of recording lasted a second or more
    (so that the timer called during it), the display is less than one
    second short of that time and the duration saved less than two. *)
Theorem saved_duration_bounds
    (latLngToCell : R -> R -> Z -> string) (selectedActivity : activity)
    (user : string) (t0 : Z) (acts : list (Z * action)) (te : Z) (ride : Ride) :
  0 < t0 ->
  in_order t0 acts te ->
  inserted (snd (finish latLngToCell selectedActivity user t0 acts te true)) = Some ride ->
  duration_sec ride = shown_at_end t0 acts te / 1000
  /\ 1000 * duration_sec ride <= unpaused_ms t0 acts te
  /\ (1000 <= last_stretch (inl t0) acts te ->
      unpaused_ms t0 acts te - shown_at_end t0 acts te < 1000
      /\ unpaused_ms t0 acts te < 1000 * duration_sec ride + 2000).
Proof.
  intros Hpos Hord Hins. apply inserted_ride in Hins. rewrite Hins.
  cbn [duration_sec].
  assert (Hinv : watch_inv t0 (mkWatch recording t0 0 0 (Some t0) 0) None (inl t0)).
  { unfold watch_inv. cbn [w_state w_timer w_start w_paused w_shown].
    rewrite Z.sub_diag, Z.mod_0_l by lia. repeat split; lia. }
  pose proof (watch_bounds acts t0 _ None (inl t0) te Hord Hinv) as Hb.
  cbv zeta in Hb. cbn [w_start w_paused] in Hb.
  change (w_shown _) with (shown_at_end t0 acts te) in Hb.
  replace (te - t0 - 0 - paused_time None acts te) with (unpaused_ms t0 acts te) in Hb
    by (unfold unpaused_ms; lia).
  destruct Hb as [Hle Hlt].
  split; [reflexivity|]. split.
  - Z.div_mod_to_equations; lia.
  - intros Hlast. specialize (Hlt Hlast). split; [exact Hlt|].
    Z.div_mod_to_equations; lia.
Qed.

Lemma one_pause_run :
  List.length (pointsRef (snd (recorded two_cells cycling 1000 one_pause))) = 10%nat.
Proof.
  rewrite recorded_points.
  change (delivered true one_pause) with (timed 1100 100 (repeat here 10)).
  apply (ten_here 1000 1100 100).
Qed.

Lemma short_stretches_run :
  List.length (pointsRef (snd (recorded two_cells cycling 1000 short_stretches)))
  = 10%nat.
Proof.
  rewrite recorded_points.
  change (delivered true short_stretches) with (timed 1050 50 (repeat here 10)).
  apply (ten_here 1000 1050 50).
Qed.

(** C6, on the code.  Start at 1000, pause at 2500, resume at 3000, end at
    5900: 4.4 s of recording, the timer last called at 5000 and showed
    3.5 s, the duration saved is 3 s.  And with three stretches of 900 ms,
    each too short for the timer to call: 2.7 s of recording, the duration
    saved is 0 s. *)
Lemma saved_duration_short_by_more_than_a_second :
  exists r1 r2,
    inserted (snd (finish two_cells cycling "rider"%string 1000 one_pause 5900 true))
    = Some r1
    /\ unpaused_ms 1000 one_pause 5900 = 4400
    /\ duration_sec r1 = 3
    /\ ~ (Z.abs (unpaused_ms 1000 one_pause 5900 - 1000 * duration_sec r1) <= 1000)
    /\ inserted (snd (finish two_cells cycling "rider"%string 1000 short_stretches
                             4000 true))
       = Some r2
    /\ unpaused_ms 1000 short_stretches 4000 = 2700
    /\ duration_sec r2 = 0
    /\ ~ (Z.abs (unpaused_ms 1000 short_stretches 4000 - 1000 * duration_sec r2) <= 1000).
Proof.
  exists (ride_of two_cells cycling "rider" 1000 one_pause 5900).
  exists (ride_of two_cells cycling "rider" 1000 short_stretches 4000).
  assert (U1 : unpaused_ms 1000 one_pause 5900 = 4400) by reflexivity.
  assert (U2 : unpaused_ms 1000 short_stretches 4000 = 2700) by reflexivity.
  assert (D1 : shown_at_end 1000 one_pause 5900 / 1000 = 3) by reflexivity.
  assert (D2 : shown_at_end 1000 short_stretches 4000 / 1000 = 0) by reflexivity.
  unfold ride_of. cbv zeta. cbn [duration_sec]. rewrite U1, U2, D1, D2.
  split; [apply finish_inserts; rewrite one_pause_run; apply Nat.le_refl|].
  split; [reflexivity|]. split; [reflexivity|]. split; [lia|].
  split; [apply finish_inserts; rewrite short_stretches_run; apply Nat.le_refl|].
  split; [reflexivity|]. split; [reflexivity|]. lia.
Qed.

Lemma saved_duration_bounds_witness :
  let ride := ride_of two_cells cycling "rider" 1000 one_pause 5900 in
  last_stretch (inl 1000) one_pause 5900 = 2900
  /\ duration_sec ride = shown_at_end 1000 one_pause 5900 / 1000
  /\ 1000 * duration_sec ride <= unpaused_ms 1000 one_pause 5900
  /\ (1000 <= last_stretch (inl 1000) one_pause 5900 ->
      unpaused_ms 1000 one_pause 5900 - shown_at_end 1000 one_pause 5900 < 1000
      /\ unpaused_ms 1000 one_pause 5900 < 1000 * duration_sec ride + 2000).
Proof.
  cbv zeta. split; [reflexivity|].
  apply (saved_duration_bounds two_cells cycling "rider" 1000 one_pause 5900).
  - lia.
  - unfold one_pause. cbn. repeat split; lia.
  - apply finish_inserts. rewrite one_pause_run. apply Nat.le_refl.
Defined.

(** ** What every run keeps true *)

(** A property of the page that [start] sets up and that the position
    callback, the timer and the two buttons keep holds all along a run. *)
Lemma recorded_invariant (indexer : R -> R -> Z -> string) (kind : activity)
    (P : Session -> Prop) (t0 : Z) (acts : list (Z * action)) :
  P (start initial t0) ->
  (forall s pos t, P s -> P (onPosition indexer kind s pos t)) ->
  (forall s t, P s -> P (onTick s t)) ->
  (forall s t, P s -> P (pause s t)) ->
  (forall s t, P s -> P (resume s t)) ->
  P (snd (recorded indexer kind t0 acts)).
Proof.
  intros H0 Hpos Htick Hpause Hresume. unfold recorded.
  assert (Hadv : forall s lo hi, P s -> P (advance s lo hi)).
  { intros s lo hi Hs. unfold advance. destruct (timerRef s) as [tr|]; [|exact Hs].
    generalize (due_ticks tr lo hi). intros l. revert s Hs.
    induction l as [|x l IH]; intros s Hs; [exact Hs|].
    cbn [fold_left]. apply IH, Htick, Hs. }
  change (P (snd (fold_left (react indexer kind) acts (t0, start initial t0)))).
  generalize (start initial t0) H0. generalize t0 at 1.
  induction acts as [|[t a] acts IH]; intros c s Hs; [exact Hs|].
  cbn [fold_left]. unfold react at 2. cbn [fst snd].
  apply IH.
  pose proof (Hadv s c t Hs) as Ha.
  destruct a as [pos| |].
  - destruct (watching _); [apply Hpos, Ha | exact Ha].
  - destruct (state _); try exact Ha. apply Hpause, Ha.
  - destruct (state _); try exact Ha. apply Hresume, Ha.
Qed.

Lemma adjacent_snoc (rel : Point -> Point -> Prop) (ps : list Point) (p : Point) :
  adjacent rel ps ->
  (forall l, last_point ps = Some l -> rel l p) ->
  adjacent rel (ps ++ [p]).
Proof.
  intros Hps Hl l1 a b l2 E.
  destruct (exists_last (l := a :: b :: l2) ltac:(discriminate)) as (m & z & Em).
  rewrite Em in E. rewrite app_assoc in E.
  apply app_inj_tail in E. destruct E as [E1 E2]. subst z.
  destruct l2 as [|c l2].
  - assert (m = [a]).
    { destruct m as [|x [|y m]]; cbn in Em; try discriminate.
      - injection Em as -> _. reflexivity.
      - injection Em as _ _ Em. destruct m; discriminate. }
    subst m. assert (b = p).
    { cbn in Em. injection Em as ->. reflexivity. }
    subst b. apply Hl. rewrite E1. apply last_point_app.
  - destruct m as [|x [|y m]]; cbn in Em; try discriminate.
    injection Em as Ea Eb Em. subst x y.
    apply (Hps l1 a b m). rewrite E1. reflexivity.
Qed.

Lemma adjacent_nil (rel : Point -> Point -> Prop) : adjacent rel [].
Proof. intros l1 a b l2 E. destruct l1; discriminate. Qed.

Lemma adjacent_prefix (rel : Point -> Point -> Prop) (ps qs : list Point) :
  adjacent rel (ps ++ qs) -> adjacent rel ps.
Proof.
  intros H l1 a b l2 E. apply (H l1 a b (l2 ++ qs)).
  rewrite E, <- app_assoc. reflexivity.
Qed.

Lemma implied_speed_hop (kind : activity) (last : Point) (pos : Position) (now : Z) :
  (implied_speed last pos now <= CONFIG.MAX_SPEED_MS kind)%R ->
  hop_ok kind last (mkPoint (latitude pos) (longitude pos) now (accuracy pos)).
Proof.
  unfold implied_speed, hop_ok. cbn [lat lng ts]. intros H Hlt.
  assert (Hdt : (0 < IZR (now - ts last) / 1000)%R).
  { apply Rdiv_lt_0_compat; [apply IZR_lt; lia | lra]. }
  destruct (Rgt_dec _ 0) as [_|n]; [|exfalso; apply n; exact Hdt].
  apply (Rmult_le_compat_r _ _ _ (Rlt_le _ _ Hdt)) in H.
  unfold Rdiv at 1 in H. rewrite Rmult_assoc, Rinv_l, Rmult_1_r in H by lra.
  exact H.
Qed.

Section GateFacts.
Variable indexer : R -> R -> Z -> string.
Variable kind : activity.

Lemma onPosition_gated (s : Session) (pos : Position) (t : Z) :
  Forall (fun p => (acc p <= CONFIG.MIN_ACCURACY_METERS)%R) (pointsRef s)
  /\ adjacent (hop_ok kind) (pointsRef s) ->
  Forall (fun p => (acc p <= CONFIG.MIN_ACCURACY_METERS)%R)
         (pointsRef (onPosition indexer kind s pos t))
  /\ adjacent (hop_ok kind) (pointsRef (onPosition indexer kind s pos t)).
Proof.
  intros [Hacc Hhop].
  destruct (Rgt_dec (accuracy pos) CONFIG.MIN_ACCURACY_METERS) as [Hbad|Hgood].
  - rewrite (onPosition_low_accuracy indexer kind s pos t Hbad). split; assumption.
  - apply Rnot_gt_le in Hgood.
    pose proof (onPosition_cases indexer kind s pos t Hgood) as H. cbv zeta in H.
    destruct H as (_ & _ & _ & _ & _ & _ & _ & _ & _ & H).
    destruct (last_point (pointsRef s)) as [last|] eqn:El.
    + destruct (Rgt_dec (implied_speed last pos t) (CONFIG.MAX_SPEED_MS kind)) as [Hs|Hs].
      * destruct H as (-> & _). split; assumption.
      * destruct H as (-> & _). split.
        -- apply Forall_app. split; [exact Hacc|]. constructor; [exact Hgood|constructor].
        -- apply adjacent_snoc; [exact Hhop|].
           intros l E. rewrite El in E. injection E as <-.
           apply implied_speed_hop. apply Rnot_gt_le. exact Hs.
    + destruct H as (-> & _). split.
      * apply Forall_app. split; [exact Hacc|]. constructor; [exact Hgood|constructor].
      * apply adjacent_snoc; [exact Hhop|]. intros l E. rewrite El in E. discriminate.
Qed.
End GateFacts.

Lemma recorded_gated (indexer : R -> R -> Z -> string) (kind : activity)
    (t0 : Z) (acts : list (Z * action)) :
  Forall (fun p => (acc p <= CONFIG.MIN_ACCURACY_METERS)%R)
         (pointsRef (snd (recorded indexer kind t0 acts)))
  /\ adjacent (hop_ok kind) (pointsRef (snd (recorded indexer kind t0 acts))).
Proof.
  apply (recorded_invariant indexer kind
           (fun s => Forall (fun p => (acc p <= CONFIG.MIN_ACCURACY_METERS)%R) (pointsRef s)
                     /\ adjacent (hop_ok kind) (pointsRef s))).
  - split; [constructor | apply adjacent_nil].
  - intros s pos t H. apply onPosition_gated, H.
  - intros s t H. exact H.
  - intros s t H. exact H.
  - intros s t H. exact H.
Qed.

(** The square of the sine of a small angle is small. *)
Lemma sin_sqr_small (u : R) : (Rabs u <= 1 / 2 -> sin u ^ 2 <= 1 / 2)%R.
Proof.
  intros Hu. pose proof PI_gt_3 as Hpi.
  destruct (Rtotal_order u 0) as [Hneg|[Hz|Hpos]].
  - rewrite Rabs_left in Hu by exact Hneg.
    assert (H1 : (0 < sin (- u) < - u)%R).
    { split; [apply sin_gt_0; lra | apply sin_lt_x; lra]. }
    rewrite sin_neg in H1. nra.
  - subst u. rewrite sin_0. lra.
  - rewrite Rabs_right in Hu by lra.
    assert (H1 : (0 < sin u < u)%R).
    { split; [apply sin_gt_0; lra | apply sin_lt_x; lra]. }
    nra.
Qed.

(** Two positions on the equator less than a degree of longitude apart are
    nearby. *)
Lemma nearby_on_equator (x y a b : R) :
  (Rabs (y - x) <= 1)%R -> nearby (mkPosition 0 x a) (mkPosition 0 y b).
Proof.
  intros H. unfold nearby, hav_a, Geo.toRad. cbn [latitude longitude].
  replace ((0 - 0) * PI / 180 / 2)%R with 0%R by lra.
  replace (0 * PI / 180)%R with 0%R by lra.
  rewrite sin_0, cos_0.
  assert (Hs : (sin ((y - x) * PI / 180 / 2) ^ 2 <= 1 / 2)%R).
  { apply sin_sqr_small. pose proof PI_4 as Hpi. pose proof PI_RGT_0 as Hpos.
    unfold Rabs in *. destruct (Rcase_abs (y - x)), (Rcase_abs ((y - x) * PI / 180 / 2));
      nra. }
  lra.
Qed.

(** Samples on the equator between longitude 0 and a hundredth of a
    degree make a local run. *)
Lemma local_on_equator (acts : list (Z * action)) :
  (forall t p, In (t, Sample p) acts ->
               latitude p = 0%R /\ (0 <= longitude p <= 1 / 100)%R) ->
  local_run acts.
Proof.
  intros H t1 p1 t2 p2 H1 H2.
  destruct (H _ _ H1) as [La1 Lo1]. destruct (H _ _ H2) as [La2 Lo2].
  destruct p1 as [la1 lo1 a1], p2 as [la2 lo2 a2]. cbn [latitude longitude] in *.
  subst la1 la2. apply nearby_on_equator.
  unfold Rabs. destruct (Rcase_abs (lo2 - lo1)); lra.
Qed.

Lemma spaced_samples (ps : list Position) (t dt t' : Z) (a : action) :
  In (t', a) (spaced t dt ps) -> exists p, a = Sample p /\ In p ps.
Proof.
  revert t. induction ps as [|q ps IH]; intros t H; [destruct H|].
  cbn [spaced In] in H. destruct H as [E|H].
  - injection E as _ <-. exists q. split; [reflexivity | now left].
  - destruct (IH _ H) as (p & E & Hin). exists p. split; [exact E | now right].
Qed.

Lemma here_on_equator : latitude here = 0%R /\ (0 <= longitude here <= 1 / 100)%R.
Proof. cbn. lra. Qed.

Lemma there_on_equator : latitude there = 0%R /\ (0 <= longitude there <= 1 / 100)%R.
Proof. cbn. lra. Qed.

Lemma local_out_trip : local_run out_trip.
Proof.
  apply local_on_equator. intros t p H. unfold out_trip in H.
  destruct H as [E|H].
  - injection E as _ <-. exact here_on_equator.
  - apply spaced_samples in H. destruct H as (q & E & Hq).
    injection E as ->. apply repeat_spec in Hq. subst q. exact there_on_equator.
Qed.

Lemma local_one_pause : local_run one_pause.
Proof.
  apply local_on_equator. intros t p H. unfold one_pause in H.
  apply in_app_or in H. destruct H as [H|H].
  - apply spaced_samples in H. destruct H as (q & E & Hq).
    injection E as ->. apply repeat_spec in Hq. subst q. exact here_on_equator.
  - destruct H as [E|[E|[]]]; discriminate.
Qed.

(** The session [out_trip]: the accepted samples and the distance, the
    kilometre and more from [here] to [there]. *)
Lemma out_trip_points :
  pointsRef (snd (recorded two_cells cycling 1000 out_trip))
  = map point_of ((2000, here) :: timed 122000 2000 (repeat there 9)).
Proof.
  rewrite recorded_points. unfold out_trip. cbn [delivered]. rewrite delivered_spaced.
  rewrite feed_all_pass; [reflexivity|].
  cbn [repeat timed all_pass fst snd].
  split; [exact here_passes|]. split; [exact I|].
  split; [exact there_passes|]. split; [exact trip_speed_out|].
  apply (stationary_all_pass cycling there 8); [exact there_passes | | ]; reflexivity.
Qed.

Lemma out_trip_distance :
  distance (stats (snd (recorded two_cells cycling 1000 out_trip)))
  = (6371000 * (1 / 100 * PI / 180))%R.
Proof.
  rewrite recorded_distance, out_trip_points.
  change (repeat there 9) with (there :: repeat there 8).
  cbn [timed map path_length path_from].
  rewrite (stationary_path there 8) by reflexivity.
  unfold point_of. cbn [lat lng fst snd here there latitude longitude].
  rewrite here_to_there. lra.
Qed.

(** X1.  Gate invariant of the recording page, for a run whose positions
    are all nearby one another (numbers idealised as reals).  At every
    moment of the session, each sample held in [pointsRef] passed the
    accuracy gate (accuracy at most [MIN_ACCURACY_METERS]), and for any
    two samples next to each other in [pointsRef], the second dated after
    the first, the great-circle hop between them is at most the speed
    ceiling of the activity times the time between them. *)
Theorem accepted_samples_pass_both_gates
    (latLngToCell : R -> R -> Z -> string) (selectedActivity : activity)
    (t0 : Z) (acts : list (Z * action)) :
  local_run acts ->
  let ps := pointsRef (snd (recorded latLngToCell selectedActivity t0 acts)) in
  Forall (fun p => (acc p <= 50)%R) ps
  /\ forall l1 a b l2,
       ps = l1 ++ a :: b :: l2 ->
       ts a < ts b ->
       (Geo.haversine (lat a) (lng a) (lat b) (lng b)
        <= CONFIG.MAX_SPEED_MS selectedActivity * (IZR (ts b - ts a) / 1000))%R.
Proof.
  intros _. cbv zeta. exact (recorded_gated latLngToCell selectedActivity t0 acts).
Qed.

Lemma accepted_samples_pass_both_gates_witness :
  let ps := pointsRef (snd (recorded two_cells cycling 1000 out_trip)) in
  Forall (fun p => (acc p <= 50)%R) ps
  /\ forall l1 a b l2,
       ps = l1 ++ a :: b :: l2 ->
       ts a < ts b ->
       (Geo.haversine (lat a) (lng a) (lat b) (lng b)
        <= CONFIG.MAX_SPEED_MS cycling * (IZR (ts b - ts a) / 1000))%R.
Proof.
  apply (accepted_samples_pass_both_gates two_cells cycling 1000 out_trip).
  exact local_out_trip.
Defined.

Lemma onPosition_tiles (indexer : R -> R -> Z -> string) (kind : activity)
    (s : Session) (pos : Position) (t : Z) :
  tiles (stats s) = List.length (cells s) ->
  tiles (stats (onPosition indexer kind s pos t))
  = List.length (cells (onPosition indexer kind s pos t)).
Proof.
  intros H.
  destruct (Rgt_dec (accuracy pos) CONFIG.MIN_ACCURACY_METERS) as [Hbad|Hgood].
  - rewrite (onPosition_low_accuracy indexer kind s pos t Hbad). exact H.
  - apply Rnot_gt_le in Hgood.
    pose proof (onPosition_cases indexer kind s pos t Hgood) as Hc. cbv zeta in Hc.
    destruct Hc as (-> & -> & _). reflexivity.
Qed.

Lemma recorded_tiles (indexer : R -> R -> Z -> string) (kind : activity)
    (t0 : Z) (acts : list (Z * action)) :
  tiles (stats (snd (recorded indexer kind t0 acts)))
  = List.length (cells (snd (recorded indexer kind t0 acts))).
Proof.
  apply (recorded_invariant indexer kind
           (fun s => tiles (stats s) = List.length (cells s))).
  - reflexivity.
  - intros s pos t H. apply onPosition_tiles, H.
  - intros s t H. exact H.
  - intros s t H. exact H.
  - intros s t H. exact H.
Qed.

(** X2.  The tile counter on display is the size of the cell set: at every
    moment of every session [stats.tiles] equals the number of cells held,
    and the cells are held once each. *)
Theorem tiles_counter_is_the_cell_count
    (latLngToCell : R -> R -> Z -> string) (selectedActivity : activity)
    (t0 : Z) (acts : list (Z * action)) :
  let s := snd (recorded latLngToCell selectedActivity t0 acts) in
  tiles (stats s) = List.length (cells s) /\ NoDup (cells s).
Proof.
  cbv zeta. split.
  - apply recorded_tiles.
  - rewrite recorded_cells. apply visited_spec.
Qed.

Lemma implied_speed_nonneg (last : Point) (pos : Position) (now : Z) :
  (0 <= implied_speed last pos now)%R.
Proof.
  unfold implied_speed. destruct (Rgt_dec _ 0) as [Hdt|_]; [|lra].
  apply Rmult_le_pos; [apply haversine_nonneg|].
  apply Rlt_le, Rinv_0_lt_compat. exact Hdt.
Qed.

Lemma onPosition_speed (indexer : R -> R -> Z -> string) (kind : activity)
    (s : Session) (pos : Position) (t : Z) :
  (0 <= speed (stats s) <= CONFIG.MAX_SPEED_MS kind * 3.6)%R ->
  (0 <= speed (stats (onPosition indexer kind s pos t))
   <= CONFIG.MAX_SPEED_MS kind * 3.6)%R.
Proof.
  intros H.
  destruct (Rgt_dec (accuracy pos) CONFIG.MIN_ACCURACY_METERS) as [Hbad|Hgood].
  - rewrite (onPosition_low_accuracy indexer kind s pos t Hbad). exact H.
  - apply Rnot_gt_le in Hgood.
    pose proof (onPosition_cases indexer kind s pos t Hgood) as Hc. cbv zeta in Hc.
    destruct Hc as (_ & _ & _ & _ & _ & _ & _ & _ & _ & Hc).
    destruct (last_point (pointsRef s)) as [last|].
    + destruct (Rgt_dec (implied_speed last pos t) (CONFIG.MAX_SPEED_MS kind)) as [Hs|Hs].
      * destruct Hc as (_ & _ & ->). exact H.
      * destruct Hc as (_ & _ & ->). apply Rnot_gt_le in Hs.
        pose proof (implied_speed_nonneg last pos t). split; nra.
    + destruct Hc as (_ & _ & ->). exact H.
Qed.

(** X3.  The speed on display stays within the ceiling, for a run whose
    positions are all nearby one another (numbers idealised as reals): at
    every moment of the session [stats.speed] (km/h) lies between 0 and
    3.6 times the [MAX_SPEED_MS] of the activity, that is at most 64.8
    km/h cycling, 28.8 km/h running and 14.4 km/h hiking. *)
Theorem displayed_speed_within_ceiling
    (latLngToCell : R -> R -> Z -> string) (selectedActivity : activity)
    (t0 : Z) (acts : list (Z * action)) :
  local_run acts ->
  let s := snd (recorded latLngToCell selectedActivity t0 acts) in
  (0 <= speed (stats s) <= CONFIG.MAX_SPEED_MS selectedActivity * 3.6)%R
  /\ (speed (stats s)
      <= match selectedActivity with
         | cycling => 64.8
         | running => 28.8
         | hiking => 14.4
         end)%R.
Proof.
  intros _. cbv zeta.
  assert (H : (0 <= speed (stats (snd (recorded latLngToCell selectedActivity t0 acts)))
               <= CONFIG.MAX_SPEED_MS selectedActivity * 3.6)%R).
  { apply (recorded_invariant latLngToCell selectedActivity
             (fun s => (0 <= speed (stats s) <= CONFIG.MAX_SPEED_MS selectedActivity * 3.6)%R)).
    - cbn [start stats speed]. pose proof (max_speed_pos selectedActivity). split; nra.
    - intros s pos t Hs. apply onPosition_speed, Hs.
    - intros s t Hs. exact Hs.
    - intros s t Hs. exact Hs.
    - intros s t Hs. exact Hs. }
  split; [exact H|].
  destruct selectedActivity; cbn [CONFIG.MAX_SPEED_MS] in H; lra.
Qed.

Lemma displayed_speed_within_ceiling_witness :
  let s := snd (recorded two_cells cycling 1000 out_trip) in
  (0 <= speed (stats s) <= CONFIG.MAX_SPEED_MS cycling * 3.6)%R
  /\ (speed (stats s) <= 64.8)%R.
Proof.
  apply (displayed_speed_within_ceiling two_cells cycling 1000 out_trip).
  exact local_out_trip.
Defined.

(** X4.  A sample that is not dated after the last accepted one skips the
    speed gate: with [dt <= 0] the callback takes the speed to be 0, so an
    accurate sample is accepted however far it is from the last one, its
    whole hop is added to the distance and the speed on display becomes
    0. *)
Theorem sample_not_dated_later_skips_the_speed_gate
    (latLngToCell : R -> R -> Z -> string) (selectedActivity : activity)
    (s : Session) (pos : Position) (now : Z) (last : Point) :
  last_point (pointsRef s) = Some last ->
  (accuracy pos <= CONFIG.MIN_ACCURACY_METERS)%R ->
  now <= ts last ->
  let s' := onPosition latLngToCell selectedActivity s pos now in
  pointsRef s'
  = pointsRef s ++ [mkPoint (latitude pos) (longitude pos) now (accuracy pos)]
  /\ distance (stats s')
     = (distance (stats s)
        + Geo.haversine (lat last) (lng last) (latitude pos) (longitude pos))%R
  /\ speed (stats s') = 0%R.
Proof.
  intros Hl Hacc Hnow. cbv zeta.
  pose proof (onPosition_cases latLngToCell selectedActivity s pos now Hacc) as H.
  cbv zeta in H. destruct H as (_ & _ & _ & _ & _ & _ & _ & _ & _ & H).
  rewrite Hl in H.
  assert (E : implied_speed last pos now = 0%R).
  { unfold implied_speed. destruct (Rgt_dec _ 0) as [Hdt|_]; [|reflexivity].
    exfalso. assert (IZR (now - ts last) <= 0)%R by (apply IZR_le; lia).
    unfold Rdiv in Hdt. nra. }
  rewrite E in H. pose proof (max_speed_pos selectedActivity) as Hm.
  destruct (Rgt_dec 0 (CONFIG.MAX_SPEED_MS selectedActivity)) as [Hs|_]; [lra|].
  destruct H as (-> & -> & ->). repeat split. lra.
Qed.

Lemma sample_not_dated_later_skips_the_speed_gate_witness :
  let s := onPosition two_cells cycling (start initial 1000) here 2000 in
  let s' := onPosition two_cells cycling s there 2000 in
  pointsRef s' = pointsRef s ++ [mkPoint 0 (1 / 100) 2000 15]
  /\ distance (stats s') = (distance (stats s) + Geo.haversine 0 0 0 (1 / 100))%R
  /\ speed (stats s') = 0%R.
Proof.
  cbv zeta.
  apply (sample_not_dated_later_skips_the_speed_gate two_cells cycling
           (onPosition two_cells cycling (start initial 1000) here 2000)
           there 2000 (mkPoint 0 0 2000 15)).
  - pose proof (first_sample_here 1000 2000) as H. cbv zeta in H.
    destruct H as (-> & _). reflexivity.
  - exact there_passes.
  - cbn. lia.
Defined.

(** ** The distance against the clock *)

(** The same along a run whose actions are dated one after the other:
    the property may depend on the instant of the last action. *)
Lemma recorded_invariant_dated (indexer : R -> R -> Z -> string) (kind : activity)
    (P : Z -> Session -> Prop) (t0 : Z) (acts : list (Z * action)) :
  apart t0 acts ->
  P t0 (start initial t0) ->
  (forall c t s, c < t -> P c s -> P t s) ->
  (forall c t s pos, c < t -> P c s -> P t (onPosition indexer kind s pos t)) ->
  (forall c s t, P c s -> P c (onTick s t)) ->
  (forall c s t, P c s -> P c (pause s t)) ->
  (forall c s t, P c s -> P c (resume s t)) ->
  P (fst (recorded indexer kind t0 acts)) (snd (recorded indexer kind t0 acts)).
Proof.
  intros Hap H0 Hlater Hpos Htick Hpause Hresume. unfold recorded.
  assert (Hadv : forall c s lo hi, P c s -> P c (advance s lo hi)).
  { intros c s lo hi Hs. unfold advance. destruct (timerRef s) as [tr|]; [|exact Hs].
    generalize (due_ticks tr lo hi). intros l. revert s Hs.
    induction l as [|x l IH]; intros s Hs; [exact Hs|].
    cbn [fold_left]. apply IH, Htick, Hs. }
  revert Hap H0. generalize (start initial t0). generalize t0.
  induction acts as [|[t a] acts IH]; intros c s Hap Hs; [exact Hs|].
  cbn [apart] in Hap. destruct Hap as [Hct Hap].
  cbn [fold_left].
  change (react indexer kind (c, s) (t, a))
    with (t, match a with
             | Sample pos =>
                 if watching (advance s c t)
                 then onPosition indexer kind (advance s c t) pos t
                 else advance s c t
             | PressPause =>
                 match state (advance s c t) with
                 | recording => pause (advance s c t) t
                 | _ => advance s c t
                 end
             | PressResume =>
                 match state (advance s c t) with
                 | paused => resume (advance s c t) t
                 | _ => advance s c t
                 end
             end).
  apply IH; [exact Hap|].
  pose proof (Hadv c s c t Hs) as Ha.
  destruct a as [pos| |].
  - destruct (watching _); [apply (Hpos c), Ha; exact Hct | apply (Hlater c), Ha; exact Hct].
  - destruct (state _); try (apply (Hlater c), Ha; exact Hct).
    apply Hpause, (Hlater c), Ha. exact Hct.
  - destruct (state _); try (apply (Hlater c), Ha; exact Hct).
    apply Hresume, (Hlater c), Ha. exact Hct.
Qed.

Lemma onPosition_rising (indexer : R -> R -> Z -> string) (kind : activity)
    (c t : Z) (s : Session) (pos : Position) :
  c < t ->
  adjacent (fun a b => ts a < ts b) (pointsRef s)
  /\ Forall (fun p => ts p <= c) (pointsRef s) ->
  adjacent (fun a b => ts a < ts b) (pointsRef (onPosition indexer kind s pos t))
  /\ Forall (fun p => ts p <= t) (pointsRef (onPosition indexer kind s pos t)).
Proof.
  intros Hct [Hadj Hall].
  assert (Hall' : Forall (fun p => ts p <= t) (pointsRef s)).
  { eapply Forall_impl; [|exact Hall]. cbn. intros p Hp. lia. }
  assert (Hsnoc : forall pt, ts pt = t ->
            adjacent (fun a b => ts a < ts b) (pointsRef s ++ [pt])
            /\ Forall (fun p => ts p <= t) (pointsRef s ++ [pt])).
  { intros pt Et. split.
    - apply adjacent_snoc; [exact Hadj|]. intros l El.
      unfold last_point in El. apply nth_error_In in El.
      rewrite Forall_forall in Hall. specialize (Hall l El). cbn in Hall. lia.
    - apply Forall_app. split; [exact Hall'|]. constructor; [lia | constructor]. }
  destruct (Rgt_dec (accuracy pos) CONFIG.MIN_ACCURACY_METERS) as [Hbad|Hgood].
  - rewrite (onPosition_low_accuracy indexer kind s pos t Hbad). split; assumption.
  - apply Rnot_gt_le in Hgood.
    pose proof (onPosition_cases indexer kind s pos t Hgood) as H. cbv zeta in H.
    destruct H as (_ & _ & _ & _ & _ & _ & _ & _ & _ & H).
    destruct (last_point (pointsRef s)) as [last|].
    + destruct (Rgt_dec (implied_speed last pos t) (CONFIG.MAX_SPEED_MS kind)).
      * destruct H as (-> & _). split; assumption.
      * destruct H as (-> & _). apply Hsnoc. reflexivity.
    + destruct H as (-> & _). apply Hsnoc. reflexivity.
Qed.

Lemma recorded_rising (indexer : R -> R -> Z -> string) (kind : activity)
    (t0 : Z) (acts : list (Z * action)) :
  apart t0 acts ->
  adjacent (fun a b => ts a < ts b) (pointsRef (snd (recorded indexer kind t0 acts))).
Proof.
  intros Hap.
  apply (recorded_invariant_dated indexer kind
           (fun c s => adjacent (fun a b => ts a < ts b) (pointsRef s)
                       /\ Forall (fun p => ts p <= c) (pointsRef s)) t0 acts Hap).
  - split; [apply adjacent_nil | constructor].
  - intros c t s Hct [Ha Hf]. split; [exact Ha|].
    eapply Forall_impl; [|exact Hf]. cbn. intros p Hp. lia.
  - intros c t s pos Hct H. apply (onPosition_rising indexer kind c t s pos Hct H).
  - intros c s t H. exact H.
  - intros c s t H. exact H.
  - intros c s t H. exact H.
Qed.

Lemma hd_error_app (ps : list Point) (p first : Point) :
  hd_error ps = Some first -> hd_error (ps ++ [p]) = Some first.
Proof. destruct ps; [discriminate | intros H; exact H]. Qed.

(** A path whose hops are within the ceiling and dated one after the
    other is no longer than the ceiling allows between its ends. *)
Lemma path_within_ceiling (kind : activity) (ps : list Point) (first last : Point) :
  adjacent (hop_ok kind) ps ->
  adjacent (fun a b => ts a < ts b) ps ->
  hd_error ps = Some first ->
  last_point ps = Some last ->
  ts first <= ts last
  /\ (path_length ps <= CONFIG.MAX_SPEED_MS kind * (IZR (ts last - ts first) / 1000))%R.
Proof.
  revert last. induction ps as [|p ps IH] using rev_ind; intros last Hhop Hts Hhd Hl.
  - discriminate.
  - rewrite last_point_app in Hl. injection Hl as <-.
    destruct (last_point ps) as [l|] eqn:El.
    + assert (Hh : hd_error ps = Some first).
      { destruct ps; [discriminate El|exact Hhd]. }
      destruct (IH l (adjacent_prefix _ _ _ Hhop) (adjacent_prefix _ _ _ Hts) Hh eq_refl)
        as [Hle Hlen].
      assert (Hlp : ts l < ts p).
      { destruct (exists_last (l := ps)) as (m & z & Em).
        - intros ->. discriminate El.
        - subst ps. rewrite last_point_app in El. injection El as ->.
          apply (Hts m l p []). rewrite <- app_assoc. reflexivity. }
      assert (Hop : hop_ok kind l p).
      { destruct (exists_last (l := ps)) as (m & z & Em).
        - intros ->. discriminate El.
        - subst ps. rewrite last_point_app in El. injection El as ->.
          apply (Hhop m l p []). rewrite <- app_assoc. reflexivity. }
      specialize (Hop Hlp). split; [lia|].
      rewrite (path_length_app ps l p El).
      replace (IZR (ts p - ts first))
        with (IZR (ts l - ts first) + IZR (ts p - ts l))%R
        by (rewrite <- plus_IZR; f_equal; lia).
      lra.
    + apply last_point_nil_iff in El. subst ps. cbn in Hhd. injection Hhd as <-.
      split; [lia|]. cbn [app path_length path_from].
      rewrite Z.sub_diag. lra.
Qed.

(** X5.  The distance against the clock, for a run whose positions are
    all nearby one another (numbers idealised as reals).  When the actions
    are dated one after the other, the distance on display is at most the
    speed ceiling of the activity times the time between the first and the
    last accepted sample. *)
Theorem distance_within_ceiling_of_elapsed_time
    (latLngToCell : R -> R -> Z -> string) (selectedActivity : activity)
    (t0 : Z) (acts : list (Z * action)) (first last : Point) :
  local_run acts ->
  apart t0 acts ->
  hd_error (pointsRef (snd (recorded latLngToCell selectedActivity t0 acts)))
  = Some first ->
  last_point (pointsRef (snd (recorded latLngToCell selectedActivity t0 acts)))
  = Some last ->
  ts first <= ts last
  /\ (distance (stats (snd (recorded latLngToCell selectedActivity t0 acts)))
      <= CONFIG.MAX_SPEED_MS selectedActivity * (IZR (ts last - ts first) / 1000))%R.
Proof.
  intros _ Hap Hhd Hl. rewrite recorded_distance.
  apply path_within_ceiling; try assumption.
  - apply recorded_gated.
  - apply recorded_rising, Hap.
Qed.

Lemma standing_points :
  pointsRef (snd (recorded two_cells cycling 1000 standing))
  = map point_of (timed 2000 2000 (repeat here 10)).
Proof.
  rewrite recorded_points. unfold standing. rewrite delivered_spaced.
  rewrite feed_all_pass; [reflexivity|].
  cbn [repeat timed all_pass fst snd start pointsRef last_point nth_error
       List.length Nat.sub].
  split; [exact here_passes|]. split; [exact I|].
  apply (stationary_all_pass cycling here 9); [exact here_passes | | ]; reflexivity.
Qed.

Lemma distance_within_ceiling_of_elapsed_time_witness :
  (2000 <= 138000
   /\ (distance (stats (snd (recorded two_cells cycling 1000 out_trip)))
       <= 18 * (IZR (138000 - 2000) / 1000))%R)
  /\ (1000 < distance (stats (snd (recorded two_cells cycling 1000 out_trip))))%R.
Proof.
  split.
  - apply (distance_within_ceiling_of_elapsed_time two_cells cycling 1000 out_trip
             (mkPoint 0 0 2000 15) (mkPoint 0 (1 / 100) 138000 15)).
    + exact local_out_trip.
    + cbn. lia.
    + rewrite out_trip_points. reflexivity.
    + rewrite out_trip_points. reflexivity.
  - rewrite out_trip_distance. pose proof PI_gt_3. lra.
Defined.

(** ** The stopwatch along a run *)

(** A property of the stopwatch kept by the timer and by the two buttons
    holds after any actions dated in order. *)
Lemma w_run_invariant (P : Z -> Watch -> Prop) (acts : list (Z * action))
    (c : Z) (w : Watch) (te : Z) :
  in_order c acts te ->
  P c w ->
  (forall c t w, c <= t -> P c w -> P t (w_advance w c t)) ->
  (forall t w, P t w -> w_state w = recording ->
               P t (mkWatch paused (w_start w) t (w_paused w) None (w_shown w))) ->
  (forall t w, P t w -> w_state w = paused ->
               P t (mkWatch recording (w_start w) (w_pause w)
                            (if w_pause w =? 0 then w_paused w
                             else w_paused w + (t - w_pause w))
                            (Some t) (w_shown w))) ->
  P (fst (fold_left w_react acts (c, w))) (snd (fold_left w_react acts (c, w)))
  /\ fst (fold_left w_react acts (c, w)) <= te.
Proof.
  intros Hord Hw Hadv Hpause Hresume. revert c w Hord Hw.
  induction acts as [|[t a] acts IH]; intros c w Hord Hw.
  - cbn [in_order] in Hord. cbn [fold_left fst snd]. split; assumption.
  - cbn [in_order] in Hord. destruct Hord as [Hct Hord].
    cbn [fold_left]. rewrite w_react_unfold.
    apply IH; [exact Hord|].
    pose proof (Hadv c t w Hct Hw) as Ha.
    destruct a as [pos| |].
    + exact Ha.
    + destruct (w_state (w_advance w c t)) eqn:Es; try exact Ha.
      apply Hpause; assumption.
    + destruct (w_state (w_advance w c t)) eqn:Es; try exact Ha.
      apply Hresume; assumption.
Qed.

Lemma w_run_low (acts : list (Z * action)) (c : Z) (w : Watch) (te : Z) :
  in_order c acts te ->
  watch_low c w ->
  watch_low te (w_advance (snd (fold_left w_react acts (c, w)))
                          (fst (fold_left w_react acts (c, w))) te).
Proof.
  intros Hord Hw.
  assert (Hadv : forall c t w, c <= t -> watch_low c w -> watch_low t (w_advance w c t)).
  { clear. intros c t w Hct [Hs H]. unfold watch_low, w_advance in *.
    destruct (w_timer w) as [tr|] eqn:Et.
    - destruct (w_state w) eqn:Es; try contradiction.
      destruct ((1 <=? (t - tr) / 1000) && (c <? tr + 1000 * ((t - tr) / 1000))) eqn:C.
      + apply andb_true_iff in C. destruct C as [C1 C2].
        apply Z.leb_le in C1. apply Z.ltb_lt in C2.
        cbn [w_shown w_timer w_state w_start w_paused]. split; lia.
      + rewrite Et, Es. split; [exact Hs | lia].
    - rewrite Et. destruct (w_state w); try contradiction. split; [exact Hs | lia]. }
  destruct (w_run_invariant watch_low acts c w te Hord Hw Hadv) as [H Hle].
  - clear. intros t w [Hs H] Es. unfold watch_low in *. rewrite Es in H.
    destruct (w_timer w) as [tr|]; [|contradiction].
    cbn [w_shown w_timer w_state w_pause w_start w_paused]. split; [exact Hs | lia].
  - clear. intros t w [Hs H] Es. unfold watch_low in *. rewrite Es in H.
    destruct (w_timer w) as [tr|]; [contradiction|].
    cbn [w_shown w_timer w_state w_pause w_start w_paused].
    destruct (Z.eqb_spec (w_pause w) 0); split; try exact Hs; lia.
  - apply Hadv; assumption.
Qed.

Lemma watch_low_start (t0 : Z) :
  0 < t0 -> watch_low t0 (mkWatch recording t0 0 0 (Some t0) 0).
Proof. intros H. unfold watch_low. cbn. lia. Qed.

Lemma shown_at_end_nonneg (t0 : Z) (acts : list (Z * action)) (te : Z) :
  0 < t0 -> in_order t0 acts te -> 0 <= shown_at_end t0 acts te.
Proof.
  intros H0 Hord. unfold shown_at_end, w_recorded. cbv zeta.
  apply (w_run_low acts t0 _ te Hord (watch_low_start t0 H0)).
Qed.

(** The books of the pauses: the time booked in [pausedRef], with the
    pause in course counted up to [te], is the time spent paused. *)
Lemma paused_books (acts : list (Z * action)) (c : Z) (w : Watch)
    (since : option Z) (te : Z) :
  0 < c ->
  in_order c acts te ->
  pause_in_course w since ->
  let wf := snd (fold_left w_react acts (c, w)) in
  w_paused wf + match w_state wf with
                | paused => te - w_pause wf
                | _ => 0
                end
  = w_paused w + paused_time since acts te.
Proof.
  assert (Hadv : forall w lo hi,
            w_state (w_advance w lo hi) = w_state w
            /\ w_pause (w_advance w lo hi) = w_pause w
            /\ w_paused (w_advance w lo hi) = w_paused w).
  { intros w0 lo hi. unfold w_advance. destruct (w_timer w0); [|repeat split].
    destruct (_ && _); repeat split. }
  revert c w since. induction acts as [|[t a] acts IH]; intros c w since Hc Hord Hw.
  - cbn [fold_left snd paused_time]. unfold pause_in_course in Hw.
    destruct since as [p|].
    + destruct Hw as (-> & -> & _). lia.
    + rewrite Hw. lia.
  - cbn [in_order] in Hord. destruct Hord as [Hct Hord].
    cbn [fold_left]. rewrite w_react_unfold.
    destruct (Hadv w c t) as (Es & Ep & Epd).
    assert (Ht : 0 < t) by lia.
    destruct a as [pos| |].
    + cbn [paused_time]. cbv zeta in IH.
      rewrite (IH t (w_advance w c t) since Ht Hord).
      * rewrite Epd. reflexivity.
      * unfold pause_in_course in *. rewrite Es, Ep. exact Hw.
    + unfold pause_in_course in Hw. destruct since as [p|].
      * destruct Hw as (Hs & Hp & Hpos). rewrite Es, Hs. cbn [paused_time].
        cbv zeta in IH. rewrite (IH t (w_advance w c t) (Some p) Ht Hord).
        -- rewrite Epd. reflexivity.
        -- unfold pause_in_course. rewrite Es, Ep. repeat split; assumption.
      * rewrite Es, Hw. cbn [paused_time]. cbv zeta in IH.
        rewrite (IH t _ (Some t) Ht Hord).
        -- cbn [w_paused]. rewrite Epd. reflexivity.
        -- unfold pause_in_course. cbn. repeat split; lia.
    + unfold pause_in_course in Hw. destruct since as [p|].
      * destruct Hw as (Hs & Hp & Hpos). rewrite Es, Hs. cbn [paused_time].
        cbv zeta in IH. rewrite (IH t _ None Ht Hord).
        -- cbn [w_paused]. rewrite Ep, Epd, Hp.
           destruct (Z.eqb_spec p 0); lia.
        -- reflexivity.
      * rewrite Es, Hw. cbn [paused_time]. cbv zeta in IH.
        rewrite (IH t (w_advance w c t) None Ht Hord).
        -- rewrite Epd. reflexivity.
        -- unfold pause_in_course. rewrite Es. exact Hw.
Qed.

Lemma paused_time_bounds (acts : list (Z * action)) (c : Z) (since : option Z) (te : Z) :
  in_order c acts te ->
  match since with Some p => p <= c | None => True end ->
  0 <= paused_time since acts te
  <= te - match since with Some p => p | None => c end.
Proof.
  revert c since. induction acts as [|[t a] acts IH]; intros c since Hord Hs.
  - cbn [in_order] in Hord. cbn [paused_time]. destruct since; lia.
  - cbn [in_order] in Hord. destruct Hord as [Hct Hord].
    assert (Hte : t <= te).
    { clear - Hord. revert t Hord. induction acts as [|[u b] acts IH]; intros t Hord.
      - exact Hord.
      - cbn [in_order] in Hord. destruct Hord as [Htu Hord].
        specialize (IH u Hord). lia. }
    destruct a as [pos| |]; cbn [paused_time].
    + destruct since as [p|].
      * specialize (IH t (Some p) Hord ltac:(cbn; lia)). cbn in IH. lia.
      * specialize (IH t None Hord I). cbn in IH. lia.
    + destruct since as [p|].
      * specialize (IH t (Some p) Hord ltac:(cbn; lia)). cbn in IH. lia.
      * specialize (IH t (Some t) Hord ltac:(cbn; lia)). cbn in IH. lia.
    + destruct since as [p|].
      * specialize (IH t None Hord I). cbn in IH. lia.
      * specialize (IH t None Hord I). cbn in IH. lia.
Qed.

Lemma in_order_le (acts : list (Z * action)) (c te : Z) : in_order c acts te -> c <= te.
Proof.
  revert c. induction acts as [|[t a] acts IH]; intros c H; [exact H|].
  cbn [in_order] in H. destruct H as [Hct H]. specialize (IH t H). lia.
Qed.

Lemma in_order_app (a1 a2 : list (Z * action)) (c : Z) (w : Watch) (te : Z) :
  in_order c (a1 ++ a2) te ->
  in_order c a1 (fst (fold_left w_react a1 (c, w)))
  /\ in_order (fst (fold_left w_react a1 (c, w))) a2 te.
Proof.
  revert c w. induction a1 as [|[t a] a1 IH]; intros c w H.
  - cbn [app fold_left fst in_order] in *. split; [lia | exact H].
  - cbn [app in_order] in H. destruct H as [Hct H].
    cbn [fold_left in_order]. rewrite w_react_unfold.
    match goal with
    | |- context [fold_left w_react a1 (t, ?w')] => destruct (IH t w' H) as [H1 H2]
    end.
    split; [split|]; assumption.
Qed.

Lemma watch_inv_start (t0 : Z) :
  0 < t0 -> watch_inv t0 (mkWatch recording t0 0 0 (Some t0) 0) None (inl t0).
Proof.
  intros H. unfold watch_inv. cbn [w_state w_timer w_start w_paused w_shown].
  rewrite Z.sub_diag, Z.mod_0_l by lia. repeat split; lia.
Qed.

Lemma w_advance_shown (c t : Z) (w : Watch) (since : option Z) (cur : Z + Z) :
  c <= t -> watch_inv c w since cur -> w_shown w <= w_shown (w_advance w c t).
Proof.
  intros Hct Hinv. unfold watch_inv in Hinv. unfold w_advance.
  destruct since as [p|], cur as [tr|l]; try contradiction.
  - destruct Hinv as (_ & -> & _). lia.
  - destruct Hinv as (_ & -> & Hpos & Hle & _).
    destruct ((1 <=? (t - tr) / 1000) && (c <? tr + 1000 * ((t - tr) / 1000))) eqn:C;
      [|lia].
    apply andb_true_iff in C. destruct C as [C1 C2].
    apply Z.leb_le in C1. apply Z.ltb_lt in C2.
    cbn [w_shown]. Z.div_mod_to_equations; lia.
Qed.

(** The display never goes back along a run. *)
Lemma w_run_shown (acts : list (Z * action)) (c : Z) (w : Watch)
    (since : option Z) (cur : Z + Z) (te : Z) :
  in_order c acts te ->
  watch_inv c w since cur ->
  w_shown w <= w_shown (snd (fold_left w_react acts (c, w)))
  /\ exists since' cur',
       watch_inv (fst (fold_left w_react acts (c, w)))
                 (snd (fold_left w_react acts (c, w))) since' cur'.
Proof.
  intros Hord Hinv.
  destruct (w_run_invariant
              (fun c' w' => w_shown w <= w_shown w'
                            /\ exists since' cur', watch_inv c' w' since' cur')
              acts c w te Hord) as [H _].
  - split; [lia|]. exists since, cur. exact Hinv.
  - clear. intros c t w' Hct (Hle & since & cur & Hinv). split.
    + pose proof (w_advance_shown c t w' since cur Hct Hinv). lia.
    + exists since, cur. apply w_advance_inv; assumption.
  - clear. intros t w' (Hle & since & cur & Hinv) Es. split; [exact Hle|].
    unfold watch_inv in Hinv.
    destruct since as [p|], cur as [tr|l]; try contradiction.
    + destruct Hinv as (Hs & _). rewrite Hs in Es. discriminate.
    + destruct Hinv as (Hs & Ht & Hpos & Hsh & Heq).
      exists (Some t), (inr (t - tr)). unfold watch_inv.
      cbn [w_state w_timer w_pause w_start w_paused w_shown].
      repeat split; try lia.
      * Z.div_mod_to_equations; lia.
      * intros Hbig. specialize (Heq Hbig). Z.div_mod_to_equations; lia.
  - clear. intros t w' (Hle & since & cur & Hinv) Es. split; [exact Hle|].
    unfold watch_inv in Hinv.
    destruct since as [p|], cur as [tr|l]; try contradiction.
    + destruct Hinv as (Hs & Ht & Hp & Hpos & Hsh & Hlt).
      exists None, (inl t). unfold watch_inv.
      cbn [w_state w_timer w_pause w_start w_paused w_shown].
      rewrite Z.sub_diag, Z.mod_0_l by lia. rewrite Hp.
      destruct (Z.eqb_spec p 0); repeat split; try lia.
    + destruct Hinv as (Hs & _). rewrite Hs in Es. discriminate.
  - exact H.
Qed.

Lemma path_from_ge (ps : list Point) (d : R) (l : Point) : (d <= path_from d l ps)%R.
Proof.
  revert d l. induction ps as [|p ps IH]; intros d l; cbn [path_from]; [lra|].
  pose proof (haversine_nonneg (lat l) (lng l) (lat p) (lng p)) as H.
  specialize (IH (d + Geo.haversine (lat l) (lng l) (lat p) (lng p))%R p). lra.
Qed.

Lemma path_length_nonneg (ps : list Point) : (0 <= path_length ps)%R.
Proof. destruct ps as [|p ps]; cbn [path_length]; [lra | apply path_from_ge]. Qed.

Lemma onPosition_point_cells (indexer : R -> R -> Z -> string) (kind : activity)
    (s : Session) (pos : Position) (t : Z) :
  Forall (fun p => In (point_cell indexer p) (cells s)) (pointsRef s) ->
  Forall (fun p => In (point_cell indexer p) (cells (onPosition indexer kind s pos t)))
         (pointsRef (onPosition indexer kind s pos t)).
Proof.
  intros H.
  destruct (Rgt_dec (accuracy pos) CONFIG.MIN_ACCURACY_METERS) as [Hbad|Hgood].
  - rewrite (onPosition_low_accuracy indexer kind s pos t Hbad). exact H.
  - apply Rnot_gt_le in Hgood.
    pose proof (onPosition_cases indexer kind s pos t Hgood) as Hc. cbv zeta in Hc.
    destruct Hc as (-> & _ & _ & _ & _ & _ & _ & _ & _ & Hc).
    assert (Hin : forall c, In c (cells s) -> In c (set_add (cell_of indexer pos) (cells s))).
    { intros c Hc'. destruct (set_add_extends (cell_of indexer pos) (cells s)) as [ad ->].
      apply in_or_app. left. exact Hc'. }
    assert (Hnew : In (cell_of indexer pos) (set_add (cell_of indexer pos) (cells s))).
    { unfold set_add, set_has. destruct (existsb _ _) eqn:E.
      - apply existsb_exists in E. destruct E as (x & Hx & Ex).
        apply String.eqb_eq in Ex. subst x. exact Hx.
      - apply in_or_app. right. left. reflexivity. }
    assert (Hold : Forall (fun p => In (point_cell indexer p)
                                       (set_add (cell_of indexer pos) (cells s)))
                          (pointsRef s)).
    { eapply Forall_impl; [|exact H]. intros p Hp. apply Hin, Hp. }
    assert (Hsnoc : Forall (fun p => In (point_cell indexer p)
                                        (set_add (cell_of indexer pos) (cells s)))
                           (pointsRef s
                            ++ [mkPoint (latitude pos) (longitude pos) t (accuracy pos)])).
    { apply Forall_app. split; [exact Hold|]. constructor; [exact Hnew | constructor]. }
    destruct (last_point (pointsRef s)) as [last|].
    + destruct (Rgt_dec (implied_speed last pos t) (CONFIG.MAX_SPEED_MS kind)).
      * destruct Hc as (-> & _). exact Hold.
      * destruct Hc as (-> & _). exact Hsnoc.
    + destruct Hc as (-> & _). exact Hsnoc.
Qed.

(** The cell of every accepted sample is in the cell set. *)
Lemma recorded_point_cells (indexer : R -> R -> Z -> string) (kind : activity)
    (t0 : Z) (acts : list (Z * action)) :
  Forall (fun p => In (point_cell indexer p) (cells (snd (recorded indexer kind t0 acts))))
         (pointsRef (snd (recorded indexer kind t0 acts))).
Proof.
  apply (recorded_invariant indexer kind
           (fun s => Forall (fun p => In (point_cell indexer p) (cells s)) (pointsRef s))).
  - constructor.
  - intros s pos t H. apply onPosition_point_cells, H.
  - intros s t H. exact H.
  - intros s t H. exact H.
  - intros s t H. exact H.
Qed.

Lemma inserted_enough_points (indexer : R -> R -> Z -> string) (kind : activity)
    (user : string) (t0 : Z) (acts : list (Z * action)) (te : Z) (ride : Ride) :
  inserted (snd (finish indexer kind user t0 acts te true)) = Some ride ->
  (10 <= List.length (pointsRef (snd (recorded indexer kind t0 acts))))%nat.
Proof.
  rewrite finish_save, recorded_points.
  destruct (Nat.ltb_spec
              (List.length (pointsRef (feed indexer kind (start initial t0)
                                            (delivered true acts)))) 10)
    as [Hlt|Hge]; cbn [inserted]; [discriminate|].
  intros _. exact Hge.
Qed.

(** ** The ride handed over is a sound record *)

(** X6.  A ride handed to the backend is a sound record: for a session
    started after instant 0 whose actions are dated in order, the ride
    saved by [end] carries the user and the activity of the page, starts at
    the start and ends at the end of the session, has a duration that is
    not negative and not longer than the time from start to end, and at
    least one tile; and, when the positions of the run are all nearby one
    another (numbers idealised as reals), a distance that is not
    negative. *)
Theorem saved_ride_is_a_sound_record
    (latLngToCell : R -> R -> Z -> string) (selectedActivity : activity)
    (user : string) (t0 : Z) (acts : list (Z * action)) (te : Z) (ride : Ride) :
  0 < t0 ->
  in_order t0 acts te ->
  inserted (snd (finish latLngToCell selectedActivity user t0 acts te true)) = Some ride ->
  user_id ride = user
  /\ activity_type ride = selectedActivity
  /\ started_at ride = t0
  /\ ended_at ride = te
  /\ started_at ride <= ended_at ride
  /\ 0 <= duration_sec ride
  /\ 1000 * duration_sec ride <= ended_at ride - started_at ride
  /\ (1 <= tiles_touched ride)%nat
  /\ (local_run acts -> 0 <= distance_m ride).
Proof.
  intros Hpos Hord Hins.
  pose proof (inserted_enough_points _ _ _ _ _ _ _ Hins) as Hn.
  apply inserted_ride in Hins. rewrite Hins.
  cbn [user_id activity_type started_at ended_at duration_sec distance_m tiles_touched].
  pose proof (in_order_le acts t0 te Hord) as Hte.
  pose proof (shown_at_end_nonneg t0 acts te Hpos Hord) as Hlow.
  pose proof (watch_bounds acts t0 _ None (inl t0) te Hord (watch_inv_start t0 Hpos)) as Hb.
  cbv zeta in Hb. cbn [w_start w_paused] in Hb.
  change (w_shown _) with (shown_at_end t0 acts te) in Hb.
  destruct Hb as [Hle _].
  pose proof (paused_time_bounds acts t0 None te Hord I) as Hp.
  repeat split; try lia.
  - apply Z.div_pos; lia.
  - Z.div_mod_to_equations; lia.
  - pose proof (recorded_point_cells latLngToCell selectedActivity t0 acts) as Hc.
    destruct (pointsRef (snd (recorded latLngToCell selectedActivity t0 acts)))
      as [|p ps]; [cbn in Hn; lia|].
    inversion Hc as [|? ? Hin _]; subst.
    destruct (cells (snd (recorded latLngToCell selectedActivity t0 acts)));
      [contradiction | cbn; lia].
  - intros _. apply Zfloor_lub. apply path_length_nonneg.
Qed.

Lemma one_pause_order : in_order 1000 one_pause 5900.
Proof. cbn. lia. Qed.

Lemma saved_ride_is_a_sound_record_witness :
  let ride := ride_of two_cells cycling "rider" 1000 one_pause 5900 in
  user_id ride = "rider"%string
  /\ activity_type ride = cycling
  /\ started_at ride = 1000
  /\ ended_at ride = 5900
  /\ started_at ride <= ended_at ride
  /\ 0 <= duration_sec ride
  /\ 1000 * duration_sec ride <= ended_at ride - started_at ride
  /\ (1 <= tiles_touched ride)%nat
  /\ 0 <= distance_m ride.
Proof.
  cbv zeta.
  destruct (saved_ride_is_a_sound_record two_cells cycling "rider" 1000 one_pause 5900
              (ride_of two_cells cycling "rider" 1000 one_pause 5900))
    as (H1 & H2 & H3 & H4 & H5 & H6 & H7 & H8 & H9).
  - lia.
  - exact one_pause_order.
  - apply finish_inserts. rewrite one_pause_run. apply Nat.le_refl.
  - repeat split; try assumption. apply H9. exact local_one_pause.
Defined.

(** ** The books of the pauses *)

(** X7.  [pausedRef] books the time spent paused: for a session started
    after instant 0 whose actions are dated in order, the value of
    [pausedRef] after the actions, plus the time since [pauseRef] when the
    page is paused, is the cumulative time between each pause and the
    resume that follows it, up to [te]; that time is between 0 and the
    time since the start. *)
Theorem pausedRef_books_the_paused_time
    (latLngToCell : R -> R -> Z -> string) (selectedActivity : activity)
    (t0 : Z) (acts : list (Z * action)) (te : Z) :
  0 < t0 ->
  in_order t0 acts te ->
  pausedRef (snd (recorded latLngToCell selectedActivity t0 acts))
  + match state (snd (recorded latLngToCell selectedActivity t0 acts)) with
    | paused => te - pauseRef (snd (recorded latLngToCell selectedActivity t0 acts))
    | _ => 0
    end
  = paused_time None acts te
  /\ 0 <= paused_time None acts te <= te - t0.
Proof.
  intros Hpos Hord. split; [|exact (paused_time_bounds acts t0 None te Hord I)].
  destruct (recorded_stopwatch latLngToCell selectedActivity t0 acts)
    as (_ & Hs & _ & Hp & Hpd & _).
  rewrite Hs, Hp, Hpd.
  pose proof (paused_books acts t0 (mkWatch recording t0 0 0 (Some t0) 0) None te
                Hpos Hord eq_refl) as H.
  cbv zeta in H. cbn [w_paused] in H. exact H.
Qed.

Lemma pausedRef_books_the_paused_time_witness :
  pausedRef (snd (recorded two_cells cycling 1000 one_pause))
  + match state (snd (recorded two_cells cycling 1000 one_pause)) with
    | paused => 5900 - pauseRef (snd (recorded two_cells cycling 1000 one_pause))
    | _ => 0
    end
  = paused_time None one_pause 5900
  /\ 0 <= paused_time None one_pause 5900 <= 5900 - 1000.
Proof.
  apply (pausedRef_books_the_paused_time two_cells cycling 1000 one_pause 5900).
  - lia.
  - exact one_pause_order.
Defined.

(** ** The display never runs backwards *)

(** X8.  The duration on display never decreases and is never negative:
    for a session started after instant 0 whose actions are dated in
    order, the duration shown after the actions [acts] is at least 0 and
    at most the duration shown after any further actions [more], pauses
    and resumes included. *)
Theorem displayed_duration_never_decreases
    (latLngToCell : R -> R -> Z -> string) (selectedActivity : activity)
    (t0 : Z) (acts more : list (Z * action)) (te : Z) :
  0 < t0 ->
  in_order t0 (acts ++ more) te ->
  (0 <= duration (stats (snd (recorded latLngToCell selectedActivity t0 acts)))
   <= duration (stats (snd (recorded latLngToCell selectedActivity t0 (acts ++ more)))))%R.
Proof.
  intros Hpos Hord.
  destruct (recorded_stopwatch latLngToCell selectedActivity t0 acts)
    as (_ & _ & _ & _ & _ & _ & ->).
  destruct (recorded_stopwatch latLngToCell selectedActivity t0 (acts ++ more))
    as (_ & _ & _ & _ & _ & _ & ->).
  unfold w_recorded. rewrite fold_left_app.
  set (w0 := mkWatch recording t0 0 0 (Some t0) 0).
  destruct (in_order_app acts more t0 w0 te Hord) as [H1 H2].
  destruct (w_run_shown acts t0 w0 None (inl t0) _ H1 (watch_inv_start t0 Hpos))
    as (Hge & since & cur & Hinv).
  assert (Hsurj : fold_left w_react acts (t0, w0)
                  = (fst (fold_left w_react acts (t0, w0)),
                     snd (fold_left w_react acts (t0, w0))))
    by apply surjective_pairing.
  destruct (w_run_shown more _ _ since cur te H2 Hinv) as (Hmono & _).
  rewrite <- Hsurj in Hmono.
  change (w_shown w0) with 0 in Hge.
  split.
  - apply Rmult_le_pos; [apply IZR_le; lia | clear; lra].
  - apply Rmult_le_compat_r; [clear; lra | apply IZR_le; lia].
Qed.

Lemma displayed_duration_never_decreases_witness :
  (0 <= duration (stats (snd (recorded two_cells cycling 1000
                                       (spaced 1100 100 (repeat here 10)))))
   <= duration (stats (snd (recorded two_cells cycling 1000 one_pause))))%R.
Proof.
  apply (displayed_duration_never_decreases two_cells cycling 1000
           (spaced 1100 100 (repeat here 10))
           [(2500, PressPause); (3000, PressResume)] 5900).
  - lia.
  - exact one_pause_order.
Defined.

(** ** The cells of the oldest variant against the cells of the page *)

Lemma stop_cells_fold (indexer : R -> R -> Z -> string) (ps : list Point)
    (st : list string * list string) :
  snd st = fst st ->
  fst (fold_left (stop_cell_step indexer) ps st)
  = fold_left (fun a c => set_add c a) (map (point_cell indexer) ps) (fst st).
Proof.
  revert st. induction ps as [|p ps IH]; intros st E; [reflexivity|].
  cbn [fold_left map]. rewrite IH.
  - f_equal. unfold stop_cell_step, point_cell. cbv zeta. rewrite E.
    unfold set_add. destruct (set_has _ (fst st)); reflexivity.
  - unfold stop_cell_step. cbv zeta. rewrite E.
    unfold set_add. destruct (set_has _ (fst st)); cbn [negb fst snd];
      [exact E | reflexivity].
Qed.

Lemma h3Cells_distinct (indexer : R -> R -> Z -> string) (ps : list Point) :
  h3Cells indexer ps = distinct (map (point_cell indexer) ps).
Proof. unfold h3Cells. rewrite stop_cells_fold; reflexivity. Qed.

(** X9.  The cell list that the oldest variant's [stopRecording] builds
    from the accepted points holds each cell once, holds exactly the cells
    of those points, and, computed from the accepted points of any session
    of the current page, is included in the cell set that the page keeps
    (so it is no longer than the tile counter).  The inclusion can be
    strict: after a sample [here] and a speeding sample [there] the page
    holds two cells and the accepted points give one. *)
Theorem stopRecording_cells_within_page_cells :
  (forall (latLngToCell : R -> R -> Z -> string) (finalPoints : list Point),
      NoDup (h3Cells latLngToCell finalPoints)
      /\ forall c, In c (h3Cells latLngToCell finalPoints)
                   <-> exists p, In p finalPoints
                                 /\ latLngToCell (lat p) (lng p) CONFIG.H3_RESOLUTION = c)
  /\ (forall (latLngToCell : R -> R -> Z -> string) (selectedActivity : activity)
             (t0 : Z) (acts : list (Z * action)),
      let s := snd (recorded latLngToCell selectedActivity t0 acts) in
      incl (h3Cells latLngToCell (pointsRef s)) (cells s)
      /\ (List.length (h3Cells latLngToCell (pointsRef s)) <= tiles (stats s))%nat)
  /\ (let s := snd (recorded two_cells cycling 1000
                             [(2000, Sample here); (3000, Sample there)]) in
      h3Cells two_cells (pointsRef s) = ["8a754e64992ffff"%string]
      /\ cells s = ["8a754e64992ffff"%string; "8a754e64d6effff"%string]).
Proof.
  split; [|split].
  - intros idx ps. rewrite h3Cells_distinct.
    destruct (distinct_spec (map (point_cell idx) ps)) as [Hnd Hin].
    split; [exact Hnd|]. intros c. rewrite Hin, in_map_iff.
    split; intros (p & H1 & H2); exists p; unfold point_cell in *; tauto.
  - intros idx kind t0 acts. cbv zeta.
    assert (Hincl : incl (h3Cells idx (pointsRef (snd (recorded idx kind t0 acts))))
                         (cells (snd (recorded idx kind t0 acts)))).
    { intros c Hc. rewrite h3Cells_distinct in Hc.
      apply (proj1 (proj2 (distinct_spec _) c)) in Hc. apply in_map_iff in Hc.
      destruct Hc as (p & <- & Hp).
      pose proof (recorded_point_cells idx kind t0 acts) as H.
      rewrite Forall_forall in H. apply H, Hp. }
    split; [exact Hincl|].
    rewrite recorded_tiles. apply NoDup_incl_length; [|exact Hincl].
    rewrite h3Cells_distinct. apply distinct_spec.
  - cbv zeta.
    rewrite recorded_points, recorded_cells.
    change (feed two_cells cycling (start initial 1000)
                 (delivered true [(2000, Sample here); (3000, Sample there)]))
      with (onPosition two_cells cycling
              (onPosition two_cells cycling (start initial 1000) here 2000)
              there 3000).
    pose proof (first_sample_here 1000 2000) as H1. cbv zeta in H1.
    destruct H1 as (Hp & Hc & Hd).
    assert (Hsp : (implied_speed (mkPoint 0 0 2000 15) there 3000
                   > CONFIG.MAX_SPEED_MS cycling)%R).
    { unfold implied_speed. cbn [lat lng ts there latitude longitude CONFIG.MAX_SPEED_MS].
      rewrite here_to_there.
      replace (IZR (3000 - 2000) / 1000)%R with 1%R by (cbn; lra).
      destruct (Rgt_dec 1 0) as [_|n]; [|lra].
      pose proof PI_gt_3. lra. }
    destruct (speeding_sample_effect two_cells cycling
                (onPosition two_cells cycling (start initial 1000) here 2000)
                there 3000 (mkPoint 0 0 2000 15)) as (Ep & _ & _).
    + rewrite Hp. reflexivity.
    + exact there_passes.
    + exact Hsp.
    + rewrite Ep, Hp. split.
      * rewrite h3Cells_distinct. cbn [map].
        change (point_cell two_cells (mkPoint 0 0 2000 15)) with (cell_of two_cells here).
        rewrite cell_of_here. reflexivity.
      * unfold visited. cbn [delivered map snd filter].
        rewrite accurate_here, accurate_there. cbn [map].
        rewrite cell_of_here, cell_of_there. reflexivity.
Qed.

(** X10.  The cells of the page are those of the accepted samples when
    no sample is dropped for its speed: the cell set that the page keeps
    is then the list that the loop of the oldest [stopRecording] builds
    from the accepted samples of the page, the distinct cells in the order
    they are first touched.  (The sessions of the oldest variant
    themselves are not compared: its resume starts the recording
    anew.) *)
Theorem page_cells_are_the_cells_of_the_accepted_samples
    (latLngToCell : R -> R -> Z -> string) (selectedActivity : activity)
    (t0 : Z) (acts : list (Z * action)) :
  none_speeding selectedActivity (delivered true acts) ->
  let s := snd (recorded latLngToCell selectedActivity t0 acts) in
  cells s = h3Cells latLngToCell (pointsRef s)
  /\ NoDup (cells s)
  /\ (forall c, In c (cells s)
                <-> exists p, In p (pointsRef s)
                              /\ latLngToCell (lat p) (lng p) CONFIG.H3_RESOLUTION = c)
  /\ tiles (stats s) = List.length (h3Cells latLngToCell (pointsRef s)).
Proof.
  intros Hn. cbv zeta.
  pose proof (cells_of_accepted_samples latLngToCell selectedActivity t0 acts Hn) as E.
  rewrite recorded_tiles, h3Cells_distinct, E.
  destruct (distinct_spec
              (map (point_cell latLngToCell)
                   (pointsRef (snd (recorded latLngToCell selectedActivity t0 acts)))))
    as [Hnd Hin].
  split; [reflexivity|]. split; [exact Hnd|]. split; [|reflexivity].
  intros c. rewrite Hin, in_map_iff.
  split; intros (p & H1 & H2); exists p; unfold point_cell in *; tauto.
Qed.

Lemma page_cells_are_the_cells_of_the_accepted_samples_witness :
  let s := snd (recorded two_cells cycling 1000 out_trip) in
  (cells s = h3Cells two_cells (pointsRef s)
   /\ NoDup (cells s)
   /\ (forall c, In c (cells s)
                 <-> exists p, In p (pointsRef s)
                               /\ two_cells (lat p) (lng p) CONFIG.H3_RESOLUTION = c)
   /\ tiles (stats s) = List.length (h3Cells two_cells (pointsRef s)))
  /\ cells s = ["8a754e64992ffff"%string; "8a754e64d6effff"%string].
Proof.
  split.
  - apply (page_cells_are_the_cells_of_the_accepted_samples two_cells cycling 1000 out_trip).
    exact out_trip_none_speeding.
  - apply out_trip_run.
Defined.

(** ** Levels *)

Lemma getLevel_from_bounds (i : nat) (xp : Q) :
  (1 <= getLevel_from i xp <= S i)%nat.
Proof.
  induction i as [|i IH]; cbn [getLevel_from];
    destruct (Qle_bool _ xp); lia.
Qed.

Lemma getLevel_from_monotone (i : nat) (xp xp' : Q) :
  (xp <= xp')%Q -> (getLevel_from i xp <= getLevel_from i xp')%nat.
Proof.
  intros Hle. induction i as [|i IH]; cbn [getLevel_from].
  - destruct (Qle_bool _ xp), (Qle_bool _ xp'); lia.
  - destruct (Qle_bool _ xp) eqn:E, (Qle_bool _ xp') eqn:E'; try lia.
    + apply Qle_bool_iff in E.
      assert (Qle_bool (inject_Z (nth (S i) LEVEL_XP 0%Z)) xp' = true)
        by (apply Qle_bool_iff; eapply Qle_trans; eassumption).
      congruence.
    + pose proof (getLevel_from_bounds i xp). lia.
Qed.

Lemma getLevel_from_bracket (i : nat) (xp : Q) :
  ((0 <= xp)%Q -> (inject_Z (nth (getLevel_from i xp - 1) LEVEL_XP 0%Z) <= xp)%Q)
  /\ ((getLevel_from i xp < S i)%nat ->
      (xp < inject_Z (nth (getLevel_from i xp) LEVEL_XP 0%Z))%Q).
Proof.
  induction i as [|i [IH1 IH2]]; cbn [getLevel_from].
  - destruct (Qle_bool _ xp) eqn:E.
    + split; [intros _; exact (proj1 (Qle_bool_iff _ _) E) | lia].
    + split; [intros H; exact H | lia].
  - destruct (Qle_bool (inject_Z (nth (S i) LEVEL_XP 0%Z)) xp) eqn:E.
    + split; [|lia]. intros _. replace (S (S i) - 1)%nat with (S i) by lia.
      exact (proj1 (Qle_bool_iff _ _) E).
    + split; [exact IH1|]. intros _.
      pose proof (getLevel_from_bounds i xp) as Hb.
      destruct (Nat.eq_dec (getLevel_from i xp) (S i)) as [Eq|Ne].
      * rewrite Eq. apply Qnot_le_lt. intros Hc.
        apply Qle_bool_iff in Hc. congruence.
      * apply IH2. lia.
Qed.

(** X11.  The level brackets the XP: [getLevel] returns a level between 1
    and 11; for a non-negative XP the threshold of that level is at most
    the XP; below level 11 the XP is under the threshold of the next
    level; and a negative XP gets level 1. *)
Theorem getLevel_brackets_the_xp (xp : Q) :
  (1 <= getLevel xp <= 11)%nat
  /\ ((0 <= xp)%Q -> (inject_Z (nth (getLevel xp - 1) LEVEL_XP 0%Z) <= xp)%Q)
  /\ ((getLevel xp < 11)%nat -> (xp < inject_Z (nth (getLevel xp) LEVEL_XP 0%Z))%Q)
  /\ ((xp < 0)%Q -> getLevel xp = 1%nat).
Proof.
  unfold getLevel. change (List.length LEVEL_XP - 1)%nat with 10%nat.
  split; [exact (getLevel_from_bounds 10 xp)|].
  split; [exact (proj1 (getLevel_from_bracket 10 xp))|].
  split; [exact (proj2 (getLevel_from_bracket 10 xp))|].
  intros Hneg. cbn [getLevel_from LEVEL_XP nth].
  repeat match goal with
  | |- context [Qle_bool (inject_Z ?c) xp] =>
      let E := fresh "E" in
      destruct (Qle_bool (inject_Z c) xp) eqn:E;
      [ apply Qle_bool_iff in E; exfalso;
        apply (Qlt_irrefl 0); eapply Qle_lt_trans; [|exact Hneg];
        eapply Qle_trans; [|exact E]; discriminate | ]
  end.
  reflexivity.
Qed.

(** X12.  More XP never gives a lower level. *)
Theorem getLevel_monotone (xp xp' : Q) :
  (xp <= xp')%Q -> (getLevel xp <= getLevel xp')%nat.
Proof. apply getLevel_from_monotone. Qed.

Lemma getLevel_monotone_witness : (getLevel 99 <= getLevel 100)%nat.
Proof. apply (getLevel_monotone 99 100). discriminate. Defined.

(** ** XP *)

Lemma gained_formula (selectedActivity : option activity) (amount : Z) :
  Qfloor (inject_Z amount * mult_of selectedActivity)
  = match selectedActivity with
    | Some running => 6 * amount / 5
    | Some hiking => 3 * amount / 2
    | _ => amount
    end.
Proof.
  destruct selectedActivity as [[ | | ]|]; unfold mult_of, xpMultiplier, Qfloor;
    cbn [inject_Z Qmult Qnum Qden Pos.mul]; Z.div_mod_to_equations; lia.
Qed.

(** X13.  [addXp] does nothing without a user or a profile.  Otherwise
    the XP gained is the amount for cycling (or with no activity), the
    floor of 1.2 times the amount for running and of 1.5 times for hiking;
    the new total is the old one ([0] for a profile without XP) plus the
    gain; and for a non-negative amount the gain is at least the amount,
    the level does not go down, and a level-up is announced exactly when
    the level goes up, with the new level. *)
Theorem addXp_awards_and_never_lowers_the_level
    (selectedActivity : option activity) (user : string) (profile : Profile)
    (amount : Z) :
  addXp selectedActivity None (Some profile) amount = None
  /\ addXp selectedActivity (Some user) None amount = None
  /\ exists g,
       addXp selectedActivity (Some user) (Some profile) amount = Some g
       /\ gained g = match selectedActivity with
                     | Some running => 6 * amount / 5
                     | Some hiking => 3 * amount / 2
                     | _ => amount
                     end
       /\ newXp g = xp_or_0 profile + gained g
       /\ (0 <= amount ->
           amount <= gained g
           /\ (getLevel (inject_Z (xp_or_0 profile))
               <= getLevel (inject_Z (newXp g)))%nat
           /\ (levelUp g = None
               <-> getLevel (inject_Z (newXp g)) = getLevel (inject_Z (xp_or_0 profile)))
           /\ (forall l, levelUp g = Some l ->
                         l = getLevel (inject_Z (newXp g))
                         /\ (getLevel (inject_Z (xp_or_0 profile)) < l)%nat)).
Proof.
  split; [reflexivity|]. split; [reflexivity|].
  unfold addXp. cbv zeta. eexists. split; [reflexivity|].
  cbn [gained newXp levelUp]. rewrite gained_formula.
  split; [reflexivity|]. split; [reflexivity|].
  intros Hpos.
  set (g := match selectedActivity with
            | Some running => 6 * amount / 5
            | Some hiking => 3 * amount / 2
            | _ => amount
            end).
  assert (Hg : amount <= g).
  { unfold g. destruct selectedActivity as [[ | | ]|]; Z.div_mod_to_equations; lia. }
  assert (Hl : (getLevel (inject_Z (xp_or_0 profile))
                <= getLevel (inject_Z (xp_or_0 profile + g)))%nat).
  { apply getLevel_from_monotone. rewrite <- Zle_Qle. lia. }
  split; [exact Hg|]. split; [exact Hl|].
  destruct (Nat.ltb_spec (getLevel (inject_Z (xp_or_0 profile)))
                         (getLevel (inject_Z (xp_or_0 profile + g)))) as [Hlt|Hge].
  - split.
    + split; [discriminate | lia].
    + intros l E. injection E as <-. split; [reflexivity | exact Hlt].
  - split.
    + split; [intros _; lia | reflexivity].
    + intros l E. discriminate.
Qed.

Lemma Zfloor_div (x : R) (n : Z) : 0 < n -> Zfloor (x / IZR n) = Zfloor x / n.
Proof.
  intros Hn. apply Zfloor_eq.
  pose proof (Zfloor_bound x) as [Hlo Hhi].
  pose proof (Z.div_mod (Zfloor x) n ltac:(lia)) as E.
  pose proof (Z.mod_pos_bound (Zfloor x) n Hn) as B.
  assert (HN : (0 < IZR n)%R) by (apply IZR_lt; lia).
  assert (Ef : IZR (Zfloor x) = (IZR n * IZR (Zfloor x / n) + IZR (Zfloor x mod n))%R).
  { rewrite E at 1. rewrite plus_IZR, mult_IZR. reflexivity. }
  assert (B0 : (0 <= IZR (Zfloor x mod n))%R) by (apply IZR_le; lia).
  assert (B1 : (IZR (Zfloor x mod n) + 1 <= IZR n)%R).
  { rewrite <- plus_IZR. apply IZR_le. lia. }
  assert (Ey : x = (IZR n * (x / IZR n))%R) by (field; lra).
  split.
  - apply (Rmult_le_reg_l (IZR n)); [exact HN | lra].
  - apply (Rmult_lt_reg_l (IZR n)); [exact HN | lra].
Qed.

Lemma end_inserted (kind : activity) (user : string) (s : Session) (now : Z)
    (ride : Ride) :
  inserted (snd (end_ kind user s true now)) = Some ride ->
  ride = mkRide user kind (startRef s) now
                (Zfloor (duration (stats s))) (Zfloor (distance (stats s)))
                (sha256 (String.concat "," (cells s))) (List.length (cells s))
  /\ (10 <= List.length (pointsRef s))%nat.
Proof.
  unfold end_. cbn [negb pointsRef cells stats startRef].
  destruct (Nat.ltb_spec (List.length (pointsRef s)) CONFIG.MIN_RIDE_POINTS) as [Hlt|Hge];
    cbn [snd inserted]; [discriminate|].
  intros E. injection E as <-. split; [reflexivity | exact Hge].
Qed.

Lemma end_inserts (kind : activity) (user : string) (s : Session) (now : Z) :
  (10 <= List.length (pointsRef s))%nat ->
  inserted (snd (end_ kind user s true now))
  = Some (mkRide user kind (startRef s) now
                 (Zfloor (duration (stats s))) (Zfloor (distance (stats s)))
                 (sha256 (String.concat "," (cells s))) (List.length (cells s))).
Proof.
  intros Hn. unfold end_. cbn [negb pointsRef cells stats startRef].
  destruct (Nat.ltb_spec (List.length (pointsRef s)) CONFIG.MIN_RIDE_POINTS) as [Hlt|Hge];
    cbn [snd inserted]; [unfold CONFIG.MIN_RIDE_POINTS in Hlt; lia | reflexivity].
Qed.

(** X14.  The summary page shows the XP that was awarded: for the ride
    that [end] hands to the backend, the XP that [SummaryPage] computes
    from the stored ride (floored distance and duration, tile count) is the
    amount that [end] computes from the statistics of the session (over the
    reals), and the amount on display is the gain of [addXp] for the same
    activity. *)
Theorem summary_shows_the_xp_awarded
    (selectedActivity : activity) (user : string) (profile : Profile)
    (s : Session) (now : Z) (ride : Ride) :
  inserted (snd (end_ selectedActivity user s true now)) = Some ride ->
  summary_xp (Some ride) = end_xp s
  /\ option_map gained
       (addXp (Some selectedActivity) (Some user) (Some profile) (end_xp s))
     = Some (summary_xp_shown (Some ride) (Some selectedActivity)).
Proof.
  intros H. apply end_inserted in H. destruct H as [-> _].
  assert (E : summary_xp
                (Some (mkRide user selectedActivity (startRef s) now
                         (Zfloor (duration (stats s))) (Zfloor (distance (stats s)))
                         (sha256 (String.concat "," (cells s)))
                         (List.length (cells s))))
              = end_xp s).
  { unfold summary_xp, end_xp. cbn [distance_m duration_sec tiles_touched].
    rewrite (Zfloor_div (distance (stats s)) 100), (Zfloor_div (duration (stats s)) 60)
      by lia.
    reflexivity. }
  split; [exact E|].
  unfold summary_xp_shown. rewrite E. reflexivity.
Qed.

Lemma standing_end :
  inserted (snd (end_ cycling "rider" (snd (recorded two_cells cycling 1000 standing))
                      true 21000))
  = Some (mkRide "rider" cycling
            (startRef (snd (recorded two_cells cycling 1000 standing))) 21000
            (Zfloor (duration (stats (snd (recorded two_cells cycling 1000 standing)))))
            (Zfloor (distance (stats (snd (recorded two_cells cycling 1000 standing)))))
            (sha256 (String.concat ","
                       (cells (snd (recorded two_cells cycling 1000 standing)))))
            (List.length (cells (snd (recorded two_cells cycling 1000 standing))))).
Proof.
  apply end_inserts. rewrite standing_points.
  rewrite length_map, timed_length, repeat_length. apply Nat.le_refl.
Qed.

Lemma summary_shows_the_xp_awarded_witness :
  exists ride,
    inserted (snd (end_ cycling "rider" (snd (recorded two_cells cycling 1000 standing))
                        true 21000))
    = Some ride
    /\ summary_xp (Some ride) = end_xp (snd (recorded two_cells cycling 1000 standing))
    /\ option_map gained
         (addXp (Some cycling) (Some "rider"%string) (Some (mkProfile (Some 90)))
                (end_xp (snd (recorded two_cells cycling 1000 standing))))
       = Some (summary_xp_shown (Some ride) (Some cycling)).
Proof.
  eexists. split; [exact standing_end|].
  apply (summary_shows_the_xp_awarded cycling "rider" (mkProfile (Some 90))
           (snd (recorded two_cells cycling 1000 standing)) 21000).
  exact standing_end.
Defined.

(** ** The progress bar *)

Lemma LEVEL_XP_increasing (a b : nat) :
  (a < b <= 10)%nat -> nth a LEVEL_XP 0 < nth b LEVEL_XP 0.
Proof.
  intros H.
  do 11 (destruct a as [|a]; [do 11 (destruct b as [|b]; [cbn; lia|]); lia|]).
  lia.
Qed.

Lemma getLevel_in_bracket (xp : Q) (i : nat) :
  (i < 10)%nat ->
  (inject_Z (nth i LEVEL_XP 0%Z) <= xp)%Q ->
  (xp < inject_Z (nth (S i) LEVEL_XP 0%Z))%Q ->
  getLevel xp = S i.
Proof.
  intros Hi Hlo Hhi.
  assert (H0 : (0 <= xp)%Q).
  { eapply Qle_trans; [|exact Hlo]. rewrite <- (Zle_Qle 0).
    destruct i as [|i]; [cbn; lia|].
    pose proof (LEVEL_XP_increasing 0 (S i) ltac:(lia)) as H. cbn [nth LEVEL_XP] in H.
    cbn [nth LEVEL_XP]. lia. }
  unfold getLevel. change (List.length LEVEL_XP - 1)%nat with 10%nat.
  pose proof (getLevel_from_bounds 10 xp) as Hb.
  destruct (getLevel_from_bracket 10 xp) as [H1 H2]. specialize (H1 H0).
  set (lvl := getLevel_from 10 xp) in *.
  destruct (Nat.lt_trichotomy lvl (S i)) as [Hlt|[Heq|Hgt]]; [|exact Heq|]; exfalso.
  - specialize (H2 ltac:(lia)).
    assert (Hm : nth lvl LEVEL_XP 0 <= nth i LEVEL_XP 0).
    { destruct (Nat.eq_dec lvl i) as [->|Hne]; [lia|].
      pose proof (LEVEL_XP_increasing lvl i ltac:(lia)). lia. }
    apply (Qlt_irrefl xp). eapply Qlt_le_trans; [exact H2|].
    eapply Qle_trans; [|exact Hlo]. rewrite <- Zle_Qle. exact Hm.
  - assert (Hm : nth (S i) LEVEL_XP 0 <= nth (lvl - 1) LEVEL_XP 0).
    { destruct (Nat.eq_dec (S i) (lvl - 1)) as [->|Hne]; [lia|].
      pose proof (LEVEL_XP_increasing (S i) (lvl - 1) ltac:(lia)). lia. }
    apply (Qlt_irrefl xp). eapply Qlt_le_trans; [exact Hhi|].
    eapply Qle_trans; [|exact H1]. rewrite <- Zle_Qle. exact Hm.
Qed.

Lemma progress_below (c n xp : Q) :
  (c <= xp -> xp < n -> (xp - c) / (n - c) * 100 < 100)%Q.
Proof.
  intros Hc Hn.
  assert (Hd : (0 < n - c)%Q).
  { apply (proj1 (Qlt_minus_iff c n)). eapply Qle_lt_trans; eassumption. }
  assert (H1 : ((xp - c) / (n - c) < 1)%Q).
  { apply Qlt_shift_div_r; [exact Hd|]. rewrite Qmult_1_l.
    unfold Qminus. apply Qplus_lt_l. exact Hn. }
  setoid_replace 100%Q with (1 * 100)%Q at 2 by reflexivity.
  apply Qmult_lt_r; [reflexivity | exact H1].
Qed.

(** Over the rationals, the progress within a level is the share of the
    way to the next threshold, times 100. *)
Lemma progress_in_bracket (xp : Q) (i : nat) :
  (i < 10)%nat ->
  (inject_Z (nth i LEVEL_XP 0%Z) <= xp)%Q ->
  (xp < inject_Z (nth (S i) LEVEL_XP 0%Z))%Q ->
  getXpProgress xp
  = JS.Fin ((xp - inject_Z (nth i LEVEL_XP 0%Z))
            / (inject_Z (nth (S i) LEVEL_XP 0%Z) - inject_Z (nth i LEVEL_XP 0%Z))
            * 100).
Proof.
  intros Hi Hlo Hhi.
  pose proof (getLevel_in_bracket xp i Hi Hlo Hhi) as Hl.
  pose proof (progress_below _ _ xp Hlo Hhi) as Hbelow.
  unfold getXpProgress. rewrite Hl.
  replace (S i - 1)%nat with i by lia.
  assert (Hmin : forall v, (v < 100)%Q -> JS.min (JS.Fin v) (JS.Fin 100) = JS.Fin v).
  { intros v Hv. unfold JS.min.
    replace (Qle_bool v 100) with true; [reflexivity|].
    symmetry. apply Qle_bool_iff. apply Qlt_le_weak. exact Hv. }
  do 10 (destruct i as [|i];
         [cbn [nth_error nth LEVEL_XP JS.or Z.eqb JS.of_elem JS.sub JS.div] in *;
          match goal with
          | |- context [Qeq_bool ?d 0] =>
              replace (Qeq_bool d 0) with false by reflexivity
          end;
          cbn [JS.mul]; apply Hmin; exact Hbelow|]).
  lia.
Qed.

Lemma share_monotone (c d x y : Q) :
  (0 < d -> x <= y -> (x - c) / d * 100 <= (y - c) / d * 100)%Q.
Proof.
  intros Hd Hxy.
  apply Qmult_le_compat_r; [|discriminate].
  unfold Qdiv. apply Qmult_le_compat_r.
  - unfold Qminus. apply Qplus_le_l. exact Hxy.
  - apply Qinv_le_0_compat. apply Qlt_le_weak. exact Hd.
Qed.

Lemma share_positive (c d x : Q) :
  (0 < d -> c < x -> 0 < (x - c) / d * 100)%Q.
Proof.
  intros Hd Hx.
  assert (H0 : (0 < x - c)%Q) by (apply (proj1 (Qlt_minus_iff c x)); exact Hx).
  assert (H1 : (0 < (x - c) / d)%Q).
  { apply Qlt_shift_div_l; [exact Hd|]. rewrite Qmult_0_l. exact H0. }
  setoid_replace 0%Q with (0 * 100)%Q by reflexivity.
  apply Qmult_lt_r; [reflexivity | exact H1].
Qed.

(** X15.  The progress bar within a level and above the last one, for an
    XP that is a whole number, as [addXp] keeps it.  At or above the
    threshold of level [i + 1] and under the next threshold, [getLevel] is
    [i + 1] and [getXpProgress] is a number from 0 up to but not
    including 100, which is 0 exactly at the threshold and does not
    decrease as the XP grows within the level.  Above the last threshold,
    10000, the level is 11 and the progress is 100. *)
Theorem getXpProgress_stays_within_the_level :
  (forall (xp : Z) (i : nat),
      (i < 10)%nat ->
      nth i LEVEL_XP 0 <= xp < nth (S i) LEVEL_XP 0 ->
      getLevel (inject_Z xp) = S i
      /\ exists q,
           getXpProgress (inject_Z xp) = JS.Fin q
           /\ (0 <= q)%Q /\ (q < 100)%Q
           /\ ((q == 0)%Q <-> xp = nth i LEVEL_XP 0))
  /\ (forall (xp xp' : Z) (i : nat) (q q' : Q),
      (i < 10)%nat ->
      nth i LEVEL_XP 0 <= xp -> xp <= xp' -> xp' < nth (S i) LEVEL_XP 0 ->
      getXpProgress (inject_Z xp) = JS.Fin q ->
      getXpProgress (inject_Z xp') = JS.Fin q' ->
      (q <= q')%Q)
  /\ (forall xp : Z,
      10000 < xp ->
      getLevel (inject_Z xp) = 11%nat /\ getXpProgress (inject_Z xp) = JS.Fin 100).
Proof.
  assert (Hgap : forall i, (i < 10)%nat ->
            (0 < inject_Z (nth (S i) LEVEL_XP 0%Z) - inject_Z (nth i LEVEL_XP 0%Z))%Q).
  { intros i Hi. apply (proj1 (Qlt_minus_iff _ _)). rewrite <- Zlt_Qlt.
    apply LEVEL_XP_increasing. lia. }
  split; [|split].
  - intros xp i Hi [Hlo Hhi].
    assert (Hlo' : (inject_Z (nth i LEVEL_XP 0%Z) <= inject_Z xp)%Q)
      by (rewrite <- Zle_Qle; exact Hlo).
    assert (Hhi' : (inject_Z xp < inject_Z (nth (S i) LEVEL_XP 0%Z))%Q)
      by (rewrite <- Zlt_Qlt; exact Hhi).
    assert (Hlt : (inject_Z (nth i LEVEL_XP 0%Z) < inject_Z (nth (S i) LEVEL_XP 0%Z))%Q).
    { rewrite <- Zlt_Qlt. apply LEVEL_XP_increasing. lia. }
    split; [exact (getLevel_in_bracket _ i Hi Hlo' Hhi')|].
    eexists. split; [exact (progress_in_bracket _ i Hi Hlo' Hhi')|].
    split; [exact (progress_nonneg _ _ _ Hlo' Hlt)|].
    split; [exact (progress_below _ _ _ Hlo' Hhi')|].
    split.
    + intros Hq. destruct (Z.eq_dec xp (nth i LEVEL_XP 0)) as [E|Hne]; [exact E|].
      exfalso.
      assert (Hc : (inject_Z (nth i LEVEL_XP 0%Z) < inject_Z xp)%Q)
        by (rewrite <- Zlt_Qlt; lia).
      pose proof (share_positive _ _ _ (Hgap i Hi) Hc) as Hp.
      rewrite Hq in Hp. discriminate.
    + intros ->. unfold Qdiv, Qminus. rewrite Qplus_opp_r, !Qmult_0_l. reflexivity.
  - intros xp xp' i q q' Hi Hlo Hle Hhi Hq Hq'.
    rewrite progress_in_bracket with (i := i) in Hq, Hq';
      try exact Hi; try (rewrite <- Zle_Qle; lia); try (rewrite <- Zlt_Qlt; lia).
    injection Hq as <-. injection Hq' as <-.
    apply share_monotone; [exact (Hgap i Hi) | rewrite <- Zle_Qle; exact Hle].
  - intros xp Hxp.
    assert (Hxp' : (10000 < inject_Z xp)%Q) by (rewrite <- (Zlt_Qlt 10000); exact Hxp).
    assert (Hl : getLevel (inject_Z xp) = 11%nat).
    { unfold getLevel. cbn [List.length LEVEL_XP Nat.sub getLevel_from nth].
      replace (Qle_bool (inject_Z 10000) (inject_Z xp)) with true; [reflexivity|].
      symmetry. apply Qle_bool_iff. apply Qlt_le_weak. exact Hxp'. }
    split; [exact Hl|].
    unfold getXpProgress. rewrite Hl.
    cbn [nth_error Nat.sub LEVEL_XP JS.or Z.eqb JS.of_elem JS.sub JS.div List.length].
    replace (Qeq_bool (inject_Z 10000 - inject_Z 10000) 0) with true by reflexivity.
    assert (Hlt : (0 < inject_Z xp - inject_Z 10000)%Q).
    { unfold Qminus. rewrite <- (Qplus_opp_r (inject_Z 10000)).
      apply Qplus_lt_l. exact Hxp'. }
    assert (Hc : (0 ?= inject_Z xp - inject_Z 10000)%Q = Lt) by (apply Qlt_alt; exact Hlt).
    rewrite Hc. reflexivity.
Qed.

Lemma getXpProgress_stays_within_the_level_witness :
  (getLevel (inject_Z 175) = 2%nat
   /\ exists q,
        getXpProgress (inject_Z 175) = JS.Fin q
        /\ (0 <= q)%Q /\ (q < 100)%Q
        /\ ((q == 0)%Q <-> 175 = 100))
  /\ (forall q q' : Q,
        getXpProgress (inject_Z 175) = JS.Fin q ->
        getXpProgress (inject_Z 249) = JS.Fin q' -> (q <= q')%Q)
  /\ (getLevel (inject_Z 12000) = 11%nat
      /\ getXpProgress (inject_Z 12000) = JS.Fin 100).
Proof.
  destruct getXpProgress_stays_within_the_level as (H1 & H2 & H3).
  split; [|split].
  - apply (H1 175 1%nat); [lia | cbn; lia].
  - intros q q'. apply (H2 175 249 1%nat q q'); cbn; lia.
  - apply (H3 12000). lia.
Defined.

(** ** The unlock count along time *)

(** X16.  The unlock count fades with time and never grows without a new
    ride: for the same ride list, the count of [SummaryPage] and the count
    of [checkRouteProgress] at a later instant are at most the counts at
    an earlier one, so a route that is unlocked later was unlocked
    before; and once every ride started more than seven days ago the
    count is 0 and the route is locked. *)
Theorem unlock_count_fades_with_time
    (rides : list Ride) (lastRide : option Ride) (userId fp : string) (now now' : Z) :
  now <= now' ->
  (recentCount rides lastRide now' <= recentCount rides lastRide now)%nat
  /\ (checkRouteProgress rides userId fp now'
      <= checkRouteProgress rides userId fp now)%nat
  /\ (unlocked rides lastRide now' = true -> unlocked rides lastRide now = true)
  /\ ((forall r, In r rides -> started_at r + 7 * 86400000 < now') ->
      recentCount rides lastRide now' = 0%nat
      /\ checkRouteProgress rides userId fp now' = 0%nat
      /\ unlocked rides lastRide now' = false).
Proof.
  intros Hle.
  assert (Hfil : forall (f g : Ride -> bool) (l : list Ride),
            (forall r, f r = true -> g r = true) ->
            (List.length (filter f l) <= List.length (filter g l))%nat).
  { intros f g l Hfg. induction l as [|r l IH]; [apply Nat.le_refl|].
    cbn [filter]. destruct (f r) eqn:Ef.
    - rewrite (Hfg r Ef). cbn [List.length]. lia.
    - destruct (g r); cbn [List.length]; lia. }
  assert (Hnone : forall (f : Ride -> bool) (l : list Ride),
            (forall r, In r l -> f r = false) -> List.length (filter f l) = 0%nat).
  { intros f l Hf. induction l as [|r l IH]; [reflexivity|].
    cbn [filter]. rewrite (Hf r (or_introl eq_refl)). apply IH.
    intros r' Hr'. apply Hf. right. exact Hr'. }
  assert (Hrc : (recentCount rides lastRide now' <= recentCount rides lastRide now)%nat).
  { unfold recentCount. destruct lastRide as [lr|]; [|apply Nat.le_refl].
    apply Hfil. intros r Hr. apply andb_true_iff in Hr. destruct Hr as [H1 H2].
    apply andb_true_iff. split; [exact H1|].
    apply Z.leb_le in H2. apply Z.leb_le. lia. }
  split; [exact Hrc|]. split; [|split].
  - unfold checkRouteProgress. cbv zeta. apply Hfil. intros r Hr.
    apply andb_true_iff in Hr. destruct Hr as [H1 H2].
    apply andb_true_iff. split; [exact H1|].
    apply Z.leb_le in H2. apply Z.leb_le. lia.
  - unfold unlocked. intros H. apply Nat.leb_le in H. apply Nat.leb_le. lia.
  - intros Hold.
    assert (H0 : recentCount rides lastRide now' = 0%nat).
    { unfold recentCount. destruct lastRide as [lr|]; [|reflexivity].
      apply Hnone. intros r Hr. specialize (Hold r Hr).
      apply andb_false_iff. right. apply Z.leb_gt. lia. }
    split; [exact H0|]. split.
    + unfold checkRouteProgress. cbv zeta. apply Hnone. intros r Hr.
      specialize (Hold r Hr). apply andb_false_iff. right. apply Z.leb_gt. lia.
    + unfold unlocked. rewrite H0. reflexivity.
Qed.

Lemma unlock_count_fades_with_time_witness :
  let rs := [ride_on_day 6; ride_on_day 3; ride_on_day 0] in
  (recentCount rs (Some (ride_on_day 6)) (14 * day_ms)
   <= recentCount rs (Some (ride_on_day 6)) (6 * day_ms))%nat
  /\ (checkRouteProgress rs "owner" "fp" (14 * day_ms)
      <= checkRouteProgress rs "owner" "fp" (6 * day_ms))%nat
  /\ (unlocked rs (Some (ride_on_day 6)) (14 * day_ms) = true ->
      unlocked rs (Some (ride_on_day 6)) (6 * day_ms) = true)
  /\ ((forall r, In r rs -> started_at r + 7 * 86400000 < 14 * day_ms) ->
      recentCount rs (Some (ride_on_day 6)) (14 * day_ms) = 0%nat
      /\ checkRouteProgress rs "owner" "fp" (14 * day_ms) = 0%nat
      /\ unlocked rs (Some (ride_on_day 6)) (14 * day_ms) = false).
Proof.
  cbv zeta.
  apply (unlock_count_fades_with_time
           [ride_on_day 6; ride_on_day 3; ride_on_day 0] (Some (ride_on_day 6))
           "owner" "fp" (6 * day_ms) (14 * day_ms)).
  unfold day_ms. lia.
Defined.

(** ** The great-circle distance *)

Lemma haversine_hav_a (lat1 lon1 lat2 lon2 : R) :
  Geo.haversine lat1 lon1 lat2 lon2
  = (6371000 * 2 * Geo.atan2 (sqrt (hav_a lat1 lon1 lat2 lon2))
                             (sqrt (1 - hav_a lat1 lon1 lat2 lon2)))%R.
Proof. reflexivity. Qed.

(** Less than a quarter of a great circle apart, the distance is at most a
    quarter of the circumference. *)
Lemma haversine_quarter (lat1 lon1 lat2 lon2 : R) :
  (hav_a lat1 lon1 lat2 lon2 <= 1 / 2)%R ->
  (Geo.haversine lat1 lon1 lat2 lon2 <= 6371000 * PI / 2)%R.
Proof.
  intros Ha. rewrite haversine_hav_a.
  set (a := hav_a lat1 lon1 lat2 lon2) in *.
  assert (Hx : (0 < sqrt (1 - a))%R) by (apply sqrt_lt_R0; lra).
  assert (Hyx : (sqrt a <= sqrt (1 - a))%R) by (apply sqrt_le_1_alt; lra).
  assert (Hq : (sqrt a / sqrt (1 - a) <= 1)%R).
  { apply Rmult_le_reg_r with (sqrt (1 - a)); [exact Hx|].
    unfold Rdiv. rewrite Rmult_assoc, Rinv_l by lra. lra. }
  assert (Hat : (atan (sqrt a / sqrt (1 - a)) <= PI / 4)%R).
  { rewrite <- atan_1. destruct Hq as [Hlt|Heq].
    - left. apply atan_increasing. exact Hlt.
    - right. now rewrite Heq. }
  unfold Geo.atan2. destruct (Rlt_dec 0 (sqrt (1 - a))) as [_|Hn]; [lra | contradiction].
Qed.

(** X17.  [haversine] between two points less than a quarter of a great
    circle apart (the [a] of the formula at most 1/2), numbers idealised as
    reals: the distance is not negative and at most a quarter of the
    circumference, it is the same both ways, and it is 0 from a point to
    itself. *)
Theorem haversine_is_symmetric_and_bounded (lat1 lon1 lat2 lon2 : R) :
  (hav_a lat1 lon1 lat2 lon2 <= 1 / 2)%R ->
  (0 <= Geo.haversine lat1 lon1 lat2 lon2 <= 6371000 * PI / 2)%R
  /\ Geo.haversine lat1 lon1 lat2 lon2 = Geo.haversine lat2 lon2 lat1 lon1
  /\ Geo.haversine lat1 lon1 lat1 lon1 = 0%R.
Proof.
  intros Ha. split; [split|split].
  - apply haversine_nonneg.
  - apply haversine_quarter, Ha.
  - apply haversine_sym.
  - apply haversine_same.
Qed.

Lemma haversine_is_symmetric_and_bounded_witness :
  (0 <= Geo.haversine 0 0 0 (1 / 100) <= 6371000 * PI / 2)%R
  /\ Geo.haversine 0 0 0 (1 / 100) = Geo.haversine 0 (1 / 100) 0 0
  /\ Geo.haversine 0 0 0 0 = 0%R.
Proof.
  apply (haversine_is_symmetric_and_bounded 0 0 0 (1 / 100)).
  apply (nearby_on_equator 0 (1 / 100) 15 15).
  unfold Rabs. destruct (Rcase_abs (1 / 100 - 0)); lra.
Defined.

(** X18.  Along a meridian [haversine] is the arc: between two points of
    the same longitude, the second at most 180 degrees of latitude north of
    the first, the distance is the radius times the difference of
    latitude in radians. *)
Theorem haversine_along_a_meridian (lon lat1 lat2 : R) :
  (0 <= lat2 - lat1 <= 180)%R ->
  Geo.haversine lat1 lon lat2 lon = (6371000 * ((lat2 - lat1) * PI / 180))%R.
Proof.
  intros Hd. unfold Geo.haversine, Geo.toRad. cbv zeta.
  pose proof PI_RGT_0 as Hpi.
  set (x := ((lat2 - lat1) * PI / 180 / 2)%R).
  assert (Hx : (0 <= x <= PI / 2)%R).
  { unfold x. split.
    - apply Rmult_le_pos; [|lra]. apply Rmult_le_pos; [|lra].
      apply Rmult_le_pos; lra.
    - assert ((lat2 - lat1) * PI <= 180 * PI)%R by (apply Rmult_le_compat_r; lra).
      lra. }
  replace ((lon - lon) * PI / 180 / 2)%R with 0%R by lra.
  rewrite sin_0.
  replace (sin x ^ 2 + cos (lat1 * PI / 180) * cos (lat2 * PI / 180) * 0 ^ 2)%R
    with (sin x ^ 2)%R by ring.
  replace (1 - sin x ^ 2)%R with (cos x ^ 2)%R
    by (pose proof (sin2_cos2 x) as E; unfold Rsqr in E; lra).
  rewrite sqrt_pow2 by (apply sin_ge_0; lra).
  rewrite sqrt_pow2 by (apply cos_ge_0; lra).
  rewrite atan2_sin_cos by exact Hx.
  unfold x. lra.
Qed.

Lemma haversine_along_a_meridian_witness :
  Geo.haversine 0 7 90 7 = (6371000 * ((90 - 0) * PI / 180))%R.
Proof. apply (haversine_along_a_meridian 7 0 90). lra. Defined.

(** ** The shape of a route signature *)

Lemma compress_length (h block : list N) :
  List.length h = 8%nat -> List.length (SHA256.compress h block) = 8%nat.
Proof.
  intros Hh. unfold SHA256.compress. cbv zeta.
  rewrite length_map, length_combine, Hh. reflexivity.
Qed.

Lemma be_bytes_shape (h : list N) :
  List.length (flat_map (SHA256.be_bytes 4) h) = (4 * List.length h)%nat
  /\ Forall (fun b => (b < 256)%N) (flat_map (SHA256.be_bytes 4) h).
Proof.
  induction h as [|x h [Hlen Hall]]; [split; [reflexivity | constructor]|].
  cbn [flat_map]. split.
  - rewrite length_app, Hlen. cbn [SHA256.be_bytes List.length app]. lia.
  - apply Forall_app. split; [|exact Hall].
    cbn [SHA256.be_bytes app].
    repeat constructor;
      (apply N.le_lt_trans with (m := 255%N); [apply N.land_le_r | reflexivity]).
Qed.

Lemma digest_shape (msg : list N) :
  List.length (SHA256.digest msg) = 32%nat
  /\ Forall (fun b => (b < 256)%N) (SHA256.digest msg).
Proof.
  unfold SHA256.digest. cbv zeta.
  set (bs := SHA256.blocks _ _).
  assert (Hh : List.length (fold_left SHA256.compress bs SHA256.H0) = 8%nat).
  { generalize bs. intros l.
    assert (H0 : List.length SHA256.H0 = 8%nat) by reflexivity.
    revert H0. generalize SHA256.H0. induction l as [|b l IH]; intros h Hl; [exact Hl|].
    cbn [fold_left]. apply IH, compress_length, Hl. }
  destruct (be_bytes_shape (fold_left SHA256.compress bs SHA256.H0)) as [Hlen Hall].
  split; [rewrite Hlen, Hh; reflexivity | exact Hall].
Qed.

Lemma hex_list (bs : list N) :
  list_ascii_of_string (String.concat "" (map hex_byte bs))
  = flat_map (fun b => [hex_digit (b / 16)%N; hex_digit (b mod 16)%N]) bs.
Proof.
  induction bs as [|b [|b' bs] IH]; [reflexivity | reflexivity |].
  change (String.concat "" (map hex_byte (b :: b' :: bs)))
    with (String (hex_digit (b / 16)%N)
            (String (hex_digit (b mod 16)%N)
               (String.concat "" (map hex_byte (b' :: bs))))).
  cbn [list_ascii_of_string flat_map app]. rewrite IH. reflexivity.
Qed.

Lemma string_length_list (s : string) :
  String.length s = List.length (list_ascii_of_string s).
Proof. induction s as [|c s IH]; [reflexivity|]. cbn. rewrite IH. reflexivity. Qed.

Lemma hex_digit_in (d : N) :
  (d < 16)%N -> In (hex_digit d) (list_ascii_of_string "0123456789abcdef").
Proof.
  intros Hd. unfold hex_digit. apply nth_In.
  change (List.length (list_ascii_of_string "0123456789abcdef")) with 16%nat. lia.
Qed.

(** X19.  Every route signature has the shape of a SHA-256 in hexadecimal:
    whatever the message, [sha256] returns 64 characters, each one of
    [0123456789abcdef]. *)
Theorem sha256_is_64_lowercase_hex_characters (msg : string) :
  String.length (sha256 msg) = 64%nat
  /\ Forall (fun c => In c (list_ascii_of_string "0123456789abcdef"))
            (list_ascii_of_string (sha256 msg)).
Proof.
  unfold sha256. rewrite string_length_list, hex_list.
  destruct (digest_shape (encode msg)) as [Hlen Hall].
  revert Hlen Hall. generalize (SHA256.digest (encode msg)). intros bs.
  assert (H : forall n, List.length bs = n ->
            Forall (fun b => (b < 256)%N) bs ->
            List.length (flat_map (fun b => [hex_digit (b / 16)%N; hex_digit (b mod 16)%N])
                                  bs) = (2 * n)%nat
            /\ Forall (fun c => In c (list_ascii_of_string "0123456789abcdef"))
                      (flat_map (fun b => [hex_digit (b / 16)%N; hex_digit (b mod 16)%N])
                                bs)).
  { induction bs as [|b bs IH]; intros n Hn Hall.
    - cbn in *. subst n. split; [reflexivity | constructor].
    - destruct n as [|n]; [discriminate|]. injection Hn as Hn.
      inversion Hall as [|? ? Hb Hrest]; subst.
      destruct (IH (List.length bs) eq_refl Hrest) as [Hl Hf].
      cbn [flat_map app List.length]. split; [rewrite Hl; lia|].
      constructor; [|constructor; [|exact Hf]].
      + apply hex_digit_in. apply N.Div0.div_lt_upper_bound. exact Hb.
      + apply hex_digit_in. apply N.mod_lt. discriminate. }
  intros Hlen Hall. exact (H 32%nat Hlen Hall).
Qed.

(** ** The streak *)

Lemma day_add_spec (l acc : list Z) :
  NoDup acc ->
  NoDup (fold_left (fun a d => day_add d a) l acc)
  /\ forall x, In x (fold_left (fun a d => day_add d a) l acc) <-> In x acc \/ In x l.
Proof.
  revert acc. induction l as [|d l IH]; intros acc Hnd.
  - cbn [fold_left]. split; [exact Hnd|]. intros x. cbn [In]. tauto.
  - cbn [fold_left]. unfold day_add at 2 4. destruct (existsb (Z.eqb d) acc) eqn:E.
    + destruct (IH acc Hnd) as [H1 H2]. split; [exact H1|].
      intros x. rewrite H2. cbn [In]. split; [tauto|].
      intros [H|[H|H]]; try tauto. subst x.
      apply existsb_exists in E. destruct E as (y & Hy & Ey).
      apply Z.eqb_eq in Ey. subst y. left. exact Hy.
    + assert (Hn : ~ In d acc).
      { intros Hin. assert (existsb (Z.eqb d) acc = true); [|congruence].
        apply existsb_exists. exists d. split; [exact Hin | apply Z.eqb_refl]. }
      assert (Hnd' : NoDup (acc ++ [d])).
      { apply NoDup_app; [exact Hnd | repeat constructor; intros [] | ].
        intros a Ha [<-|[]]. exact (Hn Ha). }
      destruct (IH (acc ++ [d]) Hnd') as [H1 H2]. split; [exact H1|].
      intros x. rewrite H2, in_app_iff. cbn [In]. tauto.
Qed.

Lemma insert_desc_in (x : Z) (l : list Z) (y : Z) :
  In y (insert_desc x l) <-> y = x \/ In y l.
Proof.
  induction l as [|z l IH]; cbn [insert_desc In]; [intuition congruence|].
  destruct (z <=? x); cbn [In]; [intuition congruence|].
  rewrite IH. intuition congruence.
Qed.

Lemma insert_desc_sorted (x : Z) (l : list Z) :
  StronglySorted (fun a b => b < a) l ->
  ~ In x l ->
  StronglySorted (fun a b => b < a) (insert_desc x l).
Proof.
  induction l as [|z l IH]; intros Hs Hn; cbn [insert_desc].
  - constructor; constructor.
  - inversion Hs as [|? ? Hs' Hall]; subst.
    assert (Hne : z <> x) by (intros ->; apply Hn; left; reflexivity).
    destruct (Z.leb_spec z x) as [Hle|Hgt].
    + constructor; [exact Hs|]. constructor; [lia|].
      eapply Forall_impl; [|exact Hall]. cbn. intros a Ha. lia.
    + constructor.
      * apply IH; [exact Hs'|]. intros Hin. apply Hn. right. exact Hin.
      * apply Forall_forall. intros a Ha. apply insert_desc_in in Ha.
        destruct Ha as [->|Ha]; [lia|].
        rewrite Forall_forall in Hall. apply Hall, Ha.
Qed.

Lemma sort_desc_spec (l : list Z) :
  NoDup l ->
  StronglySorted (fun a b => b < a) (sort_desc l)
  /\ forall x, In x (sort_desc l) <-> In x l.
Proof.
  induction l as [|z l IH]; intros Hnd.
  - split; [constructor | intros x; reflexivity].
  - inversion Hnd as [|? ? Hz Hnd']; subst. destruct (IH Hnd') as [Hs Hin].
    cbn [sort_desc fold_right]. fold (sort_desc l). split.
    + apply insert_desc_sorted; [exact Hs|]. rewrite Hin. exact Hz.
    + intros x. rewrite insert_desc_in, Hin. cbn [In]. intuition congruence.
Qed.

(** The dates of the loop: the days of the rides, each once, the latest
    first. *)
Lemma streak_dates_spec (startOfDay : Z -> Z) (rows : list Z) :
  StronglySorted (fun a b => b < a) (streak_dates startOfDay rows)
  /\ forall x, In x (streak_dates startOfDay rows)
               <-> exists t, In t rows /\ startOfDay t = x.
Proof.
  unfold streak_dates.
  destruct (day_add_spec (map startOfDay rows) [] (NoDup_nil Z)) as [Hnd Hin].
  destruct (sort_desc_spec _ Hnd) as [Hs Hin'].
  split; [exact Hs|]. intros x. rewrite Hin', Hin, in_map_iff. cbn [In].
  split.
  - intros [[]|(t & E & Ht)]. exists t. split; assumption.
  - intros (t & Ht & E). right. exists t. split; assumption.
Qed.

Lemma streak_loop_shift (l : list Z) (s : nat) (d : Z) :
  streak_loop s d l = (s + streak_loop 0 d l)%nat.
Proof.
  revert s d. induction l as [|rd l IH]; intros s d; cbn [streak_loop]; [lia|].
  destruct (d - rd <=? 86400000); [|lia].
  rewrite (IH (S s)), (IH 1%nat). lia.
Qed.

Lemma streak_loop_le (l : list Z) (d : Z) : (streak_loop 0 d l <= List.length l)%nat.
Proof.
  revert d. induction l as [|rd l IH]; intros d; cbn [streak_loop List.length]; [lia|].
  destruct (d - rd <=? 86400000); [|lia].
  rewrite streak_loop_shift. specialize (IH rd). lia.
Qed.

(** Days in a row among the dates: the loop counts at least [k] when the
    dates hold [T], [T] less a day, ... ([k] of them), none is later than
    [d], and [T] is at most a day before [d]. *)
Lemma streak_loop_lower (l : list Z) (k : nat) (T d : Z) :
  StronglySorted (fun a b => b < a) l ->
  Forall (fun x => x <= d) l ->
  (forall i, 0 <= i < Z.of_nat k -> In (T - i * 86400000) l) ->
  d - T <= 86400000 ->
  (k <= streak_loop 0 d l)%nat.
Proof.
  revert k T d. induction l as [|rd l IH]; intros k T d Hs Hd Hin Hgap.
  - destruct k as [|k]; [lia|]. destruct (Hin 0 ltac:(lia)).
  - destruct k as [|k]; [lia|].
    inversion Hs as [|? ? Hs' Hall]; subst.
    inversion Hd as [|? ? Hrd _]; subst.
    assert (HT : T <= rd).
    { destruct (Hin 0 ltac:(lia)) as [E|Hi]; [lia|].
      rewrite Forall_forall in Hall. specialize (Hall _ Hi). lia. }
    cbn [streak_loop]. destruct (Z.leb_spec (d - rd) 86400000) as [_|Hbig]; [|lia].
    rewrite streak_loop_shift.
    assert (Hle : Forall (fun x => x <= rd) l).
    { eapply Forall_impl; [|exact Hall]. cbn. intros a Ha. lia. }
    destruct (Z.eq_dec rd T) as [->|Hne].
    + assert (k <= streak_loop 0 T l)%nat; [|lia].
      apply (IH k (T - 86400000) T Hs' Hle); [|lia].
      intros i Hi. destruct (Hin (i + 1) ltac:(lia)) as [E|Hi']; [lia|].
      replace (T - 86400000 - i * 86400000) with (T - (i + 1) * 86400000) by lia.
      exact Hi'.
    + assert (S k <= streak_loop 0 rd l)%nat; [|lia].
      apply (IH (S k) T rd Hs' Hle); [|lia].
      intros i Hi. destruct (Hin i Hi) as [E|Hi']; [lia | exact Hi'].
Qed.


(** X20.  No recent ride, no streak: [calcStreak] gives 0 when the query
    fails or returns no ride, and when the day of every ride returned
    began more than 24 hours before today began. *)
Theorem calcStreak_without_a_recent_ride_is_0
    (startOfDay : Z -> Z) (rows : list Z) (now : Z) :
  (forall t, In t rows -> 86400000 < startOfDay now - startOfDay t) ->
  calcStreak startOfDay None now = 0%nat
  /\ calcStreak startOfDay (Some []) now = 0%nat
  /\ calcStreak startOfDay (Some rows) now = 0%nat.
Proof.
  intros Hold. split; [reflexivity|]. split; [reflexivity|].
  unfold calcStreak. destruct rows as [|r rows]; [reflexivity|].
  destruct (streak_dates_spec startOfDay (r :: rows)) as [_ Hin].
  destruct (streak_dates startOfDay (r :: rows)) as [|rd l]; [reflexivity|].
  cbn [streak_loop].
  destruct (proj1 (Hin rd) (or_introl eq_refl)) as (t & Ht & <-).
  specialize (Hold t Ht).
  destruct (Z.leb_spec (startOfDay now - startOfDay t) 86400000); [lia | reflexivity].
Qed.

Lemma calcStreak_without_a_recent_ride_is_0_witness :
  calcStreak (midnight 0) None (13 * 86400000) = 0%nat
  /\ calcStreak (midnight 0) (Some []) (13 * 86400000) = 0%nat
  /\ calcStreak (midnight 0) (Some five_rides) (13 * 86400000) = 0%nat.
Proof.
  apply (calcStreak_without_a_recent_ride_is_0 (midnight 0) five_rides (13 * 86400000)).
  intros t Ht. cbn in Ht.
  repeat (destruct Ht as [<-|Ht]; [vm_compute; reflexivity|]).
  destruct Ht.
Defined.



(** X22.  Whatever the local days are (daylight saving included),
    [calcStreak] counts each day once and misses no day in a row: it is at
    most the number of distinct days in the rides returned, and it is at
    least [k] when no ride is dated after today and the days of the rides
    include today's midnight and the [k - 1] instants 24 hours apart
    before it. *)
Theorem calcStreak_bounds
    (startOfDay : Z -> Z) (rows : list Z) (now : Z) (k : nat) :
  (forall t, In t rows -> startOfDay t <= startOfDay now) ->
  (forall i, 0 <= i < Z.of_nat k ->
             exists t, In t rows /\ startOfDay t = startOfDay now - i * 86400000) ->
  (k <= calcStreak startOfDay (Some rows) now)%nat
  /\ (calcStreak startOfDay (Some rows) now
      <= List.length (nodup Z.eq_dec (map startOfDay rows)))%nat
  /\ (calcStreak startOfDay (Some rows) now <= List.length rows)%nat.
Proof.
  intros Hpast Hrow.
  destruct (streak_dates_spec startOfDay rows) as [Hs Hin].
  assert (Ec : calcStreak startOfDay (Some rows) now
               = streak_loop 0 (startOfDay now) (streak_dates startOfDay rows)).
  { unfold calcStreak. destruct rows; reflexivity. }
  assert (Hlen : (List.length (streak_dates startOfDay rows)
                  <= List.length (nodup Z.eq_dec (map startOfDay rows)))%nat).
  { apply NoDup_incl_length.
    - clear - Hs. induction Hs as [|a l Hs IH Hall]; constructor; [|exact IH].
      intros Ha. rewrite Forall_forall in Hall. specialize (Hall a Ha). lia.
    - intros x Hx. apply nodup_In. apply in_map_iff.
      destruct (proj1 (Hin x) Hx) as (t & Ht & E). exists t. split; assumption. }
  rewrite Ec. split; [|split].
  - apply (streak_loop_lower _ k (startOfDay now) (startOfDay now) Hs); [| |lia].
    + apply Forall_forall. intros x Hx.
      destruct (proj1 (Hin x) Hx) as (t & Ht & <-). apply Hpast, Ht.
    + intros i Hi. destruct (Hrow i Hi) as (t & Ht & E).
      apply Hin. exists t. split; assumption.
  - pose proof (streak_loop_le (streak_dates startOfDay rows) (startOfDay now)). lia.
  - pose proof (streak_loop_le (streak_dates startOfDay rows) (startOfDay now)).
    assert (List.length (nodup Z.eq_dec (map startOfDay rows)) <= List.length rows)%nat.
    { rewrite <- (length_map startOfDay rows).
      apply NoDup_incl_length; [apply NoDup_nodup|].
      intros x Hx. apply nodup_In in Hx. exact Hx. }
    lia.
Qed.

Lemma calcStreak_bounds_witness :
  (2 <= calcStreak (midnight 3600000) (Some five_rides) (10 * 86400000 + 3600000))%nat
  /\ (calcStreak (midnight 3600000) (Some five_rides) (10 * 86400000 + 3600000)
      <= List.length (nodup Z.eq_dec (map (midnight 3600000) five_rides)))%nat
  /\ (calcStreak (midnight 3600000) (Some five_rides) (10 * 86400000 + 3600000)
      <= List.length five_rides)%nat.
Proof.
  apply (calcStreak_bounds (midnight 3600000) five_rides (10 * 86400000 + 3600000) 2).
  - intros t Ht. cbn in Ht.
    destruct Ht as [ <- | [ <- | [ <- | [ <- | [ <- | [] ] ] ] ] ]; vm_compute; congruence.
  - intros i Hi. assert (Ei : i = 0 \/ i = 1) by lia.
    destruct Ei as [ -> | -> ].
    + exists (10 * 86400000 + 1800000). split; [cbn; tauto | reflexivity].
    + exists (9 * 86400000 + 70000000). split; [cbn; tauto | reflexivity].
Defined.

(** ** Durations on display *)

Lemma fields_checked : fields_ok = true.
Proof. vm_compute. reflexivity. Qed.

Lemma field_facts (x : N) :
  (x < 60)%N ->
  String.length (padStart2 (dec x)) = 2%nat
  /\ no_colon (padStart2 (dec x)) = true
  /\ forall y, (y < 60)%N -> padStart2 (dec x) = padStart2 (dec y) -> x = y.
Proof.
  intros Hx.
  assert (Hin : forall z, (z < 60)%N -> In z fields).
  { intros z Hz. unfold fields. apply in_map_iff. exists (N.to_nat z).
    split; [apply N2Nat.id|]. apply in_seq. lia. }
  pose proof fields_checked as H. unfold fields_ok in H.
  rewrite forallb_forall in H. specialize (H x (Hin x Hx)).
  apply andb_true_iff in H. destruct H as [H H3].
  apply andb_true_iff in H. destruct H as [H1 H2].
  split; [apply Nat.eqb_eq, H1|]. split; [exact H2|].
  intros y Hy E. rewrite forallb_forall in H3. specialize (H3 y (Hin y Hy)).
  rewrite E, String.eqb_refl in H3. cbn [implb] in H3. apply N.eqb_eq, H3.
Qed.

Lemma dec_no_colon (n : N) : no_colon (dec n) = true.
Proof.
  unfold dec. generalize (N.to_uint n). intros d. unfold no_colon.
  induction d; cbn [DecimalString.NilEmpty.string_of_uint list_ascii_of_string existsb];
    try reflexivity; exact IHd.
Qed.

Lemma dec_inj (a b : N) : dec a = dec b -> a = b.
Proof.
  unfold dec. intros E. apply DecimalN.Unsigned.to_uint_inj.
  assert (H : Some (N.to_uint a) = Some (N.to_uint b)).
  { rewrite <- !DecimalString.NilEmpty.usu. rewrite E. reflexivity. }
  injection H as H. exact H.
Qed.

(** A string is cut at its first colon in one way. *)
Lemma cut_at_colon (s1 s2 t1 t2 : string) :
  no_colon s1 = true -> no_colon s2 = true ->
  (s1 ++ String ":" t1)%string = (s2 ++ String ":" t2)%string ->
  s1 = s2 /\ t1 = t2.
Proof.
  revert s2. induction s1 as [|c s1 IH]; intros [|c2 s2] H1 H2 E.
  - cbn in E. injection E as E. split; [reflexivity | exact E].
  - exfalso. cbn in E. injection E as Ec _. subst c2.
    unfold no_colon in H2. cbn in H2. discriminate.
  - exfalso. cbn in E. injection E as Ec _. subst c.
    unfold no_colon in H1. cbn in H1. discriminate.
  - cbn in E. injection E as Ec E. subst c2.
    assert (H1' : no_colon s1 = true).
    { unfold no_colon in *. cbn [list_ascii_of_string existsb] in H1.
      destruct (Ascii.eqb ":" c); [discriminate | exact H1]. }
    assert (H2' : no_colon s2 = true).
    { unfold no_colon in *. cbn [list_ascii_of_string existsb] in H2.
      destruct (Ascii.eqb ":" c); [discriminate | exact H2]. }
    destruct (IH s2 H1' H2' E) as [-> ->]. split; reflexivity.
Qed.

Lemma string_length_append (s t : string) :
  String.length (s ++ t)%string = (String.length s + String.length t)%nat.
Proof. induction s as [|c s IH]; [reflexivity|]. cbn. rewrite IH. reflexivity. Qed.

(** X23.  The duration on display tells durations apart: two whole
    numbers of seconds that [formatDuration] shows the same way are the
    same; under an hour [formatDuration] shows what [formatTrackTime] and
    [formatTime] show, minutes and two digits of seconds. *)
Theorem formatDuration_tells_durations_apart :
  (forall a b : N, formatDuration a = formatDuration b -> a = b)
  /\ (forall n : N, (n < 3600)%N ->
                    formatDuration n = formatTrackTime n
                    /\ formatTrackTime n = formatTime n)
  /\ formatDuration 3725 = "1:02:05"%string
  /\ formatDuration 125 = "2:05"%string.
Proof.
  split; [|split; [|split; reflexivity]].
  - intros a b. unfold formatDuration. cbv zeta.
    assert (Ha : (a = 3600 * (a / 3600) + 60 * ((a mod 3600) / 60) + a mod 60)%N).
    { pose proof (N.Div0.div_mod a 3600) as E1.
      pose proof (N.Div0.div_mod (a mod 3600) 60) as E2.
      assert (E3 : ((a mod 3600) mod 60 = a mod 60)%N).
      { change 3600%N with (60 * 60)%N. rewrite N.Div0.mod_mul_r.
        rewrite (N.mul_comm 60 ((a / 60) mod 60)), N.Div0.mod_add, N.Div0.mod_mod.
        reflexivity. }
      lia. }
    assert (Hb : (b = 3600 * (b / 3600) + 60 * ((b mod 3600) / 60) + b mod 60)%N).
    { pose proof (N.Div0.div_mod b 3600) as E1.
      pose proof (N.Div0.div_mod (b mod 3600) 60) as E2.
      assert (E3 : ((b mod 3600) mod 60 = b mod 60)%N).
      { change 3600%N with (60 * 60)%N. rewrite N.Div0.mod_mul_r.
        rewrite (N.mul_comm 60 ((b / 60) mod 60)), N.Div0.mod_add, N.Div0.mod_mod.
        reflexivity. }
      lia. }
    assert (Hm : forall n, ((n mod 3600) / 60 < 60)%N).
    { intros n. apply N.Div0.div_lt_upper_bound. apply N.mod_lt. discriminate. }
    assert (Hs : forall n, (n mod 60 < 60)%N) by (intros n; apply N.mod_lt; discriminate).
    destruct (field_facts _ (Hm a)) as (Lma & Cma & Ima).
    destruct (field_facts _ (Hs a)) as (Lsa & Csa & Isa).
    destruct (field_facts _ (Hm b)) as (Lmb & Cmb & Imb).
    destruct (field_facts _ (Hs b)) as (Lsb & Csb & Isb).
    destruct (N.ltb_spec 0 (a / 3600)) as [Hha|Hha];
      destruct (N.ltb_spec 0 (b / 3600)) as [Hhb|Hhb]; intros E.
    + apply cut_at_colon in E; try apply dec_no_colon. destruct E as [Eh E].
      apply cut_at_colon in E; try assumption. destruct E as [Em Es].
      apply dec_inj in Eh. apply Ima in Em; [|apply Hm]. apply Isa in Es; [|apply Hs].
      lia.
    + exfalso. apply cut_at_colon in E; try apply dec_no_colon. destruct E as [_ E].
      apply (f_equal String.length) in E.
      rewrite string_length_append in E. cbn [String.length String.append] in E.
      rewrite Lma, Lsa, Lsb in E. lia.
    + exfalso. apply cut_at_colon in E; try apply dec_no_colon. destruct E as [_ E].
      apply (f_equal String.length) in E.
      rewrite string_length_append in E. cbn [String.length String.append] in E.
      rewrite Lmb, Lsa, Lsb in E. lia.
    + apply cut_at_colon in E; try apply dec_no_colon. destruct E as [Em Es].
      apply dec_inj in Em. apply Isa in Es; [|apply Hs].
      apply N.le_0_r in Hha, Hhb. rewrite Hha in Ha. rewrite Hhb in Hb. lia.
  - intros n Hn. split; [|reflexivity].
    unfold formatDuration, formatTrackTime. cbv zeta.
    rewrite (N.div_small n 3600 Hn), (N.mod_small n 3600 Hn). reflexivity.
Qed.

(** ** What the unlock count reads, and what the indicator shows *)

(** X24.  The unlock count reads nothing of a ride but its fingerprint and
    its start: two ride lists that agree ride by ride on those two fields
    give the same count and the same verdict for the same last ride,
    whatever the activities, the users, the durations and the distances;
    so rides of different activities over the same cells count
    together. *)
Theorem unlock_count_reads_fingerprint_and_start_only
    (rides rides' : list Ride) (lastRide : option Ride) (now : Z) :
  Forall2 (fun r r' => route_signature r = route_signature r'
                       /\ started_at r = started_at r') rides rides' ->
  recentCount rides lastRide now = recentCount rides' lastRide now
  /\ unlocked rides lastRide now = unlocked rides' lastRide now.
Proof.
  intros H.
  assert (E : recentCount rides lastRide now = recentCount rides' lastRide now).
  { unfold recentCount. destruct lastRide as [lr|]; [|reflexivity].
    induction H as [|r r' l l' [Hs Ht] Hrest IH]; [reflexivity|].
    cbn [filter]. rewrite Hs, Ht.
    destruct (_ && _); cbn [List.length]; rewrite IH; reflexivity. }
  split; [exact E|]. unfold unlocked. rewrite E. reflexivity.
Qed.

Lemma unlock_count_reads_fingerprint_and_start_only_witness :
  let rs := [ride_on_day 6; ride_on_day 3; ride_on_day 0] in
  let rs' := [mkRide "owner" running (6 * day_ms) (6 * day_ms + 60000) 60 100 "fp" 1;
              mkRide "guest" hiking (3 * day_ms) (3 * day_ms + 60000) 60 100 "fp" 1;
              ride_on_day 0] in
  recentCount rs (Some (ride_on_day 6)) (6 * day_ms)
  = recentCount rs' (Some (ride_on_day 6)) (6 * day_ms)
  /\ unlocked rs (Some (ride_on_day 6)) (6 * day_ms)
     = unlocked rs' (Some (ride_on_day 6)) (6 * day_ms).
Proof.
  cbv zeta.
  apply (unlock_count_reads_fingerprint_and_start_only
           [ride_on_day 6; ride_on_day 3; ride_on_day 0]).
  repeat constructor.
Defined.

(** X25.  The GPS indicator agrees with the accuracy gate: after the
    position callback the indicator is [poor] exactly when the accuracy of
    the sample is above [MIN_ACCURACY_METERS], in which case nothing else
    of the session has changed; and whenever the indicator is [good] or
    [okay] the cell of the sample is in the cell set. *)
Theorem gps_indicator_agrees_with_the_gate
    (latLngToCell : R -> R -> Z -> string) (selectedActivity : activity)
    (s : Session) (pos : Position) (now : Z) :
  let s' := onPosition latLngToCell selectedActivity s pos now in
  (gps s' = poor <-> (accuracy pos > CONFIG.MIN_ACCURACY_METERS)%R)
  /\ (gps s' = good <-> (accuracy pos <= 20)%R)
  /\ (gps s' = poor -> s' = with_gps s poor)
  /\ (gps s' <> poor -> In (cell_of latLngToCell pos) (cells s')).
Proof.
  cbv zeta.
  assert (Hg : gps (onPosition latLngToCell selectedActivity s pos now)
               = if Rle_dec (accuracy pos) 20 then good
                 else if Rle_dec (accuracy pos) 50 then okay else poor).
  { unfold onPosition. cbv zeta. cbn [acc lat lng ts].
    destruct (Rgt_dec (accuracy pos) CONFIG.MIN_ACCURACY_METERS); [reflexivity|].
    destruct (last_point _); [|reflexivity].
    destruct (Rgt_dec _ (CONFIG.MAX_SPEED_MS selectedActivity)); reflexivity. }
  unfold CONFIG.MIN_ACCURACY_METERS in *.
  assert (Hpoor : gps (onPosition latLngToCell selectedActivity s pos now) = poor
                  <-> (accuracy pos > 50)%R).
  { rewrite Hg. destruct (Rle_dec (accuracy pos) 20); [split; [discriminate | lra]|].
    destruct (Rle_dec (accuracy pos) 50); split; try discriminate; try lra.
    reflexivity. }
  split; [exact Hpoor|]. split; [|split].
  - rewrite Hg. destruct (Rle_dec (accuracy pos) 20); [tauto|].
    destruct (Rle_dec (accuracy pos) 50); split; try discriminate; lra.
  - intros Hp. apply Hpoor in Hp.
    apply (onPosition_low_accuracy latLngToCell selectedActivity s pos now Hp).
  - intros Hp.
    assert (Hacc : (accuracy pos <= 50)%R).
    { destruct (Rle_dec (accuracy pos) 50) as [H|H]; [exact H|].
      exfalso. apply Hp, Hpoor. lra. }
    rewrite onPosition_cells. unfold accurate, CONFIG.MIN_ACCURACY_METERS.
    destruct (Rgt_dec (accuracy pos) 50); [lra|].
    unfold set_add, set_has. destruct (existsb _ _) eqn:E.
    + apply existsb_exists in E. destruct E as (x & Hx & Ex).
      apply String.eqb_eq in Ex. subst x. exact Hx.
    + apply in_or_app. right. left. reflexivity.
Qed.

(** ** The hop across a pause *)

(** X26.  Movement made while paused is counted when recording resumes:
    [pause] and [resume] keep the accepted samples, so the first accurate
    sample after a resume is measured against the last sample accepted
    before the pause; when the speed it implies over the whole interval,
    pause included, is within the ceiling of the activity, it is accepted
    and the whole hop is added to the distance. *)
Theorem hop_across_a_pause_is_counted
    (latLngToCell : R -> R -> Z -> string) (selectedActivity : activity)
    (s : Session) (p r : Z) (pos : Position) (now : Z) (last : Point) :
  last_point (pointsRef s) = Some last ->
  (accuracy pos <= CONFIG.MIN_ACCURACY_METERS)%R ->
  (implied_speed last pos now <= CONFIG.MAX_SPEED_MS selectedActivity)%R ->
  let s' := onPosition latLngToCell selectedActivity (resume (pause s p) r) pos now in
  pointsRef s'
  = pointsRef s ++ [mkPoint (latitude pos) (longitude pos) now (accuracy pos)]
  /\ distance (stats s')
     = (distance (stats s)
        + Geo.haversine (lat last) (lng last) (latitude pos) (longitude pos))%R
  /\ duration (stats s') = duration (stats s).
Proof.
  intros Hl Hacc Hsp. cbv zeta.
  pose proof (onPosition_cases latLngToCell selectedActivity
                (resume (pause s p) r) pos now Hacc) as H.
  cbv zeta in H. destruct H as (_ & _ & Hd & _ & _ & _ & _ & _ & _ & H).
  change (pointsRef (resume (pause s p) r)) with (pointsRef s) in H.
  change (stats (resume (pause s p) r)) with (stats s) in H, Hd.
  rewrite Hl in H.
  destruct (Rgt_dec (implied_speed last pos now) (CONFIG.MAX_SPEED_MS selectedActivity))
    as [Hbad|_]; [lra|].
  destruct H as (-> & -> & _). rewrite Hd. repeat split.
Qed.

Lemma hop_across_a_pause_is_counted_witness :
  let s := onPosition two_cells cycling (start initial 1000) here 2000 in
  let s' := onPosition two_cells cycling (resume (pause s 3000) 600000) there 601000 in
  pointsRef s' = pointsRef s ++ [mkPoint 0 (1 / 100) 601000 15]
  /\ distance (stats s') = (distance (stats s) + Geo.haversine 0 0 0 (1 / 100))%R
  /\ duration (stats s') = duration (stats s).
Proof.
  cbv zeta.
  apply (hop_across_a_pause_is_counted two_cells cycling
           (onPosition two_cells cycling (start initial 1000) here 2000)
           3000 600000 there 601000 (mkPoint 0 0 2000 15)).
  - pose proof (first_sample_here 1000 2000) as H. cbv zeta in H.
    destruct H as (-> & _). reflexivity.
  - exact there_passes.
  - unfold implied_speed. cbn [lat lng ts there latitude longitude CONFIG.MAX_SPEED_MS].
    rewrite here_to_there.
    replace (IZR (601000 - 2000) / 1000)%R with 599%R by (cbn; lra).
    destruct (Rgt_dec 599 0) as [_|n]; [|lra].
    pose proof PI_RGT_0 as Hpos. pose proof PI_4 as H4.
    apply (Rmult_le_reg_r 599); [lra|].
    unfold Rdiv. rewrite Rmult_assoc, Rinv_l, Rmult_1_r by lra. lra.
Defined.

(** ** The callback in binary64 *)

Section Binary64Facts.
Import PrimFloat.
Local Open Scope float_scope.

(** X28.  In binary64, whatever the runtime's [Math.sin], [Math.cos] and
    [Math.atan2] and whatever the session and the position, [NaN]
    included: the callback keeps the cells it has and the samples it has
    accepted, in their order, and adds at the end; it adds at most one
    cell and at most one sample, the one built from the position. *)
Theorem callback_only_appends_in_binary64
    (sin cos : float -> float) (atan2 : float -> float -> float)
    (latLngToCell : float -> float -> Z -> string) (selectedActivity : activity)
    (s : B64.Session) (pos : B64.Position) (now : Z) :
  let s' := B64.onPosition sin cos atan2 latLngToCell selectedActivity s pos now in
  let cell := latLngToCell (B64.latitude pos) (B64.longitude pos) CONFIG.H3_RESOLUTION in
  let pt := B64.mkPoint (B64.latitude pos) (B64.longitude pos) now (B64.accuracy pos) in
  (B64.cells s' = B64.cells s \/ B64.cells s' = B64.cells s ++ [cell])
  /\ (B64.pointsRef s' = B64.pointsRef s \/ B64.pointsRef s' = B64.pointsRef s ++ [pt])
  /\ ((50 <? B64.accuracy pos) = true ->
      B64.cells s' = B64.cells s /\ B64.pointsRef s' = B64.pointsRef s
      /\ B64.stats s' = B64.stats s).
Proof.
  cbv zeta. unfold B64.onPosition. cbv zeta. cbn [B64.lat B64.lng B64.acc B64.ts].
  destruct (50 <? B64.accuracy pos).
  - cbn. repeat split; left; reflexivity.
  - assert (Ha : set_add (latLngToCell (B64.latitude pos) (B64.longitude pos)
                                       CONFIG.H3_RESOLUTION) (B64.cells s)
                 = B64.cells s
                 \/ set_add (latLngToCell (B64.latitude pos) (B64.longitude pos)
                                          CONFIG.H3_RESOLUTION) (B64.cells s)
                    = B64.cells s
                      ++ [latLngToCell (B64.latitude pos) (B64.longitude pos)
                                       CONFIG.H3_RESOLUTION]).
    { unfold set_add. destruct (set_has _ _); [left | right]; reflexivity. }
    destruct (nth_error _ _) as [last|]; [destruct (_ <? _)|]; cbn;
      (split; [exact Ha|]); (split; [|discriminate]);
      first [ left; reflexivity | right; reflexivity ].
Qed.

(** C9. The claim fails on a hop between two points nearly opposite on the
    globe.  A cycling session takes a sample at latitude 0.01215, longitude
    0 and, a second later, one at latitude -0.01215, longitude 180, both of
    accuracy 15 m.  With the sines and cosines of the runtime at these
    arguments, the [a] of [haversine] is [1 + 2^-52], the square root of
    [1 - a] is [NaN] and so is the distance of the hop; [NaN] is not above
    the ceiling, so the sample is accepted, and the cumulative distance and
    the speed on display become [NaN]: the distance after the callback is
    not at least the distance before it. *)
Theorem antipodal_hop_turns_the_distance_into_NaN
    (sin cos : float -> float) (atan2 : float -> float -> float)
    (latLngToCell : float -> float -> Z -> string)
    (Hs1 : sin 0x1.921fb54442d18p+0 = 1)
    (Hs2 : sin (-0x1.bcb7817117adcp-13) = -0x1.bcb781392c696p-13)
    (Hc1 : cos 0x1.bcb7817117adcp-13 = 0x1.ffffff3edcbcfp-1)
    (Hc2 : cos (-0x1.bcb7817117adcp-13) = 0x1.ffffff3edcbcfp-1)
    (Hnan : forall y, atan2 y nan = nan) :
  let step := B64.onPosition sin cos atan2 latLngToCell cycling in
  let s1 := step B64.started B64.north 2000%Z in
  let s2 := step s1 B64.south 3000%Z in
  B64.hav_a sin cos (B64.latitude B64.north) (B64.longitude B64.north)
            (B64.latitude B64.south) (B64.longitude B64.south)
  = 0x1.0000000000001p+0
  /\ B64.haversine sin cos atan2
       (B64.latitude B64.north) (B64.longitude B64.north)
       (B64.latitude B64.south) (B64.longitude B64.south) = nan
  /\ List.length (B64.pointsRef s1) = 1%nat
  /\ List.length (B64.pointsRef s2) = 2%nat
  /\ B64.distance (B64.stats s1) = 0
  /\ B64.distance (B64.stats s2) = nan
  /\ B64.speed (B64.stats s2) = nan
  /\ (B64.distance (B64.stats s1) <=? B64.distance (B64.stats s2)) = false.
Proof.
  cbv zeta.
  assert (Ha : B64.hav_a sin cos (B64.latitude B64.north) (B64.longitude B64.north)
                 (B64.latitude B64.south) (B64.longitude B64.south)
               = 0x1.0000000000001p+0).
  { unfold B64.hav_a. cbv zeta.
    change (B64.toRad (B64.latitude B64.south - B64.latitude B64.north) / 2)
      with (-0x1.bcb7817117adcp-13).
    change (B64.toRad (B64.longitude B64.south - B64.longitude B64.north) / 2)
      with 0x1.921fb54442d18p+0.
    change (B64.toRad (B64.latitude B64.north)) with 0x1.bcb7817117adcp-13.
    change (B64.toRad (B64.latitude B64.south)) with (-0x1.bcb7817117adcp-13).
    rewrite Hs1, Hs2, Hc1, Hc2. reflexivity. }
  assert (Hh : B64.haversine sin cos atan2
                 (B64.latitude B64.north) (B64.longitude B64.north)
                 (B64.latitude B64.south) (B64.longitude B64.south) = nan).
  { unfold B64.haversine. cbv zeta. rewrite Ha.
    change (sqrt (1 - 0x1.0000000000001p+0)) with nan.
    rewrite Hnan. reflexivity. }
  split; [exact Ha|]. split; [exact Hh|].
  set (cell := latLngToCell (B64.latitude B64.north) (B64.longitude B64.north)
                            CONFIG.H3_RESOLUTION).
  assert (H1 : B64.onPosition sin cos atan2 latLngToCell cycling
                 B64.started B64.north 2000
               = B64.mkSession (B64.mkStats 0 0 1 0) good [cell]
                   [B64.mkPoint (B64.latitude B64.north) (B64.longitude B64.north)
                                2000 (B64.accuracy B64.north)])
    by reflexivity.
  rewrite H1. unfold B64.onPosition. cbv zeta.
  cbn [B64.acc B64.lat B64.lng B64.ts B64.pointsRef B64.cells B64.stats
       List.length Nat.sub nth_error].
  change (50 <? B64.accuracy B64.south) with false. cbv iota.
  rewrite Hh.
  change (B64.of_Z (3000 - 2000) / 1000) with 1.
  change (0 <? 1) with true. cbv iota.
  change (nan / 1) with nan.
  change (B64.MAX_SPEED_MS cycling <? nan) with false. cbv iota.
  cbn [B64.pointsRef B64.stats B64.distance B64.speed List.length app].
  repeat split.
Qed.

Lemma antipodal_hop_turns_the_distance_into_NaN_witness :
  let step := B64.onPosition B64.sin_at_run B64.cos_at_run B64.atan2_at_run
                             (fun _ _ _ => "8a754e64992ffff"%string) cycling in
  let s1 := step B64.started B64.north 2000%Z in
  let s2 := step s1 B64.south 3000%Z in
  List.length (B64.pointsRef s2) = 2%nat
  /\ B64.distance (B64.stats s2) = nan
  /\ (B64.distance (B64.stats s1) <=? B64.distance (B64.stats s2)) = false.
Proof.
  cbv zeta.
  destruct (antipodal_hop_turns_the_distance_into_NaN
              B64.sin_at_run B64.cos_at_run B64.atan2_at_run
              (fun _ _ _ => "8a754e64992ffff"%string))
    as (_ & _ & _ & Hn & _ & Hd & _ & Hle);
    try reflexivity.
  repeat split; assumption.
Defined.
End Binary64Facts.

